(** * The unified server of the LinkedIn Research Suite

    A shallow embedding of [src/unified-server.js]: the supervisor that
    spawns the stagehand, backend and frontend services, polls their health
    endpoints, restarts them when they fail, multiplexes their output into one
    log and shuts everything down.

    The JavaScript runs on Node's event loop.  One turn of the loop (a
    callback together with the promise continuations it makes runnable) is one
    [step] of the model; what the environment does (a child exits, a timer
    fires, curl returns, a signal arrives) is an [event]. *)

From Stdlib Require Import String Ascii NArith Lia.
From stdpp Require Import prelude gmap.

Local Open Scope N_scope.

(** ** JavaScript strings

    A JavaScript string is a sequence of UTF-16 code units. *)

Abbreviation jsstring := (list N).

Definition js (s : string) : jsstring :=
  map N_of_ascii (list_ascii_of_string s).

(** [\w], [\d] and [\s] of a regular expression without the [u] flag. *)
Definition is_word (c : N) : bool :=
  ((65 <=? c) && (c <=? 90)) || ((97 <=? c) && (c <=? 122))
  || ((48 <=? c) && (c <=? 57)) || (c =? 95).

Definition is_digit (c : N) : bool := (48 <=? c) && (c <=? 57).

Definition is_space (c : N) : bool :=
  ((9 <=? c) && (c <=? 13)) || (c =? 32) || (c =? 160) || (c =? 5760)
  || ((8192 <=? c) && (c <=? 8202)) || (c =? 8232) || (c =? 8233)
  || (c =? 8239) || (c =? 8287) || (c =? 12288) || (c =? 65279).

(** [s.startsWith(p)], returning what follows the prefix. *)
Fixpoint strip_prefix (p s : jsstring) : option jsstring :=
  match p, s with
  | [], _ => Some s
  | a :: p', b :: s' => if a =? b then strip_prefix p' s' else None
  | _ :: _, [] => None
  end.

Fixpoint skip_spaces (s : jsstring) : jsstring :=
  match s with
  | c :: s' => if is_space c then skip_spaces s' else s
  | [] => []
  end.

(** [String.prototype.trim]. *)
Definition trim (s : jsstring) : jsstring :=
  rev (skip_spaces (rev (skip_spaces s))).

(** [String.prototype.toUpperCase] on the ASCII letters; the supervisor only
    applies it to the three service names. *)
Definition toUpperCase (s : jsstring) : jsstring :=
  map (fun c => if (97 <=? c) && (c <=? 122) then c - 32 else c) s.

(** [Array.prototype.join]. *)
Fixpoint join (sep : jsstring) (l : list jsstring) : jsstring :=
  match l with
  | [] => []
  | [x] => x
  | x :: rest => x ++ sep ++ join sep rest
  end.

(** A number inside a template literal: its decimal digits.  That is what
    JavaScript prints for an integer below 10^21, as every port, process id,
    delay and HTTP status is; above it prints an exponent. *)
Fixpoint decimal_aux (fuel : nat) (n : N) (acc : jsstring) : jsstring :=
  match fuel with
  | O => acc
  | S fuel' =>
      let acc' := (48 + n mod 10) :: acc in
      if n <? 10 then acc' else decimal_aux fuel' (n / 10) acc'
  end.

Definition decimal (n : N) : jsstring := decimal_aux (S (N.size_nat n)) n [].

(** ** The two regular expressions of [logProcessOutput] *)

(** [\b]: exactly one of the two neighbouring characters is a word character;
    the ends of the string count as non-word. *)
Definition word_boundary (prev next : option N) : bool :=
  xorb (from_option is_word false prev) (from_option is_word false next).

Definition level_tokens : list jsstring :=
  [js "DEBUG"; js "INFO"; js "WARNING"; js "ERROR"; js "CRITICAL"].

(** The alternation [(DEBUG|INFO|WARNING|ERROR|CRITICAL)\b] tried at one
    position, the alternatives in their order. *)
Fixpoint match_alternatives (alts : list jsstring) (s : jsstring)
  : option jsstring :=
  match alts with
  | [] => None
  | tok :: alts' =>
      match strip_prefix tok s with
      | Some rest =>
          if word_boundary (last tok) (head rest) then Some tok
          else match_alternatives alts' s
      | None => match_alternatives alts' s
      end
  end.

Definition match_level_here (prev : option N) (s : jsstring) : option jsstring :=
  if word_boundary prev (head s) then match_alternatives level_tokens s
  else None.

(** [message.match(/\b(DEBUG|INFO|WARNING|ERROR|CRITICAL)\b/)]: the capture
    group of the leftmost match, [None] for [null]. *)
Fixpoint search_level (prev : option N) (s : jsstring) : option jsstring :=
  match match_level_here prev s with
  | Some tok => Some tok
  | None =>
      match s with
      | [] => None
      | c :: s' => search_level (Some c) s'
      end
  end.

Definition logLevelMatch (message : jsstring) : option jsstring :=
  search_level None message.

Fixpoint digits (n : nat) (s : jsstring) : option jsstring :=
  match n with
  | O => Some s
  | S n' =>
      match s with
      | c :: s' => if is_digit c then digits n' s' else None
      | [] => None
      end
  end.

Definition spaces1 (s : jsstring) : option jsstring :=
  match s with
  | c :: s' => if is_space c then Some (skip_spaces s') else None
  | [] => None
  end.

(** [/^\d{4}-\d{2}-\d{2}\s+\d{2}:\d{2}:\d{2}/]: the pieces of the pattern, each
    consuming its part of the input.  Spaces and digits are disjoint, so the
    greedy [\s+] never has to give a character back. *)
Definition timestamp_pattern : list (jsstring -> option jsstring) :=
  [ digits 4; strip_prefix (js "-"); digits 2; strip_prefix (js "-"); digits 2;
    spaces1;
    digits 2; strip_prefix (js ":"); digits 2; strip_prefix (js ":"); digits 2 ].

Definition match_sequence (pats : list (jsstring -> option jsstring))
    (s : jsstring) : option jsstring :=
  foldl (fun o p => match o with Some r => p r | None => None end) (Some s) pats.

(** [regex.test(message)] for the pattern anchored at the start. *)
Definition hasTimestamp (message : jsstring) : bool :=
  match match_sequence timestamp_pattern message with
  | Some _ => true
  | None => false
  end.

Local Close Scope N_scope.

(** ** Configuration *)

Inductive service := backend | frontend | stagehand.

Global Instance service_eq_dec : EqDecision service.
Proof. solve_decision. Defined.

(** The keys of [this.processes] and [this.restartCounts], in the order of the
    object literals (the order [Object.entries] follows). *)
Definition service_names : list service := [backend; frontend; stagehand].

Definition name_text (name : service) : jsstring :=
  match name with
  | backend => js "backend"
  | frontend => js "frontend"
  | stagehand => js "stagehand"
  end.

(** An object with the three service names as its keys. *)
Record per_service (A : Type) := PerService {
  of_backend : A;
  of_frontend : A;
  of_stagehand : A
}.
Arguments PerService {A} _ _ _.
Arguments of_backend {A} _.
Arguments of_frontend {A} _.
Arguments of_stagehand {A} _.

Definition get {A} (o : per_service A) (name : service) : A :=
  match name with
  | backend => of_backend o
  | frontend => of_frontend o
  | stagehand => of_stagehand o
  end.

Definition set {A} (o : per_service A) (name : service) (v : A) : per_service A :=
  match name with
  | backend => PerService v (of_frontend o) (of_stagehand o)
  | frontend => PerService (of_backend o) v (of_stagehand o)
  | stagehand => PerService (of_backend o) (of_frontend o) v
  end.

(** What the supervisor reads from its surroundings when it starts, and the
    clock: [toISOString k] is the result of the [k]-th evaluation of
    [new Date().toISOString()]. *)
Record environment := {
  dirname : jsstring;              (* __dirname, absolute, no trailing slash *)
  NODE_ENV : option jsstring;      (* process.env.NODE_ENV *)
  pid : N;                         (* process.pid *)
  toISOString : nat -> jsstring
}.

(** [path.join] of a normalised directory and relative segments. *)
Definition path_join (dir : jsstring) (segments : list jsstring) : jsstring :=
  join (js "/") (dir :: segments).

Record config := {
  cwd : jsstring;
  command : jsstring;
  args : list jsstring;
  port : N
}.

(** [process.env.NODE_ENV || 'development']. *)
Definition node_env_or_development (e : environment) : jsstring :=
  match NODE_ENV e with
  | Some (c :: v) => c :: v
  | _ => js "development"
  end.

Definition production (e : environment) : bool :=
  bool_decide (NODE_ENV e = Some (js "production")).

(** [CONFIG]; the [env] overlays handed to [spawn] play no part in what
    follows and are left out.  [backendCommand] is the current value of
    [CONFIG.backend.command], which [checkPrerequisites] may replace. *)
Definition CONFIG (e : environment) (backendCommand : jsstring)
    (name : service) : config :=
  match name with
  | backend =>
      {| cwd := path_join (dirname e) [js "framework"];
         command := backendCommand;
         args := [js "src/main.py"];
         port := 5001 |}
  | frontend =>
      {| cwd := path_join (dirname e) [js "dashboard"];
         command := js "npm";
         args := if production e
                 then [js "run"; js "preview"; js "--"; js "--host";
                       js "0.0.0.0"; js "--port"; js "5173"]
                 else [js "run"; js "dev"; js "--"; js "--host"; js "0.0.0.0"];
         port := 5173 |}
  | stagehand =>
      {| cwd := dirname e;
         command := js "node";
         args := [js "stagehand-server.js"];
         port := 8081 |}
  end.

(** ** The supervisor's state and its history *)

Inductive signal := SIGTERM | SIGINT | SIGUSR2 | SIGKILL.

Definition signal_text (sig : signal) : jsstring :=
  match sig with
  | SIGTERM => js "SIGTERM"
  | SIGINT => js "SIGINT"
  | SIGUSR2 => js "SIGUSR2"
  | SIGKILL => js "SIGKILL"
  end.

(** The callbacks handed to [setTimeout]. *)
Inductive timer_kind :=
| TRestart (name : service)            (* handleProcessFailure *)
| TForceKill (name : service) (h : nat)  (* shutdown, one per process *)
| TResume.                             (* [await new Promise(r => setTimeout(r, ms))] in start() *)

(** What the supervisor does to the outside world, and what it observes of
    it, in the order of occurrence. *)
Inductive action :=
| FileWrite (chunk : jsstring)         (* logStream.write *)
| Console (text : jsstring)            (* console.log *)
| Spawn (h : nat) (name : service) (cfg : config)
| Kill (h : nat) (sig : signal)        (* a signal delivered to a live child *)
| SetTimeout (id : nat) (delay : N) (k : timer_kind)
| ClearTimeout (id : nat)
| Exec (cmd : jsstring)                (* child_process.exec *)
| Fetch (url : jsstring)               (* fetch, method POST *)
| StreamEnd                            (* logStream.end() *)
| Exit (code : nat)                    (* process.exit *)
| HealthObserved (name : service) (ok : bool)  (* checkHealth() resolved *)
| ProcessFailure (name : service)      (* handleProcessFailure entered *)
| ShutdownCalled (code : nat)          (* shutdown entered *)
| ExitObserved (h : nat)               (* 'exit' event of a child *)
| SignalReceived (sig : signal).

(** A [ChildProcess] object: the service it was spawned for, whether the
    operating-system process is running, and its [killed] property. *)
Record handle := {
  h_name : service;
  h_alive : bool;
  h_killed : bool
}.

Inductive stream := StreamOpen | StreamEnded.

(** One promise of [shutdownPromises]: the process, the service name of the
    loop iteration, the force-kill timer, and whether it is resolved.  Its
    'exit' listener stays on the process after it is resolved. *)
Record race := {
  r_handle : nat;
  r_name : service;
  r_timer : nat;
  r_resolved : bool
}.

(** Where [start()] is suspended. *)
Inductive start_pc :=
| Probing (name : service) (port : N) (attempt : nat)   (* await checkHealth() *)
| Sleeping (name : service) (port : N) (attempt : nat)  (* the 2000 ms between attempts *)
| SessionCleanupDelay (port : N)  (* the 1000 ms of waitForHealthcheck's cleanup *)
| AwaitFetch             (* the fetch of cleanupStagehandSessions *)
| BackendDelay           (* the 3000 ms after the backend is started *)
| Started                (* start() has returned *)
| NotStarted             (* start() has not been called *)
| StartFailed.           (* the catch branch was taken *)

Record state := {
  env : environment;
  (* fields of the UnifiedServer object *)
  processes : per_service (option nat);
  logStream : option stream;
  isShuttingDown : bool;
  restartCounts : per_service nat;
  (* CONFIG.backend.command *)
  backendCommand : jsstring;
  (* the runtime *)
  handles : list handle;           (* every ChildProcess created so far *)
  timers : list (nat * timer_kind);  (* pending timeouts *)
  nextTimer : nat;
  pc : start_pc;
  cleanupExecs : nat;              (* curl -X POST callbacks still to come *)
  races : list race;               (* shutdownPromises *)
  shutdownCode : option nat;       (* exitCode of the shutdown() that runs *)
  exited : option nat;             (* process.exit(code) was called *)
  (* history *)
  dateReads : nat;
  trace : list action              (* newest first *)
}.

Definition maxRestarts : nat := 3.
Definition restartDelay : N := 5000.
Definition maxAttempts : nat := 30.

(** Field updates. *)
Definition with_processes v (s : state) : state :=
  {| env := env s; processes := v; logStream := logStream s;
     isShuttingDown := isShuttingDown s; restartCounts := restartCounts s;
     backendCommand := backendCommand s; handles := handles s;
     timers := timers s; nextTimer := nextTimer s; pc := pc s;
     cleanupExecs := cleanupExecs s; races := races s;
     shutdownCode := shutdownCode s; exited := exited s;
     dateReads := dateReads s; trace := trace s |}.

Definition with_logStream v (s : state) : state :=
  {| env := env s; processes := processes s; logStream := v;
     isShuttingDown := isShuttingDown s; restartCounts := restartCounts s;
     backendCommand := backendCommand s; handles := handles s;
     timers := timers s; nextTimer := nextTimer s; pc := pc s;
     cleanupExecs := cleanupExecs s; races := races s;
     shutdownCode := shutdownCode s; exited := exited s;
     dateReads := dateReads s; trace := trace s |}.

Definition with_isShuttingDown v (s : state) : state :=
  {| env := env s; processes := processes s; logStream := logStream s;
     isShuttingDown := v; restartCounts := restartCounts s;
     backendCommand := backendCommand s; handles := handles s;
     timers := timers s; nextTimer := nextTimer s; pc := pc s;
     cleanupExecs := cleanupExecs s; races := races s;
     shutdownCode := shutdownCode s; exited := exited s;
     dateReads := dateReads s; trace := trace s |}.

Definition with_restartCounts v (s : state) : state :=
  {| env := env s; processes := processes s; logStream := logStream s;
     isShuttingDown := isShuttingDown s; restartCounts := v;
     backendCommand := backendCommand s; handles := handles s;
     timers := timers s; nextTimer := nextTimer s; pc := pc s;
     cleanupExecs := cleanupExecs s; races := races s;
     shutdownCode := shutdownCode s; exited := exited s;
     dateReads := dateReads s; trace := trace s |}.

Definition with_backendCommand v (s : state) : state :=
  {| env := env s; processes := processes s; logStream := logStream s;
     isShuttingDown := isShuttingDown s; restartCounts := restartCounts s;
     backendCommand := v; handles := handles s; timers := timers s;
     nextTimer := nextTimer s; pc := pc s; cleanupExecs := cleanupExecs s;
     races := races s; shutdownCode := shutdownCode s; exited := exited s;
     dateReads := dateReads s; trace := trace s |}.

Definition with_handles v (s : state) : state :=
  {| env := env s; processes := processes s; logStream := logStream s;
     isShuttingDown := isShuttingDown s; restartCounts := restartCounts s;
     backendCommand := backendCommand s; handles := v; timers := timers s;
     nextTimer := nextTimer s; pc := pc s; cleanupExecs := cleanupExecs s;
     races := races s; shutdownCode := shutdownCode s; exited := exited s;
     dateReads := dateReads s; trace := trace s |}.

Definition with_timers v (s : state) : state :=
  {| env := env s; processes := processes s; logStream := logStream s;
     isShuttingDown := isShuttingDown s; restartCounts := restartCounts s;
     backendCommand := backendCommand s; handles := handles s; timers := v;
     nextTimer := nextTimer s; pc := pc s; cleanupExecs := cleanupExecs s;
     races := races s; shutdownCode := shutdownCode s; exited := exited s;
     dateReads := dateReads s; trace := trace s |}.

Definition with_nextTimer v (s : state) : state :=
  {| env := env s; processes := processes s; logStream := logStream s;
     isShuttingDown := isShuttingDown s; restartCounts := restartCounts s;
     backendCommand := backendCommand s; handles := handles s;
     timers := timers s; nextTimer := v; pc := pc s;
     cleanupExecs := cleanupExecs s; races := races s;
     shutdownCode := shutdownCode s; exited := exited s;
     dateReads := dateReads s; trace := trace s |}.

Definition with_pc v (s : state) : state :=
  {| env := env s; processes := processes s; logStream := logStream s;
     isShuttingDown := isShuttingDown s; restartCounts := restartCounts s;
     backendCommand := backendCommand s; handles := handles s;
     timers := timers s; nextTimer := nextTimer s; pc := v;
     cleanupExecs := cleanupExecs s; races := races s;
     shutdownCode := shutdownCode s; exited := exited s;
     dateReads := dateReads s; trace := trace s |}.

Definition with_cleanupExecs v (s : state) : state :=
  {| env := env s; processes := processes s; logStream := logStream s;
     isShuttingDown := isShuttingDown s; restartCounts := restartCounts s;
     backendCommand := backendCommand s; handles := handles s;
     timers := timers s; nextTimer := nextTimer s; pc := pc s;
     cleanupExecs := v; races := races s; shutdownCode := shutdownCode s;
     exited := exited s; dateReads := dateReads s; trace := trace s |}.

Definition with_races v (s : state) : state :=
  {| env := env s; processes := processes s; logStream := logStream s;
     isShuttingDown := isShuttingDown s; restartCounts := restartCounts s;
     backendCommand := backendCommand s; handles := handles s;
     timers := timers s; nextTimer := nextTimer s; pc := pc s;
     cleanupExecs := cleanupExecs s; races := v;
     shutdownCode := shutdownCode s; exited := exited s;
     dateReads := dateReads s; trace := trace s |}.

Definition with_shutdownCode v (s : state) : state :=
  {| env := env s; processes := processes s; logStream := logStream s;
     isShuttingDown := isShuttingDown s; restartCounts := restartCounts s;
     backendCommand := backendCommand s; handles := handles s;
     timers := timers s; nextTimer := nextTimer s; pc := pc s;
     cleanupExecs := cleanupExecs s; races := races s; shutdownCode := v;
     exited := exited s; dateReads := dateReads s; trace := trace s |}.

Definition with_exited v (s : state) : state :=
  {| env := env s; processes := processes s; logStream := logStream s;
     isShuttingDown := isShuttingDown s; restartCounts := restartCounts s;
     backendCommand := backendCommand s; handles := handles s;
     timers := timers s; nextTimer := nextTimer s; pc := pc s;
     cleanupExecs := cleanupExecs s; races := races s;
     shutdownCode := shutdownCode s; exited := v; dateReads := dateReads s;
     trace := trace s |}.

Definition with_dateReads v (s : state) : state :=
  {| env := env s; processes := processes s; logStream := logStream s;
     isShuttingDown := isShuttingDown s; restartCounts := restartCounts s;
     backendCommand := backendCommand s; handles := handles s;
     timers := timers s; nextTimer := nextTimer s; pc := pc s;
     cleanupExecs := cleanupExecs s; races := races s;
     shutdownCode := shutdownCode s; exited := exited s; dateReads := v;
     trace := trace s |}.

Definition with_trace v (s : state) : state :=
  {| env := env s; processes := processes s; logStream := logStream s;
     isShuttingDown := isShuttingDown s; restartCounts := restartCounts s;
     backendCommand := backendCommand s; handles := handles s;
     timers := timers s; nextTimer := nextTimer s; pc := pc s;
     cleanupExecs := cleanupExecs s; races := races s;
     shutdownCode := shutdownCode s; exited := exited s;
     dateReads := dateReads s; trace := v |}.

(** ** Logging *)

Definition nl : jsstring := [10%N].

Definition emit (a : action) (s : state) : state :=
  with_trace (a :: trace s) s.

(** [this.logStream.write(chunk)] behind [if (this.logStream)]: the chunk
    handed to the stream.  The stream writes it to the file later, and what
    is still pending at [process.exit] is lost; a chunk handed over after
    [end()] is refused. *)
Definition written (st : option stream) (chunk : jsstring) : list action :=
  match st with
  | Some StreamOpen => [FileWrite chunk]
  | Some StreamEnded => []
  | None => []
  end.

Definition stream_write (chunk : jsstring) (s : state) : state :=
  with_trace (written (logStream s) chunk ++ trace s) s.

Definition MAIN : jsstring := js "MAIN".

Definition log (level message service : jsstring) (s : state) : state :=
  let timestamp := toISOString (env s) (dateReads s) in
  let logMessage :=
    js "[" ++ timestamp ++ js "] [" ++ level ++ js "] [" ++ service ++ js "] "
    ++ message ++ nl in
  let s := with_dateReads (S (dateReads s)) s in
  let s := stream_write logMessage s in
  emit (Console (trim logMessage)) s.

(** [detectedLevel] of [logProcessOutput] after the two conversions. *)
Definition detectedLevel (message : jsstring) : jsstring :=
  let detected := default (js "INFO") (logLevelMatch message) in
  let detected :=
    if decide (detected = js "CRITICAL") then js "ERROR" else detected in
  if decide (detected = js "DEBUG") then js "INFO" else detected.

Definition logProcessOutput (message service : jsstring) (s : state) : state :=
  let level := detectedLevel message in
  if hasTimestamp message then
    let logMessage :=
      js "[" ++ level ++ js "] [" ++ service ++ js "] " ++ message ++ nl in
    let s := stream_write logMessage s in
    emit (Console (trim logMessage)) s
  else log level message service s.

(** ** Timers and processes *)

Definition setTimeout (k : timer_kind) (delay : N) (s : state) : state :=
  let id := nextTimer s in
  emit (SetTimeout id delay k)
    (with_nextTimer (S id) (with_timers ((id, k) :: timers s) s)).

Definition drop_timer (id : nat) (l : list (nat * timer_kind))
  : list (nat * timer_kind) :=
  filter (fun t => t.1 ≠ id) l.

Definition clearTimeout (id : nat) (s : state) : state :=
  emit (ClearTimeout id) (with_timers (drop_timer id (timers s)) s).

Fixpoint find_timer (id : nat) (l : list (nat * timer_kind))
  : option timer_kind :=
  match l with
  | [] => None
  | (i, k) :: l' => if decide (i = id) then Some k else find_timer id l'
  end.

(** [process.kill(sig)]: the signal reaches the process only when it still
    runs, and only then [killed] becomes true. *)
Definition kill (h : nat) (sig : signal) (s : state) : state :=
  match handles s !! h with
  | Some hd =>
      if h_alive hd then
        emit (Kill h sig)
          (with_handles
             (<[h := {| h_name := h_name hd; h_alive := true;
                        h_killed := true |}]> (handles s)) s)
      else s
  | None => s
  end.

Definition UPPER (name : service) : jsstring := toUpperCase (name_text name).

Definition INFO : jsstring := js "INFO".
Definition WARNING : jsstring := js "WARNING".
Definition ERROR : jsstring := js "ERROR".

(** [spawnProcess]; the listeners it installs are the cases [EvData],
    [EvSpawned], [EvError] and [EvExit] of [handle_event] below. *)
Definition spawnProcess (name : service) (cfg : config) (s : state)
  : nat * state :=
  let s := log INFO (js "Starting " ++ name_text name ++ js " process...")
             (UPPER name) s in
  let s := log INFO (js "Command: " ++ command cfg ++ js " "
                     ++ join (js " ") (args cfg)) (UPPER name) s in
  let s := log INFO (js "Working Directory: " ++ cwd cfg) (UPPER name) s in
  let h := length (handles s) in
  let s := with_handles
             (handles s ++ [{| h_name := name; h_alive := true;
                               h_killed := false |}]) s in
  (h, emit (Spawn h name cfg) s).

Definition startProcess (name : service) (s : state) : state :=
  let s := match get (processes s) name with
           | Some h => kill h SIGTERM s
           | None => s
           end in
  let cfg := CONFIG (env s) (backendCommand s) name in
  let '(h, s) := spawnProcess name cfg s in
  with_processes (set (processes s) name (Some h)) s.

(** ** Shutdown *)

(** One iteration of the loop over [Object.entries(this.processes)]. *)
Definition stopProcess (name : service) (s : state) : state :=
  match get (processes s) name with
  | Some h =>
      match handles s !! h with
      | Some hd =>
          if h_killed hd then s
          else
            let id := nextTimer s in
            let s := setTimeout (TForceKill name h) 10000 s in
            let s := with_races
                       (races s ++ [{| r_handle := h; r_name := name;
                                       r_timer := id; r_resolved := false |}])
                       s in
            let s := log INFO (js "Stopping " ++ name_text name
                               ++ js " process...") (UPPER name) s in
            kill h SIGTERM s
      | None => s
      end
  | None => s
  end.

(** [shutdown] up to [await Promise.all(shutdownPromises)]. *)
Definition shutdown (exitCode : nat) (s : state) : state :=
  let s := emit (ShutdownCalled exitCode) s in
  if isShuttingDown s then
    log WARNING (js "Shutdown already in progress...") MAIN s
  else
    let s := with_isShuttingDown true s in
    let s := with_shutdownCode (Some exitCode) s in
    let s := log INFO (js "Shutting down services...") MAIN s in
    foldl (fun s name => stopProcess name s) s service_names.

(** [shutdown] after the [await]. *)
Definition finishShutdown (exitCode : nat) (s : state) : state :=
  let s := match logStream s with
           | Some _ => emit StreamEnd (with_logStream (Some StreamEnded) s)
           | None => s
           end in
  let s := log INFO (js "LinkedIn Research Suite shutdown complete") MAIN s in
  with_exited (Some exitCode) (emit (Exit exitCode) s).

(** The promise continuations that run at the end of a turn: [Promise.all]
    is fulfilled once every promise of [shutdownPromises] is resolved. *)
Definition settle (s : state) : state :=
  match shutdownCode s, exited s with
  | Some exitCode, None =>
      if forallb r_resolved (races s) then finishShutdown exitCode s else s
  | _, _ => s
  end.

Definition resolve (h : nat) (s : state) : state :=
  with_races
    (map (fun r =>
            if decide (r_handle r = h)
            then {| r_handle := r_handle r; r_name := r_name r;
                    r_timer := r_timer r; r_resolved := true |}
            else r) (races s)) s.

(** ** Restart policy *)

Definition handleProcessFailure (processName : service) (s : state) : state :=
  let s := emit (ProcessFailure processName) s in
  let restartCount := get (restartCounts s) processName in
  if maxRestarts <=? restartCount then
    let s := log ERROR
               (name_text processName
                ++ js " exceeded maximum restart attempts ("
                ++ decimal (N.of_nat maxRestarts) ++ js ")")
               (UPPER processName) s in
    shutdown 1 s
  else
    let s := with_restartCounts
               (set (restartCounts s) processName (S restartCount)) s in
    let s := log INFO
               (js "Restarting " ++ name_text processName ++ js " in "
                ++ decimal restartDelay ++ js "ms (attempt "
                ++ decimal (N.of_nat (get (restartCounts s) processName))
                ++ js "/" ++ decimal (N.of_nat maxRestarts) ++ js ")")
               (UPPER processName) s in
    setTimeout (TRestart processName) restartDelay s.

(** ** Startup *)

Definition healthUrl (name : service) (port : N) : jsstring :=
  match name with
  | stagehand => js "http://localhost:" ++ decimal port ++ js "/health"
  | backend => js "http://localhost:" ++ decimal port ++ js "/api/health"
  | frontend => js "http://localhost:" ++ decimal port
  end.

(** [checkHealth] of [waitForHealthcheck]: [exec] is started, its callback
    is the event [EvHealth]. *)
Definition checkHealth (name : service) (port : N) (s : state) : state :=
  emit (Exec (js "curl -f " ++ healthUrl name port)) s.

(** [waitForHealthcheck] up to its first [await checkHealth()]. *)
Definition waitForHealthcheck (name : service) (port : N) (s : state) : state :=
  let s := log INFO (js "Waiting for " ++ name_text name
                     ++ js " to be healthy on port " ++ decimal port
                     ++ js "...") (UPPER name) s in
  with_pc (Probing name port 1) (checkHealth name port s).

(** [this.cleanupStagehandSessions()] up to [await fetch(...)]. *)
Definition cleanupStagehandSessions (s : state) : state :=
  with_pc AwaitFetch (emit (Fetch (js "http://localhost:8081/sessions/cleanup")) s).

(** What [start()] does once [waitForHealthcheck(name, ...)] has returned;
    the value returned is not looked at. *)
Definition start_after_wait (name : service) (s : state) : state :=
  match name with
  | stagehand => cleanupStagehandSessions s
  | backend =>
      waitForHealthcheck frontend
        (port (CONFIG (env s) (backendCommand s) frontend)) s
  | frontend =>
      let s := log INFO ([55357; 56960]%N
                         ++ js " LinkedIn Research Suite is running!") MAIN s in
      let s := log INFO ([55357; 56522]%N
                         ++ js " Dashboard: http://localhost:"
                         ++ decimal (port (CONFIG (env s) (backendCommand s) frontend)))
                 MAIN s in
      let s := log INFO ([55357; 56615]%N ++ js " API: http://localhost:"
                         ++ decimal (port (CONFIG (env s) (backendCommand s) backend))
                         ++ js "/api") MAIN s in
      let s := log INFO ([55358; 56598]%N
                         ++ js " Stagehand AI: http://localhost:"
                         ++ decimal (port (CONFIG (env s) (backendCommand s) stagehand)))
                 MAIN s in
      let s := log INFO (js "Press Ctrl+C to stop the services") MAIN s in
      with_pc Started s
  end.

(** The result of a finished [exec('curl -f ...')] reaches the loop of
    [waitForHealthcheck]. *)
Definition onHealth (ok : bool) (s : state) : state :=
  match pc s with
  | Probing name port attempt =>
      let s := emit (HealthObserved name ok) s in
      if ok then
        let s := log INFO (name_text name ++ js " is healthy!") (UPPER name) s in
        match name with
        | stagehand =>
            with_pc (SessionCleanupDelay port) (setTimeout TResume 1000 s)
        | _ => start_after_wait name s
        end
      else if attempt <? maxAttempts then
        with_pc (Sleeping name port attempt) (setTimeout TResume 2000 s)
      else
        let s := log WARNING
                   (name_text name ++ js " health check timed out after "
                    ++ decimal (N.of_nat (maxAttempts * 2)) ++ js " seconds")
                   (UPPER name) s in
        start_after_wait name s
  | _ => s
  end.

(** A [TResume] timer fires: [start()] goes on after its [await]. *)
Definition resume (s : state) : state :=
  match pc s with
  | Sleeping name port attempt =>
      with_pc (Probing name port (S attempt)) (checkHealth name port s)
  | SessionCleanupDelay port =>
      let s := emit (Exec (js "curl -X POST http://localhost:" ++ decimal port
                           ++ js "/sessions/cleanup")) s in
      let s := with_cleanupExecs (S (cleanupExecs s)) s in
      start_after_wait stagehand s
  | BackendDelay =>
      let s := startProcess frontend s in
      waitForHealthcheck backend
        (port (CONFIG (env s) (backendCommand s) backend)) s
  | _ => s
  end.

(** The callback of the [exec('curl -X POST ...')] above. *)
Definition onCleanupExec (ok : bool) (stderr : jsstring) (s : state) : state :=
  match cleanupExecs s with
  | S n =>
      let s := with_cleanupExecs n s in
      if ok then log INFO (js "Cleaned up old Stagehand sessions") (js "STAGEHAND") s
      else log WARNING (js "Session cleanup failed: " ++ stderr) (js "STAGEHAND") s
  | O => s
  end.

Inductive fetch_result :=
| FetchOk (message : option jsstring)  (* response.ok; [result.message] *)
| FetchStatus (status : N)             (* not response.ok *)
| FetchError (message : jsstring).     (* fetch or response.json() threw *)

(** [cleanupStagehandSessions] after its [await]s, then [start()] up to the
    3000 ms pause. *)
Definition onFetch (r : fetch_result) (s : state) : state :=
  match pc s with
  | AwaitFetch =>
      let s :=
        match r with
        | FetchOk message =>
            let text := match message with
                        | Some (c :: m) => c :: m
                        | _ => js "completed"
                        end in
            log INFO (js "Stagehand session cleanup: " ++ text) (js "STAGEHAND") s
        | FetchStatus status =>
            log WARNING (js "Stagehand cleanup returned status " ++ decimal status)
              (js "STAGEHAND") s
        | FetchError message =>
            log WARNING (js "Stagehand session cleanup failed: " ++ message)
              (js "STAGEHAND") s
        end in
      let s := startProcess backend s in
      with_pc BackendDelay (setTimeout TResume 3000 s)
  | _ => s
  end.

(** The results of the [fs.existsSync] calls of [checkPrerequisites]. *)
Record fsview := {
  backendDir : bool;
  frontendDir : bool;
  mainPy : bool;
  packageJson : bool;
  venv : bool
}.

(** [checkPrerequisites]: the message of the error thrown, if any. *)
Definition checkPrerequisites (fs : fsview) (s : state)
  : option jsstring * state :=
  let s := log INFO (js "Checking prerequisites...") MAIN s in
  let backendCwd := cwd (CONFIG (env s) (backendCommand s) backend) in
  let frontendCwd := cwd (CONFIG (env s) (backendCommand s) frontend) in
  if negb (backendDir fs) then
    (Some (js "Backend directory not found: " ++ backendCwd), s)
  else if negb (frontendDir fs) then
    (Some (js "Frontend directory not found: " ++ frontendCwd), s)
  else if negb (mainPy fs) then
    (Some (js "Backend main.py not found: "
           ++ path_join backendCwd [js "src"; js "main.py"]), s)
  else if negb (packageJson fs) then
    (Some (js "Frontend package.json not found: "
           ++ path_join frontendCwd [js "package.json"]), s)
  else
    let s := if venv fs then
               let venvPath := path_join backendCwd [js "venv"] in
               let s := with_backendCommand
                          (path_join venvPath [js "bin"; js "python"]) s in
               log INFO (js "Using virtual environment for Python backend") MAIN s
             else s in
    (None, log INFO (js "Prerequisites check passed") MAIN s).

(** [start()] up to its first suspension. *)
Definition start (fs : fsview) (s : state) : state :=
  match checkPrerequisites fs s with
  | (None, s) =>
      let s := log INFO (js "Starting services...") MAIN s in
      let s := startProcess stagehand s in
      waitForHealthcheck stagehand
        (port (CONFIG (env s) (backendCommand s) stagehand)) s
  | (Some message, s) =>
      let s := with_pc StartFailed s in
      let s := log ERROR (js "Failed to start: " ++ message) MAIN s in
      shutdown 1 s
  end.

(** The constructor: [setupLogging]; [setupSignalHandlers] installs the
    cases [EvSignal], [EvUncaughtException] and [EvUnhandledRejection] of
    [handle_event]. *)
Definition setupLogging (s : state) : state :=
  let s := with_logStream (Some StreamOpen) s in
  let s := log INFO (js "LinkedIn Research Suite - Unified Server Starting") MAIN s in
  let s := log INFO (js "Node Environment: " ++ node_env_or_development (env s))
             MAIN s in
  log INFO (js "Process ID: " ++ decimal (pid (env s))) MAIN s.

Definition blank (e : environment) : state :=
    {| env := e;
       processes := PerService None None None;
       logStream := None;
       isShuttingDown := false;
       restartCounts := PerService 0 0 0;
       backendCommand := js "python";
       handles := [];
       timers := [];
       nextTimer := 0;
       pc := NotStarted;
       cleanupExecs := 0;
       races := [];
       shutdownCode := None;
       exited := None;
       dateReads := 0;
       trace := [] |}.

Definition new_UnifiedServer (e : environment) : state :=
  setupLogging (blank e).

(** [main()]: the first turn of the event loop. *)
Definition main (e : environment) (fs : fsview) : state :=
  settle (start fs (new_UnifiedServer e)).

(** ** The event loop *)

Inductive event :=
| EvHealth (ok : bool)                          (* exec('curl -f ...') returned *)
| EvCleanupExec (ok : bool) (stderr : jsstring) (* exec('curl -X POST ...') returned *)
| EvFetch (r : fetch_result)
| EvTimer (id : nat)
| EvData (h : nat) (data : jsstring)            (* stdout or stderr 'data' *)
| EvSpawned (h : nat) (child_pid : N)           (* 'spawn' *)
| EvError (h : nat) (message : jsstring) (gone : bool)  (* 'error' *)
| EvExit (h : nat) (code : option N) (sig : option jsstring)  (* 'exit' *)
| EvSignal (sig : signal)
| EvUncaughtException (message stack : jsstring)
| EvUnhandledRejection (promise reason : jsstring).

Definition mark_gone (h : nat) (s : state) : state :=
  with_handles
    (alter (fun hd => {| h_name := h_name hd; h_alive := false;
                         h_killed := h_killed hd |}) h (handles s)) s.

Definition or_null (o : option jsstring) : jsstring := default (js "null") o.

(** The 'exit' listener that [shutdown] adds to a process. *)
Definition raceExit (r : race) (s : state) : state :=
  let s := clearTimeout (r_timer r) s in
  let s := log INFO (name_text (r_name r) ++ js " process stopped")
             (UPPER (r_name r)) s in
  resolve (r_handle r) s.

(** The 'exit' event of a running child: first the listener of
    [spawnProcess], then the listeners [shutdown] had added before the event
    (a listener added while the event is emitted is not called). *)
Definition onExit (h : nat) (code : option N) (sig : option jsstring)
    (s : state) : state :=
  match handles s !! h with
  | Some hd =>
      if h_alive hd then
        let name := h_name hd in
        let listeners := filter (fun r => r_handle r = h) (races s) in
        let s := emit (ExitObserved h) (mark_gone h s) in
        let s :=
          if negb (isShuttingDown s) then
            let s := log ERROR
                       (name_text name ++ js " process exited unexpectedly (code: "
                        ++ or_null (decimal <$> code) ++ js ", signal: "
                        ++ or_null sig ++ js ")") (UPPER name) s in
            handleProcessFailure name s
          else
            log INFO (name_text name ++ js " process exited gracefully")
              (UPPER name) s in
        foldl (fun s r => raceExit r s) s listeners
      else s
  | None => s
  end.

(** The 'error' event of a child; [gone] tells that the process does not run
    (it could not be spawned). *)
Definition onError (h : nat) (message : jsstring) (gone : bool) (s : state)
  : state :=
  match handles s !! h with
  | Some hd =>
      let name := h_name hd in
      let s := if gone then mark_gone h s else s in
      let s := log ERROR (name_text name ++ js " process error: " ++ message)
                 (UPPER name) s in
      handleProcessFailure name s
  | None => s
  end.

Definition onData (h : nat) (data : jsstring) (s : state) : state :=
  match handles s !! h with
  | Some hd =>
      let message := trim data in
      match message with
      | [] => s
      | _ :: _ => logProcessOutput message (UPPER (h_name hd)) s
      end
  | None => s
  end.

Definition onSpawned (h : nat) (child_pid : N) (s : state) : state :=
  match handles s !! h with
  | Some hd =>
      log INFO (name_text (h_name hd) ++ js " process spawned (PID: "
                ++ decimal child_pid ++ js ")") (UPPER (h_name hd)) s
  | None => s
  end.

Definition onTimer (id : nat) (s : state) : state :=
  match find_timer id (timers s) with
  | Some k =>
      let s := with_timers (drop_timer id (timers s)) s in
      match k with
      | TRestart name =>
          if negb (isShuttingDown s) then startProcess name s else s
      | TForceKill name h =>
          let s := log WARNING (js "Force killing " ++ name_text name
                                ++ js " process...") (UPPER name) s in
          let s := kill h SIGKILL s in
          resolve h s
      | TResume => resume s
      end
  | None => s
  end.

(** The handlers of [setupSignalHandlers]; SIGKILL cannot be caught. *)
Definition onSignal (sig : signal) (s : state) : state :=
  match sig with
  | SIGKILL => s
  | _ =>
      let s := emit (SignalReceived sig) s in
      let s := log INFO (js "Received " ++ signal_text sig
                         ++ js ", starting graceful shutdown...") MAIN s in
      shutdown 0 s
  end.

Definition handle_event (ev : event) (s : state) : state :=
  match ev with
  | EvHealth ok => onHealth ok s
  | EvCleanupExec ok stderr => onCleanupExec ok stderr s
  | EvFetch r => onFetch r s
  | EvTimer id => onTimer id s
  | EvData h data => onData h data s
  | EvSpawned h child_pid => onSpawned h child_pid s
  | EvError h message gone => onError h message gone s
  | EvExit h code sig => onExit h code sig s
  | EvSignal sig => onSignal sig s
  | EvUncaughtException message stack =>
      let s := log ERROR (js "Uncaught Exception: " ++ message) MAIN s in
      let s := log ERROR stack MAIN s in
      shutdown 1 s
  | EvUnhandledRejection promise reason =>
      let s := log ERROR (js "Unhandled Rejection at: " ++ promise
                          ++ js ", reason: " ++ reason) MAIN s in
      shutdown 1 s
  end.

(** One turn of the event loop.  Nothing runs after [process.exit]. *)
Definition step (ev : event) (s : state) : state :=
  match exited s with
  | Some _ => s
  | None => settle (handle_event ev s)
  end.

Definition run (evs : list event) (s : state) : state :=
  foldl (fun s ev => step ev s) s evs.

(** ** Runs and what a turn adds to the history *)

Definition reachable (s : state) : Prop :=
  ∃ e fs evs, s = run evs (main e fs).

(** The actions of [s'] that [s] does not have yet, newest first. *)
Definition added (s s' : state) : list action :=
  take (length (trace s') - length (trace s)) (trace s').

(** ** Footprints

    Which fields a piece of the supervisor may change, and which actions it
    may add to the history. *)

Inductive field :=
| Fprocesses | FlogStream | FisShuttingDown | FrestartCounts
| FbackendCommand | Fhandles | Ftimers | FnextTimer | Fpc | FcleanupExecs
| Fraces | FshutdownCode | Fexited.

Global Instance field_eq_dec : EqDecision field.
Proof. solve_decision. Defined.

Definition unchanged (f : field) (s s' : state) : Prop :=
  match f with
  | Fprocesses => processes s' = processes s
  | FlogStream => logStream s' = logStream s
  | FisShuttingDown => isShuttingDown s' = isShuttingDown s
  | FrestartCounts => restartCounts s' = restartCounts s
  | FbackendCommand => backendCommand s' = backendCommand s
  | Fhandles => handles s' = handles s
  | Ftimers => timers s' = timers s
  | FnextTimer => nextTimer s' = nextTimer s
  | Fpc => pc s' = pc s
  | FcleanupExecs => cleanupExecs s' = cleanupExecs s
  | Fraces => races s' = races s
  | FshutdownCode => shutdownCode s' = shutdownCode s
  | Fexited => exited s' = exited s
  end.

Definition touches (T : list field) (f : field) : bool :=
  existsb (fun g => bool_decide (g = f)) T.

(** What only ever moves one way: a process object keeps its index and its
    service, a process that has stopped does not run again, [killed] is not
    taken back; restart counters and timer identifiers do not decrease; the
    shutdown flag is not cleared. *)
Definition handles_evolve (l l' : list handle) : Prop :=
  length l ≤ length l'
  ∧ ∀ i hd, l !! i = Some hd →
      ∃ hd', l' !! i = Some hd'
             ∧ h_name hd' = h_name hd
             ∧ (h_alive hd' = true → h_alive hd = true)
             ∧ (h_killed hd = true → h_killed hd' = true).

Definition evolve (s s' : state) : Prop :=
  handles_evolve (handles s) (handles s')
  ∧ (∀ name, get (restartCounts s) name ≤ get (restartCounts s') name)
  ∧ nextTimer s ≤ nextTimer s'
  ∧ (isShuttingDown s = true → isShuttingDown s' = true).

(** The services of the [Spawn] actions of a stretch of history. *)
Definition spawn_names (tr : list action) : list service :=
  omap (fun a => match a with Spawn _ name _ => Some name | _ => None end) tr.

(** [s'] comes after [s]: outside the fields [T] nothing has changed, the
    history has grown by actions of the class [A], every new process object
    has its [Spawn] action and every new pending timer its [SetTimeout]. *)
Definition foot (T : list field) (A : environment -> action -> Prop)
    (s s' : state) : Prop :=
  env s' = env s
  ∧ (∀ f, touches T f = false → unchanged f s s')
  ∧ (∃ new, trace s' = new ++ trace s
            ∧ Forall (A (env s)) new
            ∧ h_name <$> handles s'
              = (h_name <$> handles s) ++ rev (spawn_names new)
            ∧ ∀ id k, In (id, k) (timers s') →
                In (id, k) (timers s) ∨ ∃ d, In (SetTimeout id d k) new)
  ∧ evolve s s'.

Definition failure_fields : list field :=
  [Fhandles; FrestartCounts; FisShuttingDown; FshutdownCode; Ftimers;
   FnextTimer; Fraces].

Definition shutdown_fields : list field :=
  [FisShuttingDown; FshutdownCode; Ftimers; FnextTimer; Fraces; Fhandles].

(** *** The lines of the log file *)

(** The levels and the service tags the supervisor writes. *)
Definition is_level (level : jsstring) : Prop :=
  level = INFO ∨ level = WARNING ∨ level = ERROR.

Definition is_service_tag (service : jsstring) : Prop :=
  service = MAIN ∨ ∃ name, service = UPPER name.

(** A chunk the supervisor stamps itself: the timestamp is a reading of its
    clock, the level and the service tag are of the above, and the message
    is what was logged, whatever it holds. *)
Definition supervisor_line (e : environment) (chunk : jsstring) : Prop :=
  ∃ k level service message,
    is_level level ∧ is_service_tag service
    ∧ chunk = js "[" ++ toISOString e k ++ js "] [" ++ level ++ js "] ["
              ++ service ++ js "] " ++ message ++ nl.

(** A chunk of a child's output that starts with a timestamp of its own:
    the level is the one detected in it, the tag the service of the child. *)
Definition child_line (chunk : jsstring) : Prop :=
  ∃ name message,
    hasTimestamp message = true ∧ is_level (detectedLevel message)
    ∧ chunk = js "[" ++ detectedLevel message ++ js "] [" ++ UPPER name
              ++ js "] " ++ message ++ nl.

(** *** Classes of actions *)

Definition a_log (e : environment) (a : action) : Prop :=
  match a with
  | Console _ => True
  | FileWrite chunk => supervisor_line e chunk
  | _ => False
  end.

Definition a_child (e : environment) (a : action) : Prop :=
  match a with
  | Console _ => True
  | FileWrite chunk => supervisor_line e chunk ∨ child_line chunk
  | _ => False
  end.

Definition a_timeout (delay : N) (k : timer_kind) (e : environment)
    (a : action) : Prop :=
  match a with
  | SetTimeout _ d k' => d = delay ∧ k' = k
  | _ => False
  end.

(** What does not matter for the order of startup, for restarts or for
    shutdown: log lines, commands started, timers set and cleared. *)
Definition a_kill (sig : signal) (e : environment) (a : action) : Prop :=
  match a with
  | Kill _ sg => sg = sig
  | _ => a_log e a
  end.

Definition a_start (name : service) (e : environment) (a : action) : Prop :=
  match a with
  | Spawn _ n _ => n = name
  | _ => a_kill SIGTERM e a
  end.

Definition a_stop (e : environment) (a : action) : Prop :=
  match a with
  | SetTimeout _ delay (TForceKill _ _) => delay = 10000%N
  | _ => a_kill SIGTERM e a
  end.

Definition a_shutdown (exitCode : nat) (e : environment) (a : action) : Prop :=
  match a with
  | ShutdownCalled c => c = exitCode
  | _ => a_stop e a
  end.

Definition a_finish (e : environment) (a : action) : Prop :=
  match a with
  | StreamEnd => True
  | Exit _ => True
  | _ => a_log e a
  end.

Definition a_failure (name : service) (e : environment) (a : action) : Prop :=
  match a with
  | ProcessFailure n => n = name
  | SetTimeout _ delay (TRestart n) => delay = restartDelay ∧ n = name
  | _ => a_shutdown 1 e a
  end.

(** The kind of an action, whatever it carries. *)
Inductive kind :=
| KLog | KSpawn | KKill | KSetTimeout | KForceKill | KClearTimeout | KExec
| KFetch | KStreamEnd | KExit | KHealth | KFailure | KShutdownCalled
| KExitObserved | KSignal.

Global Instance kind_eq_dec : EqDecision kind.
Proof. solve_decision. Defined.

Definition kind_of (a : action) : kind :=
  match a with
  | FileWrite _ => KLog
  | Console _ => KLog
  | Spawn _ _ _ => KSpawn
  | Kill _ _ => KKill
  | SetTimeout _ _ (TForceKill _ _) => KForceKill
  | SetTimeout _ _ _ => KSetTimeout
  | ClearTimeout _ => KClearTimeout
  | Exec _ => KExec
  | Fetch _ => KFetch
  | StreamEnd => KStreamEnd
  | Exit _ => KExit
  | HealthObserved _ _ => KHealth
  | ProcessFailure _ => KFailure
  | ShutdownCalled _ => KShutdownCalled
  | ExitObserved _ => KExitObserved
  | SignalReceived _ => KSignal
  end.

Definition has_kind (ks : list kind) (a : action) : bool :=
  existsb (fun k => bool_decide (k = kind_of a)) ks.

(** Actions of the kinds [ks]; what is written to the file is a line of one
    of the two forms. *)
Definition a_kinds (ks : list kind) (e : environment) (a : action) : Prop :=
  has_kind ks a = true
  ∧ match a with
    | FileWrite chunk => supervisor_line e chunk ∨ child_line chunk
    | _ => True
    end.

Definition failure_kinds : list kind :=
  [KLog; KExitObserved; KFailure; KShutdownCalled; KSetTimeout; KForceKill;
   KKill; KClearTimeout].

Definition event_fields : list field :=
  [Fprocesses; FisShuttingDown; FrestartCounts; Fhandles; Ftimers; FnextTimer;
   Fpc; FcleanupExecs; Fraces; FshutdownCode].

Definition event_kinds : list kind :=
  [KLog; KSpawn; KKill; KSetTimeout; KForceKill; KClearTimeout; KExec; KFetch;
   KHealth; KFailure; KShutdownCalled; KExitObserved; KSignal].

Definition all_fields : list field :=
  [FlogStream; Fexited; FbackendCommand] ++ event_fields.

Definition all_kinds : list kind := [KStreamEnd; KExit] ++ event_kinds.

(** ** The statements about the log

    The format of the interface description, [[timestamp] [LEVEL] [SERVICE]
    message], with nothing asked of its four parts. *)
Definition log_line_format (chunk : jsstring) : Prop :=
  ∃ timestamp level service message,
    chunk = js "[" ++ timestamp ++ js "] [" ++ level ++ js "] [" ++ service
            ++ js "] " ++ message ++ nl.

Definition file_writes (tr : list action) : list jsstring :=
  omap (fun a => match a with FileWrite chunk => Some chunk | _ => None end) tr.

(** The severity given to a line of a child: that of its first severity
    token, DEBUG shown as INFO and CRITICAL as ERROR; INFO without a token. *)
Definition severity (message : jsstring) : jsstring :=
  match logLevelMatch message with
  | Some tok =>
      if decide (tok = js "DEBUG") then js "INFO"
      else if decide (tok = js "CRITICAL") then js "ERROR"
      else tok
  | None => js "INFO"
  end.

Definition has_severity_token (message : jsstring) : bool :=
  match logLevelMatch message with
  | Some _ => true
  | None => false
  end.

(** A line tagged with severity and service that keeps the child's own
    timestamp, and a line wrapped with the supervisor's timestamp. *)
Definition tagged_line (level service message : jsstring) : jsstring :=
  js "[" ++ level ++ js "] [" ++ service ++ js "] " ++ message ++ nl.

Definition wrapped_line (timestamp level service message : jsstring)
  : jsstring :=
  js "[" ++ timestamp ++ js "] [" ++ level ++ js "] [" ++ service ++ js "] "
  ++ message ++ nl.

(** The line for a child's output as the description of the output
    multiplexing has it: tagged when the line carries a timestamp and a
    severity token, wrapped otherwise. *)
Definition described_child_line (timestamp message service : jsstring)
  : jsstring :=
  if hasTimestamp message && has_severity_token message
  then tagged_line (severity message) service message
  else wrapped_line timestamp (severity message) service message.

(** The line as the code decides it: by the timestamp alone. *)
Definition child_output_line (timestamp message service : jsstring)
  : jsstring :=
  if hasTimestamp message
  then tagged_line (severity message) service message
  else wrapped_line timestamp (severity message) service message.

(** ** Sample inputs *)

Definition env0 : environment :=
  {| dirname := js "/opt/suite"; NODE_ENV := None; pid := 4242;
     toISOString := fun _ => js "2025-08-28T16:16:32.185Z" |}.

Definition fs_ok : fsview :=
  {| backendDir := true; frontendDir := true; mainPy := true;
     packageJson := true; venv := false |}.

(** A line of the Python backend, and a line with a timestamp but no
    severity token. *)
Definition backend_line : jsstring :=
  js "2025-08-28 16:16:32,185 - src.services.emailondeck - INFO - Available domains: 5".

Definition plain_stamped_line : jsstring :=
  js "2025-08-28 16:16:32 server listening".

(** ** Counting in the history *)

Fixpoint countb (p : action -> bool) (tr : list action) : nat :=
  match tr with
  | [] => 0
  | a :: older => (if p a then 1 else 0) + countb p older
  end.

Definition is_failure (name : service) (a : action) : bool :=
  match a with
  | ProcessFailure n => bool_decide (n = name)
  | _ => false
  end.

(** The kinds [ks] do not include [k]. *)
Definition lacks (ks : list kind) (k : kind) : bool :=
  negb (existsb (fun k' => bool_decide (k' = k)) ks).

(** The restart counter of a service is the number of its failures handled
    so far, capped at the maximum. *)
Definition counts_failures (s : state) : Prop :=
  ∀ name,
    get (restartCounts s) name
    = min maxRestarts (countb (is_failure name) (trace s)).

(** Fields and kinds of what has nothing to do with restart counting. *)
Definition uncounted_fields : list field :=
  [Fprocesses; FlogStream; Fexited; FbackendCommand; FisShuttingDown;
   Fhandles; Ftimers; FnextTimer; Fpc; FcleanupExecs; Fraces; FshutdownCode].

Definition uncounted_kinds : list kind :=
  [KLog; KSpawn; KKill; KSetTimeout; KForceKill; KClearTimeout; KExec; KFetch;
   KHealth; KShutdownCalled; KExitObserved; KSignal; KStreamEnd; KExit].

(** ** Shutdown in the history *)

(** The exit codes [shutdown] was called with, and those [process.exit] was
    called with, newest first. *)
Definition shutdown_calls (tr : list action) : list nat :=
  omap (fun a => match a with ShutdownCalled c => Some c | _ => None end) tr.

Definition exit_codes (tr : list action) : list nat :=
  omap (fun a => match a with Exit c => Some c | _ => None end) tr.

(** The exit code of the first call of [shutdown]. *)
Definition first_shutdown (tr : list action) : option nat :=
  last (shutdown_calls tr).

(** How the shutdown flag, the exit code kept by the running [shutdown], the
    promises and the log stream hang together. *)
Record shutdown_inv (s : state) : Prop := {
  si_code : shutdownCode s = first_shutdown (trace s);
  si_flag : isShuttingDown s = match shutdownCode s with
                               | Some _ => true
                               | None => false
                               end;
  si_exits : exit_codes (trace s) = match exited s with
                                    | Some c => [c]
                                    | None => []
                                    end;
  si_exited : ∀ c, exited s = Some c → shutdownCode s = Some c;
  si_races : isShuttingDown s = false → races s = [];
  si_stream : exited s = None → logStream s = Some StreamOpen
}.

(** Fields and kinds of what has nothing to do with shutdown. *)
Definition steady_fields : list field :=
  [Fprocesses; FbackendCommand; FrestartCounts; Fhandles; Ftimers; FnextTimer;
   Fpc; FcleanupExecs].

Definition steady_kinds : list kind :=
  [KLog; KSpawn; KKill; KSetTimeout; KClearTimeout; KExec; KFetch; KHealth;
   KFailure; KExitObserved; KSignal].

(** A run in which SIGINT arrives while the stagehand is being polled, a
    second signal follows, and the stagehand then exits. *)
Definition signal_twice : list event :=
  [EvSignal SIGINT; EvSignal SIGTERM; EvExit 0 None (Some (js "SIGTERM"))].

(** After a turn no fulfilled [Promise.all] is left waiting. *)
Definition settled (s : state) : Prop :=
  match shutdownCode s, exited s with
  | Some _, None => forallb r_resolved (races s) = false
  | _, _ => True
  end.

(** ** Session cleanup

    The session registry belongs to the stagehand.  The supervisor can ask
    for its bulk cleanup ([POST /sessions/cleanup], by [fetch] or by
    [curl]); and the stagehand cleans the registry up itself when it is told
    to terminate: its handlers of SIGTERM and SIGINT close every session and
    clear the registry. *)

(** A request for bulk cleanup made by the supervisor itself. *)
Definition is_cleanup_request (a : action) : bool :=
  match a with
  | Fetch _ => true
  | Exec cmd =>
      match strip_prefix (js "curl -X POST") cmd with
      | Some _ => true
      | None => false
      end
  | _ => false
  end.

Definition is_kill (a : action) : bool :=
  match a with
  | Kill _ _ => true
  | _ => false
  end.

(** In a stretch of history (newest first): every action satisfying [later]
    has, among the actions older than it, what [cond] asks for. *)
Fixpoint each_after (later : action -> bool) (cond : list action -> bool)
    (tr : list action) : bool :=
  match tr with
  | [] => true
  | a :: older =>
      (if later a then cond older else true) && each_after later cond older
  end.

(** SIGTERM sent to a process of the stagehand. *)
Definition is_stagehand_term (s : state) (a : action) : bool :=
  match a with
  | Kill h SIGTERM =>
      match handles s !! h with
      | Some hd => bool_decide (h_name hd = stagehand)
      | None => false
      end
  | _ => false
  end.

(** What makes the owning service clean the registry up. *)
Definition triggers_cleanup (s : state) (a : action) : bool :=
  is_cleanup_request a || is_stagehand_term s a.

(** The statement about signals: in the turn that handles the signal the
    cleanup of the registry is triggered, and it is before the children are
    shut down: of the actions of the turn that signal a child or trigger
    the cleanup, the oldest triggers the cleanup. *)
Definition cleanup_first (s : state) (new : list action) : bool :=
  match last (List.filter (fun a => is_kill a || triggers_cleanup s a) new) with
  | Some a => triggers_cleanup s a
  | None => false
  end.

(** The supervisor is up: the stagehand answered its first health check, the
    backend and the frontend theirs. *)
Definition startup_events : list event :=
  [EvHealth true; EvTimer 0; EvFetch (FetchOk None); EvTimer 1;
   EvHealth true; EvHealth true].

(** SIGINT arrives during the three seconds between the start of the backend
    and that of the frontend; the pause ends before the children have
    exited. *)
Definition signal_during_startup : list event :=
  [EvHealth true; EvTimer 0; EvFetch (FetchOk None); EvSignal SIGINT].

(** The stagehand fails all of its first [n] health checks. *)
Definition failed_checks (n : nat) : list event :=
  flat_map (fun k => [EvHealth false; EvTimer k]) (seq 0 n).

(** The state without its history: what the log says and how often the clock
    was read. *)
Definition core (s : state) : state := with_trace [] (with_dateReads 0 s).

Definition early_exit : event := EvExit 0 (Some 1%N) None.

(** The stagehand exits three times and is restarted three times. *)
Definition three_failures : list event :=
  [EvExit 0 (Some 1%N) None; EvTimer 0;
   EvExit 1 (Some 1%N) None; EvTimer 1;
   EvExit 2 (Some 1%N) None; EvTimer 2].

(** ** Processes, the process table and the promises of shutdown *)

Definition running (s : state) (h : nat) : Prop :=
  ∃ hd, handles s !! h = Some hd ∧ h_alive hd = true.

(** An entry of [this.processes] is a process object of that service; until
    shutdown begins none of them has [killed] set, and no force-kill timer is
    pending. *)
Record tracked_inv (s : state) : Prop := {
  ti_named : ∀ name h, get (processes s) name = Some h →
             ∃ hd, handles s !! h = Some hd ∧ h_name hd = name;
  ti_fresh : isShuttingDown s = false →
             ∀ name h hd, get (processes s) name = Some h →
                          handles s !! h = Some hd → h_killed hd = false;
  ti_timers : isShuttingDown s = false →
              ∀ id name h, ¬ In (id, TForceKill name h) (timers s)
}.

Definition stopped (s : state) (h : nat) : Prop :=
  ∃ hd, handles s !! h = Some hd ∧ h_alive hd = false.

(** The promise [shutdown] pushes for the process [h] of [name], with the
    timer [id] of its [setTimeout]. *)
Definition race_of (name : service) (h id : nat) : race :=
  {| r_handle := h; r_name := name; r_timer := id; r_resolved := false |}.

Definition race_pending (s : state) (name : service) (h id : nat) : Prop :=
  find_timer id (timers s) = Some (TForceKill name h)
  ∧ In (race_of name h id) (races s).

(** The action [a] has been added to the history [tr0]. *)
Definition since (tr0 : list action) (a : action) (s : state) : Prop :=
  ∃ new, trace s = new ++ tr0 ∧ In a new.

(** Every promise of [shutdownPromises] is about a process object; a
    resolved one is about a process whose end has been observed or that has
    been sent SIGKILL; and every force-kill timer ever set has its promise. *)
Record races_inv (s : state) : Prop := {
  ri_handle : ∀ r, In r (races s) → r_handle r < length (handles s);
  ri_resolved : ∀ r, In r (races s) → r_resolved r = true →
                stopped s (r_handle r) ∨ In (Kill (r_handle r) SIGKILL) (trace s);
  ri_timer : ∀ id d name h,
             In (SetTimeout id d (TForceKill name h)) (trace s) →
             ∃ r, In r (races s) ∧ r_handle r = h
}.

(** At [process.exit] every promise is resolved, and the last things done
    were to end the log stream and to print the closing line. *)
Definition exit_inv (s : state) : Prop :=
  ∀ c, exited s = Some c →
    (∀ r, In r (races s) → r_resolved r = true)
    ∧ ∃ line rest, trace s = Exit c :: Console line :: StreamEnd :: rest.

(** The exit status by which an event asks for shutdown. *)
Definition requested_code (ev : event) : nat :=
  match ev with
  | EvSignal _ => 0
  | _ => 1
  end.

(** Fields and kinds of what leaves processes, process table and force-kill
    timers alone. *)
Definition untracked_fields : list field :=
  [FlogStream; Fexited; FbackendCommand; FisShuttingDown; FrestartCounts;
   Ftimers; FnextTimer; Fpc; FcleanupExecs; Fraces; FshutdownCode].

Definition untracked_kinds : list kind :=
  [KLog; KSetTimeout; KClearTimeout; KExec; KFetch; KStreamEnd; KExit; KHealth;
   KFailure; KShutdownCalled; KExitObserved; KSignal].

Definition raceless_fields : list field :=
  [Fprocesses; FlogStream; Fexited; FbackendCommand; FisShuttingDown;
   FrestartCounts; Fhandles; Ftimers; FnextTimer; Fpc; FcleanupExecs;
   FshutdownCode].

Definition raceless_kinds : list kind :=
  [KLog; KSpawn; KKill; KSetTimeout; KClearTimeout; KExec; KFetch; KStreamEnd;
   KExit; KHealth; KFailure; KShutdownCalled; KExitObserved; KSignal].

(** After SIGINT has arrived while the stagehand is being polled: the
    stagehand does not react, and the timer of its promise fires. *)
Definition signal_then_timeout_rest : list event := [EvTimer 0].

(** ** The order of startup *)

(** The dependencies as the interface description declares them: the backend
    depends on the stagehand, the frontend on the backend. *)
Definition predecessor (name : service) : option service :=
  match name with
  | stagehand => None
  | backend => Some stagehand
  | frontend => Some backend
  end.

Definition is_spawn (name : service) (a : action) : bool :=
  match a with
  | Spawn _ n _ => bool_decide (n = name)
  | _ => false
  end.

Definition is_health (name : service) (ok : bool) (a : action) : bool :=
  match a with
  | HealthObserved n b => bool_decide (n = name) && bool_decide (b = ok)
  | _ => false
  end.

Definition is_health_of (name : service) (a : action) : bool :=
  is_health name true a || is_health name false a.

Definition is_restart_timer (name : service) (a : action) : bool :=
  match a with
  | SetTimeout _ _ (TRestart n) => bool_decide (n = name)
  | _ => false
  end.

(** The statement about dependencies: whenever a service with a predecessor
    is spawned, a health check of the predecessor has succeeded before. *)
Definition health_gated (tr : list action) : bool :=
  forallb (fun name =>
             match predecessor name with
             | Some p =>
                 each_after (is_spawn name) (existsb (is_health p true)) tr
             | None => true
             end)
    service_names.

Definition has_spawn (name : service) (tr : list action) : bool :=
  existsb (is_spawn name) tr.

Definition failed (name : service) (tr : list action) : nat :=
  countb (is_health name false) tr.

(** [waitForHealthcheck(name, ...)] has returned: one health check has
    succeeded, or [maxAttempts] of them have failed. *)
Definition wait_over (name : service) (tr : list action) : bool :=
  existsb (is_health name true) tr || (maxAttempts <=? failed name tr).

(** The timer of the pause [start()] makes after it has started the
    backend. *)
Definition is_pause (a : action) : bool :=
  match a with
  | SetTimeout _ delay TResume => (delay =? 3000)%N
  | _ => false
  end.

(** The backend has been spawned and, after that, the timer of the pause of
    3000 ms has been set. *)
Fixpoint paused_after_backend (tr : list action) : bool :=
  match tr with
  | [] => false
  | a :: older =>
      (is_pause a && has_spawn backend older) || paused_after_backend older
  end.

(** What [start()] has gone through before it starts a service. *)
Definition gate (name : service) (tr : list action) : bool :=
  match name with
  | stagehand => true
  | backend => wait_over stagehand tr
  | frontend => paused_after_backend tr
  end.

(** What [start()] has gone through before it polls a service. *)
Definition poll_gate (name : service) (tr : list action) : bool :=
  match name with
  | stagehand => true
  | backend => has_spawn frontend tr
  | frontend => wait_over backend tr
  end.

(** The order the code keeps: the backend is spawned after the wait for the
    stagehand has ended, with or without success; the frontend after the
    backend has been spawned and the timer of the pause of 3000 ms has then
    been set; the backend is polled once the frontend has been spawned, the
    frontend once the wait for the backend has ended; and a restart is
    scheduled for a service that has been spawned. *)
Definition startup_order (tr : list action) : bool :=
  forallb (fun name =>
             each_after (is_spawn name) (gate name) tr
             && each_after (is_health_of name) (poll_gate name) tr
             && each_after (is_restart_timer name) (has_spawn name) tr)
    service_names.

(** Actions that have no part in this order. *)
Definition neutral (a : action) : bool :=
  match a with
  | Spawn _ _ _ => false
  | HealthObserved _ _ => false
  | SetTimeout _ _ (TRestart _) => false
  | _ => true
  end.

(** Where [start()] is suspended, and what it has gone through by then. *)
Definition pc_inv (p : start_pc) (tr : list action) : Prop :=
  match p with
  | Probing name _ attempt =>
      attempt ≤ S (failed name tr) ∧ poll_gate name tr = true
  | Sleeping name _ attempt =>
      attempt ≤ failed name tr ∧ poll_gate name tr = true
  | SessionCleanupDelay _ => existsb (is_health stagehand true) tr = true
  | AwaitFetch => wait_over stagehand tr = true
  | BackendDelay => paused_after_backend tr = true
  | _ => True
  end.

Definition startup_inv (s : state) : Prop :=
  pc_inv (pc s) (trace s) ∧ startup_order (trace s) = true.

Definition orderly_fields : list field :=
  [Fprocesses; FlogStream; Fexited; FbackendCommand; FisShuttingDown;
   FrestartCounts; Fhandles; Ftimers; FnextTimer; FcleanupExecs; Fraces;
   FshutdownCode].

Definition orderly_kinds : list kind :=
  [KLog; KKill; KForceKill; KClearTimeout; KExec; KFetch; KStreamEnd; KExit;
   KFailure; KShutdownCalled; KExitObserved; KSignal].

(** The frontend has just been spawned: the stagehand answered its first
    health check, and the three seconds after the start of the backend are
    over. *)
Definition frontend_started : list event :=
  [EvHealth true; EvTimer 0; EvFetch (FetchOk None); EvTimer 1].

(** ** Further properties of the supervisor *)

(** The four paths [checkPrerequisites] insists on. *)
Definition prerequisites_met (fs : fsview) : bool :=
  backendDir fs && frontendDir fs && mainPy fs && packageJson fs.

Definition fs_no_frontend : fsview :=
  {| backendDir := true; frontendDir := false; mainPy := true;
     packageJson := true; venv := true |}.

(** The stagehand has answered, and the fetch of the session cleanup is
    under way. *)
Definition cleanup_under_way : list event := [EvHealth true; EvTimer 0].

(** The stagehand exits, and SIGINT arrives before it is restarted. *)
Definition signal_before_restart : list event :=
  [EvExit 0 (Some 1%N) None; EvSignal SIGINT].

(** SIGINT has arrived while the stagehand is being polled: shutdown is in
    progress and waits for the stagehand. *)
Definition shutting_down : list event := [EvSignal SIGINT].

Definition graceful_exit : event := EvExit 0 None (Some (js "SIGTERM")).

(** SIGINT arrives during the pause after the start of the backend, the
    pause ends, and then the stagehand and the backend exit. *)
Definition late_spawn_run : list event :=
  signal_during_startup
  ++ [EvTimer 1; EvExit 0 None (Some (js "SIGTERM"));
      EvExit 1 None (Some (js "SIGTERM"))].

Definition is_kill_of (h : nat) (a : action) : bool :=
  match a with
  | Kill h' _ => bool_decide (h' = h)
  | _ => false
  end.

(** Two lines of a child that arrive as one chunk. *)
Definition two_lines : jsstring :=
  js "2025-08-28 16:16:32,185 - app - INFO - one" ++ nl
  ++ js "2025-08-28 16:16:32,186 - app - INFO - two".

Definition line_feeds (chunk : jsstring) : nat :=
  count_occ N.eq_dec chunk 10%N.

(** ** The environment file

    [loadEnvFile] at the head of the script: the variables of [.env] that
    the environment does not have yet. *)

Local Open Scope N_scope.

(** [content.split(/\r?\n/)]: a line feed ends a segment, and a carriage
    return right before it belongs to the separator. *)
Fixpoint split_lines_from (cur : jsstring) (s : jsstring) : list jsstring :=
  match s with
  | [] => [rev cur]
  | c :: rest =>
      if c =? 10 then
        rev (match cur with
             | d :: cur' => if d =? 13 then cur' else cur
             | [] => cur
             end)
        :: split_lines_from [] rest
      else split_lines_from (c :: cur) rest
  end.

Definition split_lines (content : jsstring) : list jsstring :=
  split_lines_from [] content.

Definition is_ident_start (c : N) : bool :=
  ((65 <=? c) && (c <=? 90)) || ((97 <=? c) && (c <=? 122)) || (c =? 95).

(** What [.] of a regular expression does not match. *)
Definition is_line_terminator (c : N) : bool :=
  (c =? 10) || (c =? 13) || (c =? 8232) || (c =? 8233).

(** The longest prefix of characters of [\w], and what follows it. *)
Fixpoint word_prefix (s : jsstring) : jsstring * jsstring :=
  match s with
  | c :: rest =>
      if is_word c then
        let (w, after) := word_prefix rest in (c :: w, after)
      else ([], s)
  | [] => ([], [])
  end.

(** The match of a line against the pattern of [loadEnvFile]: at the start
    of the line an identifier (a letter or an underscore, then letters,
    digits and underscores), white space, an equals sign, white space, and
    the rest of the line up to its end; the two groups are the identifier
    and the rest.  The quantifiers are greedy and no shorter choice can make
    the rest match, so the key is the longest identifier and the value what
    follows the white space after the equals sign; the dot of the pattern
    stops at a line terminator, so a value that holds one does not match. *)
Definition parse_line (line : jsstring) : option (jsstring * jsstring) :=
  match line with
  | c :: rest =>
      if is_ident_start c then
        let (w, after) := word_prefix rest in
        match skip_spaces after with
        | eq :: after_eq =>
            if eq =? 61 then
              let value := skip_spaces after_eq in
              if forallb (fun c => negb (is_line_terminator c)) value
              then Some (c :: w, value)
              else None
            else None
        | [] => None
        end
      else None
  | [] => None
  end.

(** The value without its quotes, when it starts and ends with the same
    kind of quote: [value.slice(1, -1)]. *)
Definition unquote (value : jsstring) : jsstring :=
  let quoted (q : N) :=
    match head value, last value with
    | Some a, Some b => (a =? q) && (b =? q)
    | _, _ => false
    end in
  if quoted 34 || quoted 39 then removelast (tl value) else value.

(** [process.env], the variables of the process. *)
Abbreviation process_env := (gmap jsstring jsstring).

Section EnvFile.

(** The names that [key in process.env] finds on the prototype chain of
    [process.env] rather than among the variables.  Names are compared
    exactly, as on a POSIX system. *)
Variable inherited : jsstring -> bool.

Definition has_key (env : process_env) (key : jsstring) : bool :=
  inherited key || bool_decide (is_Some (env !! key)).

(** One iteration of the loop over the lines. *)
Definition load_line (env : process_env) (rawLine : jsstring) : process_env :=
  let line := trim rawLine in
  match line with
  | [] => env
  | c :: _ =>
      if c =? 35 then env
      else
        match parse_line line with
        | Some (key, value) =>
            if has_key env key then env else <[key := unquote value]> env
        | None => env
        end
  end.

(** [content] is what [readFileSync] returns; [None] when the file does
    not exist or cannot be read. *)
Definition loadEnvFile (content : option jsstring) (env : process_env)
  : process_env :=
  match content with
  | Some content => foldl load_line env (split_lines content)
  | None => env
  end.

(** A line has nothing to add to an environment: what it defines is there. *)
Definition nothing_to_add (env : process_env) (rawLine : jsstring) : Prop :=
  ∀ key value, parse_line (trim rawLine) = Some (key, value) →
               has_key env key = true.

End EnvFile.

(** A name made of the characters of an identifier. *)
Definition is_identifier (key : jsstring) : bool :=
  match key with
  | c :: rest => is_ident_start c && forallb is_word rest
  | [] => false
  end.

(** An environment file and an environment. *)
Definition dotenv : jsstring :=
  js "# keys" ++ nl ++ js "API_KEY = 'abc'" ++ [13; 10]
  ++ js "NODE_ENV=production" ++ nl ++ js "API_KEY=second" ++ nl
  ++ js "not a line".

Definition some_env : process_env :=
  {[ js "NODE_ENV" := js "development" ]}.

Definition no_inherited (key : jsstring) : bool := false.

Local Close Scope N_scope.

(** * Footprints of the supervisor's functions *)

Lemma detectedLevel_severity message : detectedLevel message = severity message.
Proof.
  unfold detectedLevel, severity.
  destruct (logLevelMatch message) as [tok|]; simpl; [|reflexivity].
  repeat case_decide; subst; first [reflexivity | discriminate | congruence].
Qed.

(** What [search_level] returns is one of the five tokens. *)
Lemma match_alternatives_In alts s tok :
  match_alternatives alts s = Some tok → In tok alts.
Proof.
  induction alts as [|t alts IH]; simpl; [done|].
  destruct (strip_prefix t s) as [rest|]; [|by right; auto].
  destruct (word_boundary (last t) (head rest)); [|by right; auto].
  intros [= ->]. by left.
Qed.

Lemma match_level_here_In prev s tok :
  match_level_here prev s = Some tok → In tok level_tokens.
Proof.
  unfold match_level_here.
  destruct (word_boundary prev (head s)); [|done].
  apply match_alternatives_In.
Qed.

Lemma search_level_In prev s tok :
  search_level prev s = Some tok → In tok level_tokens.
Proof.
  revert prev. induction s as [|c s IH]; intros prev; cbn [search_level].
  - destruct (match_level_here prev []) eqn:Hm; [|done].
    intros [= <-]. by eapply match_level_here_In.
  - destruct (match_level_here prev (c :: s)) eqn:Hm; [|by apply IH].
    intros [= <-]. by eapply match_level_here_In.
Qed.

(** The severity written is INFO, WARNING or ERROR. *)
Lemma severity_cases message :
  severity message = INFO ∨ severity message = WARNING
  ∨ severity message = ERROR.
Proof.
  unfold severity, logLevelMatch.
  destruct (search_level None message) as [tok|] eqn:Hs; [|by left].
  apply search_level_In in Hs.
  repeat (destruct Hs as [<-|Hs]; [vm_compute; tauto|]). done.
Qed.

Lemma detectedLevel_level message : is_level (detectedLevel message).
Proof. rewrite detectedLevel_severity. apply severity_cases. Qed.

Lemma UPPER_tag name : is_service_tag (UPPER name).
Proof. right. by exists name. Qed.

Lemma handles_evolve_refl l : handles_evolve l l.
Proof. split; [done|]. intros i hd Hi. by exists hd. Qed.

Lemma handles_evolve_trans l1 l2 l3 :
  handles_evolve l1 l2 → handles_evolve l2 l3 → handles_evolve l1 l3.
Proof.
  intros [Hl1 H1] [Hl2 H2]. split; [lia|].
  intros i hd Hi.
  destruct (H1 i hd Hi) as (hd2 & Hi2 & Hn2 & Ha2 & Hk2).
  destruct (H2 i hd2 Hi2) as (hd3 & Hi3 & Hn3 & Ha3 & Hk3).
  exists hd3. repeat split; [done|congruence|auto|auto].
Qed.

Lemma handles_evolve_app l hd : handles_evolve l (l ++ [hd]).
Proof.
  split; [rewrite length_app; lia|].
  intros i hd0 Hi. exists hd0. split; [by apply lookup_app_l_Some|done].
Qed.

Lemma handles_evolve_killed l h hd :
  l !! h = Some hd → h_alive hd = true →
  handles_evolve l
    (<[h := {| h_name := h_name hd; h_alive := true; h_killed := true |}]> l).
Proof.
  intros Hh Ha. split; [by rewrite length_insert|].
  intros i hd0 Hi. destruct (decide (i = h)) as [->|Hne].
  - rewrite list_lookup_insert_eq; [|by eapply lookup_lt_Some].
    eexists. split; [done|]. simpl. split; [congruence|]. split; [congruence|done].
  - rewrite list_lookup_insert_ne; [|done]. by exists hd0.
Qed.

Lemma handles_evolve_gone l h :
  handles_evolve l
    (alter (fun hd => {| h_name := h_name hd; h_alive := false;
                         h_killed := h_killed hd |}) h l).
Proof.
  split; [by rewrite length_alter|].
  intros i hd0 Hi. destruct (decide (i = h)) as [->|Hne].
  - rewrite list_lookup_alter_eq, Hi. simpl.
    eexists. split; [done|]. simpl. by repeat split.
  - rewrite list_lookup_alter_ne; [|done]. by exists hd0.
Qed.

Lemma names_killed (l : list handle) h hd :
  l !! h = Some hd →
  h_name <$> <[h := {| h_name := h_name hd; h_alive := true;
                       h_killed := true |}]> l = h_name <$> l.
Proof.
  intros Hh. rewrite list_fmap_insert. simpl.
  apply list_insert_id. by rewrite list_lookup_fmap, Hh.
Qed.

Lemma names_gone (l : list handle) h :
  h_name <$> alter (fun hd => {| h_name := h_name hd; h_alive := false;
                                 h_killed := h_killed hd |}) h l
  = h_name <$> l.
Proof.
  apply list_eq. intros i. rewrite !list_lookup_fmap.
  destruct (decide (i = h)) as [->|Hne].
  - rewrite list_lookup_alter_eq. by destruct (l !! h).
  - by rewrite list_lookup_alter_ne.
Qed.

Lemma drop_timer_In id l t : In t (drop_timer id l) → In t l.
Proof.
  unfold drop_timer. rewrite <- !list_elem_of_In, list_elem_of_filter. tauto.
Qed.

Lemma get_set_eq {A} (o : per_service A) name v : get (set o name v) name = v.
Proof. by destruct name. Qed.

Lemma get_set_ne {A} (o : per_service A) name name' v :
  name ≠ name' → get (set o name v) name' = get o name'.
Proof. by destruct name, name'. Qed.

Lemma get_set_le (o : per_service nat) name v :
  get o name ≤ v → ∀ name', get o name' ≤ get (set o name v) name'.
Proof.
  intros Hle name'. destruct (decide (name = name')) as [<-|Hne].
  - by rewrite get_set_eq.
  - by rewrite get_set_ne.
Qed.

Lemma evolve_refl s : evolve s s.
Proof. split; [apply handles_evolve_refl|]. by repeat split. Qed.

Lemma evolve_eq s s' :
  handles s' = handles s → restartCounts s' = restartCounts s →
  nextTimer s' = nextTimer s → isShuttingDown s' = isShuttingDown s →
  evolve s s'.
Proof.
  intros Hh Hr Hn Hs. unfold evolve. rewrite Hh, Hr, Hn, Hs.
  split; [apply handles_evolve_refl|]. by repeat split.
Qed.

Lemma evolve_trans s1 s2 s3 : evolve s1 s2 → evolve s2 s3 → evolve s1 s3.
Proof.
  intros (Hh1 & Hr1 & Hn1 & Hs1) (Hh2 & Hr2 & Hn2 & Hs2).
  split; [by eapply handles_evolve_trans|].
  split; [intros n; specialize (Hr1 n); specialize (Hr2 n); lia|].
  split; [lia|auto].
Qed.

Lemma spawn_names_app tr1 tr2 :
  spawn_names (tr1 ++ tr2) = spawn_names tr1 ++ spawn_names tr2.
Proof. unfold spawn_names. apply omap_app. Qed.

Lemma foot_refl T A s : foot T A s s.
Proof.
  split; [done|]. split; [by intros []|].
  split; [|apply evolve_refl].
  exists []. simpl. rewrite app_nil_r. repeat split; auto.
Qed.

Lemma foot_trans T A s s1 s2 :
  foot T A s s1 → foot T A s1 s2 → foot T A s s2.
Proof.
  intros (He1 & Hf1 & (n1 & Ht1 & Ha1 & Hh1 & Hm1) & Hv1)
         (He2 & Hf2 & (n2 & Ht2 & Ha2 & Hh2 & Hm2) & Hv2).
  split; [congruence|]. split; [|split].
  - intros f Hf. specialize (Hf1 f Hf). specialize (Hf2 f Hf).
    destruct f; simpl in *; congruence.
  - exists (n2 ++ n1). split; [|split; [|split]].
    + rewrite Ht2, Ht1. by rewrite app_assoc.
    + apply Forall_app. split; [|done]. by rewrite <- He1.
    + rewrite Hh2, Hh1, spawn_names_app, rev_app_distr. by rewrite app_assoc.
    + intros id k Hin. destruct (Hm2 id k Hin) as [Hold|[d Hd]].
      * destruct (Hm1 id k Hold) as [?|[d Hd]]; [by left|].
        right. exists d. apply in_or_app. by right.
      * right. exists d. apply in_or_app. by left.
  - by eapply evolve_trans.
Qed.

(** A step that leaves processes and timers alone. *)
Lemma foot_plain T (A : environment -> action -> Prop) new s s' :
  env s' = env s →
  (∀ f, touches T f = false → unchanged f s s') →
  trace s' = new ++ trace s →
  Forall (A (env s)) new →
  spawn_names new = [] →
  handles s' = handles s ∨ (h_name <$> handles s' = h_name <$> handles s
                            ∧ handles_evolve (handles s) (handles s')) →
  (∀ id k, In (id, k) (timers s') → In (id, k) (timers s)) →
  (∀ name, get (restartCounts s) name ≤ get (restartCounts s') name) →
  nextTimer s ≤ nextTimer s' →
  (isShuttingDown s = true → isShuttingDown s' = true) →
  foot T A s s'.
Proof.
  intros He Hf Ht HA Hsn Hh Hm Hr Hn Hsd.
  split; [done|]. split; [done|]. split.
  - exists new. rewrite Hsn. simpl. rewrite app_nil_r.
    repeat split; [done|done| |by left; apply Hm].
    destruct Hh as [->|[? _]]; done.
  - split; [|done].
    destruct Hh as [->|[_ ?]]; [apply handles_evolve_refl|done].
Qed.

Lemma foot_emit T (A : environment -> action -> Prop) a s :
  A (env s) a → spawn_names [a] = [] → foot T A s (emit a s).
Proof.
  intros Ha Hsn. apply (foot_plain _ _ [a]); auto.
  by intros [].
Qed.

Ltac foot_setter f :=
  intros; apply (foot_plain _ _ []); auto;
  let g := fresh "g" in
  let Hg := fresh "Hg" in
  intros g Hg; destruct g; try done; simpl in *; congruence.

Lemma foot_with_processes T A v s :
  touches T Fprocesses = true → foot T A s (with_processes v s).
Proof. foot_setter Fprocesses. Qed.
Lemma foot_with_logStream T A v s :
  touches T FlogStream = true → foot T A s (with_logStream v s).
Proof. foot_setter FlogStream. Qed.
Lemma foot_with_isShuttingDown T A s :
  touches T FisShuttingDown = true → foot T A s (with_isShuttingDown true s).
Proof. foot_setter FisShuttingDown. Qed.
Lemma foot_with_restartCounts T A v s :
  touches T FrestartCounts = true →
  (∀ name, get (restartCounts s) name ≤ get v name) →
  foot T A s (with_restartCounts v s).
Proof. foot_setter FrestartCounts. Qed.
Lemma foot_with_backendCommand T A v s :
  touches T FbackendCommand = true → foot T A s (with_backendCommand v s).
Proof. foot_setter FbackendCommand. Qed.
Lemma foot_with_handles T A v s :
  touches T Fhandles = true →
  h_name <$> v = h_name <$> handles s →
  handles_evolve (handles s) v →
  foot T A s (with_handles v s).
Proof.
  intros. apply (foot_plain _ _ []); auto.
  intros g Hg; destruct g; try done; simpl in *; congruence.
Qed.
Lemma foot_with_timers T A v s :
  touches T Ftimers = true →
  (∀ t, In t v → In t (timers s)) →
  foot T A s (with_timers v s).
Proof. foot_setter Ftimers. Qed.
Lemma foot_with_pc T A v s :
  touches T Fpc = true → foot T A s (with_pc v s).
Proof. foot_setter Fpc. Qed.
Lemma foot_with_cleanupExecs T A v s :
  touches T FcleanupExecs = true → foot T A s (with_cleanupExecs v s).
Proof. foot_setter FcleanupExecs. Qed.
Lemma foot_with_races T A v s :
  touches T Fraces = true → foot T A s (with_races v s).
Proof. foot_setter Fraces. Qed.
Lemma foot_with_shutdownCode T A v s :
  touches T FshutdownCode = true → foot T A s (with_shutdownCode v s).
Proof. foot_setter FshutdownCode. Qed.
Lemma foot_with_exited T A v s :
  touches T Fexited = true → foot T A s (with_exited v s).
Proof. foot_setter Fexited. Qed.

Lemma foot_with_dateReads T A v s : foot T A s (with_dateReads v s).
Proof. apply (foot_plain _ _ []); auto. by intros []. Qed.

Lemma log_line_supervisor s level message service :
  is_level level → is_service_tag service →
  supervisor_line (env s)
    (js "[" ++ toISOString (env s) (dateReads s) ++ js "] [" ++ level
     ++ js "] [" ++ service ++ js "] " ++ message ++ nl).
Proof. intros. by exists (dateReads s), level, service, message. Qed.

Lemma Forall_written (A : action -> Prop) st chunk :
  A (FileWrite chunk) → Forall A (written st chunk).
Proof. intros. destruct st as [[]|]; simpl; auto. Qed.

Lemma spawn_names_written st chunk : spawn_names (written st chunk) = [].
Proof. by destruct st as [[]|]. Qed.

Lemma foot_stream_write T (A : environment -> action -> Prop) chunk s :
  A (env s) (FileWrite chunk) → foot T A s (stream_write chunk s).
Proof.
  intros Ha. apply (foot_plain _ _ (written (logStream s) chunk)); auto.
  - by intros [].
  - by apply Forall_written.
  - apply spawn_names_written.
Qed.

Lemma foot_log T (A : environment -> action -> Prop) level message service s :
  is_level level → is_service_tag service →
  (∀ a, a_log (env s) a → A (env s) a) →
  foot T A s (log level message service s).
Proof.
  intros Hl Hs HA. unfold log.
  eapply foot_trans; [eapply foot_trans|].
  - apply foot_with_dateReads.
  - apply foot_stream_write. apply HA. simpl. by apply log_line_supervisor.
  - apply foot_emit; [by apply HA|done].
Qed.

Lemma log_trace level message service s :
  trace (log level message service s)
  = Console (trim (wrapped_line (toISOString (env s) (dateReads s)) level
                     service message))
    :: written (logStream s)
         (wrapped_line (toISOString (env s) (dateReads s)) level service
            message)
    ++ trace s.
Proof. reflexivity. Qed.

Lemma log_grows level message service s :
  ∃ new, trace (log level message service s) = new ++ trace s
         ∧ Forall (fun a => has_kind [KLog] a = true) new.
Proof.
  rewrite log_trace. eexists (_ :: _). split; [reflexivity|].
  constructor; [done|]. by destruct (logStream s) as [[]|]; repeat constructor.
Qed.

Ltac level_ok :=
  first [ by left | by (right; left) | by (right; right)
        | apply detectedLevel_level | assumption ].

Ltac service_ok :=
  first [ by left | apply UPPER_tag | by (right; exists stagehand)
        | by (right; exists backend) | by (right; exists frontend)
        | assumption ].

(** The end of [spawnProcess]: the new process object and its action. *)
Lemma foot_spawn T (A : environment -> action -> Prop) name cfg s :
  touches T Fhandles = true →
  A (env s) (Spawn (length (handles s)) name cfg) →
  foot T A s
    (emit (Spawn (length (handles s)) name cfg)
       (with_handles
          (handles s ++ [{| h_name := name; h_alive := true;
                            h_killed := false |}]) s)).
Proof.
  intros HT HA.
  split; [done|]. split; [|split].
  - intros g Hg. destruct g; try done. simpl in *. congruence.
  - exists [Spawn (length (handles s)) name cfg]. simpl.
    repeat split; [by constructor|by rewrite fmap_app|by left].
  - split; [apply handles_evolve_app|]. simpl. repeat split; auto.
Qed.

Lemma foot_use T0 A0 T (A : environment -> action -> Prop) s s' :
  foot T0 A0 s s' →
  forallb (touches T) T0 = true →
  (∀ a, A0 (env s) a → A (env s) a) →
  foot T A s s'.
Proof.
  intros (He & Hf & (new & Ht & Hn & Hh & Hm) & Hv) HT HA.
  split; [done|]. split; [|split; [|done]].
  - intros f Hno. apply Hf.
    destruct (touches T0 f) eqn:Htf; [|done].
    unfold touches in Htf. apply existsb_exists in Htf as (g & Hg & Heq).
    apply bool_decide_eq_true in Heq. subst g.
    rewrite forallb_forall in HT. rewrite (HT f Hg) in Hno. done.
  - exists new. split; [done|]. split; [|done].
    eapply Forall_impl; [done|]. auto.
Qed.

(** Side conditions: one class of actions is contained in another.  The
    state the classes are read at plays no part. *)
Ltac class_eval :=
  cbv beta iota delta [a_kinds a_failure a_finish a_shutdown a_stop a_start
                       a_kill a_child a_timeout a_log].

Ltac side_A :=
  lazymatch goal with
  | |- ∀ a, _ (env ?s) a → _ =>
      let e := fresh "e" in generalize (env s); intros e
  | |- _ => idtac
  end;
  let a := fresh "a" in
  let H := fresh "H" in
  intros a; destruct a as [| | | | ? ? [] | | | | | | | | | |];
  class_eval; intros H;
  try contradiction;
  try (split; [reflexivity|]); class_eval;
  try tauto; try (intuition congruence).

Create HintDb foot discriminated.
Global Hint Constants Opaque : foot.
Global Hint Variables Opaque : foot.

Ltac side_emit :=
  first
    [ split; [reflexivity | exact I]
    | class_eval; solve [auto | tauto | intuition congruence] ].

Ltac foot_call :=
  eapply foot_use; [solve [eauto 2 with foot] | reflexivity | side_A].

(** One step of a footprint proof, chosen by the head of the state. *)
Ltac foot_prim :=
  lazymatch goal with
  | |- foot _ _ _ (emit _ _) =>
      apply foot_emit; [side_emit | done]
  | |- foot _ _ _ (log _ _ _ _) =>
      apply foot_log; [level_ok | service_ok | side_A]
  | |- foot _ _ _ (stream_write _ _) =>
      apply foot_stream_write; simpl; solve [eauto]
  | |- foot _ _ _ (with_dateReads _ _) => apply foot_with_dateReads
  | |- foot _ _ _ (with_processes _ _) => apply foot_with_processes; reflexivity
  | |- foot _ _ _ (with_logStream _ _) => apply foot_with_logStream; reflexivity
  | |- foot _ _ _ (with_isShuttingDown _ _) =>
      apply foot_with_isShuttingDown; reflexivity
  | |- foot _ _ _ (with_restartCounts _ _) =>
      apply foot_with_restartCounts;
      [reflexivity | apply get_set_le; simpl; lia]
  | |- foot _ _ _ (with_backendCommand _ _) =>
      apply foot_with_backendCommand; reflexivity
  | |- foot _ _ _ (with_handles _ _) =>
      apply foot_with_handles;
      [ reflexivity
      | first [ apply names_gone | by apply names_killed ]
      | first [ apply handles_evolve_gone | by apply handles_evolve_killed ] ]
  | |- foot _ _ _ (with_timers _ _) =>
      apply foot_with_timers; [reflexivity | apply drop_timer_In]
  | |- foot _ _ _ (with_pc _ _) => apply foot_with_pc; reflexivity
  | |- foot _ _ _ (with_cleanupExecs _ _) =>
      apply foot_with_cleanupExecs; reflexivity
  | |- foot _ _ _ (with_races _ _) => apply foot_with_races; reflexivity
  | |- foot _ _ _ (with_shutdownCode _ _) =>
      apply foot_with_shutdownCode; reflexivity
  | |- foot _ _ _ (with_exited _ _) => apply foot_with_exited; reflexivity
  | |- foot _ _ _ _ => foot_call
  end.

Ltac foot_auto :=
  cbv beta iota zeta;
  repeat
    lazymatch goal with
    | |- foot _ _ ?s ?s => apply foot_refl
    | |- foot _ _ _ (match ?x with _ => _ end) =>
        destruct x eqn:?; cbv beta iota zeta
    | |- foot _ _ _ (emit (Spawn _ _ _) (with_handles _ _)) =>
        eapply foot_trans;
        [|apply foot_spawn; [reflexivity | side_emit]]
    | |- foot _ _ _ _ => eapply foot_trans; [|foot_prim]
    end.

Lemma setTimeout_foot k delay s :
  foot [Ftimers; FnextTimer] (a_timeout delay k) s (setTimeout k delay s).
Proof.
  unfold setTimeout.
  split; [done|]. split; [by intros []|]. split.
  - exists [SetTimeout (nextTimer s) delay k]. simpl. rewrite app_nil_r.
    repeat split; [by constructor|].
    intros id k' [Heq|Hin]; [|by left].
    right. exists delay. left. congruence.
  - split; [apply handles_evolve_refl|]. simpl. repeat split; auto.
Qed.

Lemma clearTimeout_foot id s :
  foot [Ftimers] (fun _ a => a = ClearTimeout id) s (clearTimeout id s).
Proof. unfold clearTimeout. foot_auto. Qed.

Lemma kill_foot h sig s :
  foot [Fhandles] (fun _ a => a = Kill h sig) s (kill h sig s).
Proof. unfold kill. foot_auto. Qed.

Lemma resolve_foot h s : foot [Fraces] (fun _ _ => False) s (resolve h s).
Proof. unfold resolve. foot_auto. Qed.

Lemma mark_gone_foot h s : foot [Fhandles] (fun _ _ => False) s (mark_gone h s).
Proof. unfold mark_gone. foot_auto. Qed.

Global Hint Resolve setTimeout_foot clearTimeout_foot kill_foot resolve_foot
  mark_gone_foot : foot.

Lemma startProcess_foot name s :
  foot [Fhandles; Fprocesses] (a_start name) s (startProcess name s).
Proof. unfold startProcess, spawnProcess. foot_auto. Qed.

Lemma stopProcess_foot name s :
  foot [Ftimers; FnextTimer; Fraces; Fhandles] a_stop s (stopProcess name s).
Proof. unfold stopProcess. foot_auto. Qed.

Global Hint Resolve startProcess_foot stopProcess_foot : foot.

Lemma shutdown_foot c s :
  foot [FisShuttingDown; FshutdownCode; Ftimers; FnextTimer; Fraces; Fhandles]
    (a_shutdown c) s (shutdown c s).
Proof. unfold shutdown. simpl. foot_auto. Qed.

Lemma finishShutdown_foot c s :
  foot [FlogStream; Fexited] a_finish s (finishShutdown c s).
Proof. unfold finishShutdown. foot_auto. Qed.

Global Hint Resolve shutdown_foot finishShutdown_foot : foot.

Lemma settle_foot s : foot [FlogStream; Fexited] a_finish s (settle s).
Proof. unfold settle. foot_auto. Qed.

Lemma handleProcessFailure_foot name s :
  foot [FrestartCounts; FisShuttingDown; FshutdownCode; Ftimers; FnextTimer;
        Fraces; Fhandles]
    (a_failure name) s (handleProcessFailure name s).
Proof. unfold handleProcessFailure. foot_auto. Qed.

Global Hint Resolve settle_foot handleProcessFailure_foot : foot.

Lemma logProcessOutput_foot message name s :
  foot [] (a_kinds [KLog]) s (logProcessOutput message (UPPER name) s).
Proof.
  unfold logProcessOutput.
  destruct (hasTimestamp message) eqn:Hts; [|foot_auto].
  eapply foot_trans; [eapply foot_trans; [apply foot_refl|]|].
  - apply foot_stream_write. split; [done|]. right.
    exists name, message. split; [done|]. split; [apply detectedLevel_level|done].
  - apply foot_emit; [by split|done].
Qed.

Lemma checkHealth_foot name port s :
  foot [] (a_kinds [KExec]) s (checkHealth name port s).
Proof. unfold checkHealth. foot_auto. Qed.

Global Hint Resolve logProcessOutput_foot checkHealth_foot : foot.

Lemma waitForHealthcheck_foot name port s :
  foot [Fpc] (a_kinds [KLog; KExec]) s (waitForHealthcheck name port s).
Proof. unfold waitForHealthcheck. foot_auto. Qed.

Lemma cleanupStagehandSessions_foot s :
  foot [Fpc] (a_kinds [KFetch]) s (cleanupStagehandSessions s).
Proof. unfold cleanupStagehandSessions. foot_auto. Qed.

Global Hint Resolve waitForHealthcheck_foot cleanupStagehandSessions_foot : foot.

Lemma start_after_wait_foot name s :
  foot [Fpc] (a_kinds [KLog; KExec; KFetch]) s (start_after_wait name s).
Proof. unfold start_after_wait. foot_auto. Qed.

Global Hint Resolve start_after_wait_foot : foot.

Lemma onHealth_foot ok s :
  foot [Fpc; Ftimers; FnextTimer]
    (a_kinds [KLog; KExec; KFetch; KHealth; KSetTimeout]) s (onHealth ok s).
Proof. unfold onHealth. foot_auto. Qed.

Lemma resume_foot s :
  foot [Fpc; FcleanupExecs; Fhandles; Fprocesses]
    (a_kinds [KLog; KExec; KFetch; KSpawn; KKill]) s (resume s).
Proof. unfold resume. foot_auto. Qed.

Lemma onCleanupExec_foot ok stderr s :
  foot [FcleanupExecs] (a_kinds [KLog]) s (onCleanupExec ok stderr s).
Proof. unfold onCleanupExec. foot_auto. Qed.

Lemma onFetch_foot r s :
  foot [Fpc; Ftimers; FnextTimer; Fhandles; Fprocesses]
    (a_kinds [KLog; KSpawn; KKill; KSetTimeout]) s (onFetch r s).
Proof. unfold onFetch. foot_auto. Qed.

Lemma raceExit_foot r s :
  foot [Ftimers; Fraces] (a_kinds [KLog; KClearTimeout]) s (raceExit r s).
Proof. unfold raceExit. foot_auto. Qed.

Global Hint Resolve onHealth_foot resume_foot onCleanupExec_foot onFetch_foot
  raceExit_foot : foot.

Lemma foldl_foot {B} T A (f : state -> B -> state) l :
  (∀ s b, foot T A s (f s b)) → ∀ s, foot T A s (foldl f s l).
Proof.
  intros Hf. induction l as [|b l IH]; intros s; simpl.
  - apply foot_refl.
  - eapply foot_trans; [apply Hf|apply IH].
Qed.

Lemma onExit_foot h code sig s :
  foot failure_fields (a_kinds failure_kinds) s (onExit h code sig s).
Proof.
  unfold onExit. destruct (handles s !! h) as [hd|]; [|apply foot_refl].
  destruct (h_alive hd); [|apply foot_refl].
  eapply foot_trans; [|apply foldl_foot; intros; foot_call].
  unfold failure_fields, failure_kinds. foot_auto.
Qed.

Lemma onError_foot h message gone s :
  foot failure_fields (a_kinds failure_kinds) s (onError h message gone s).
Proof. unfold onError, failure_fields, failure_kinds. foot_auto. Qed.

Lemma onData_foot h data s :
  foot [] (a_kinds [KLog]) s (onData h data s).
Proof. unfold onData. foot_auto. Qed.

Lemma onSpawned_foot h child_pid s :
  foot [] (a_kinds [KLog]) s (onSpawned h child_pid s).
Proof. unfold onSpawned. foot_auto. Qed.

Lemma onTimer_foot id s :
  foot [Ftimers; Fpc; FcleanupExecs; Fhandles; Fprocesses; Fraces]
    (a_kinds [KLog; KExec; KFetch; KSpawn; KKill]) s (onTimer id s).
Proof. unfold onTimer. foot_auto. Qed.

Lemma onSignal_foot sig s :
  foot shutdown_fields
    (a_kinds [KLog; KSignal; KShutdownCalled; KForceKill; KKill])
    s (onSignal sig s).
Proof. unfold onSignal, shutdown_fields. foot_auto. Qed.

Global Hint Resolve onExit_foot onError_foot onData_foot onSpawned_foot
  onTimer_foot onSignal_foot : foot.

Lemma handle_event_foot ev s :
  foot event_fields (a_kinds event_kinds) s (handle_event ev s).
Proof.
  unfold event_fields, event_kinds, failure_fields, failure_kinds,
    shutdown_fields in *.
  destruct ev; simpl; foot_auto.
Qed.

Global Hint Resolve handle_event_foot : foot.

Lemma step_foot ev s : foot all_fields (a_kinds all_kinds) s (step ev s).
Proof.
  unfold step, all_fields, all_kinds, event_fields, event_kinds.
  destruct (exited s); [apply foot_refl|]. simpl. foot_auto.
Qed.

Lemma run_foot evs s : foot all_fields (a_kinds all_kinds) s (run evs s).
Proof. apply foldl_foot. intros. apply step_foot. Qed.

Lemma checkPrerequisites_foot fs s :
  foot [FbackendCommand] a_log s (checkPrerequisites fs s).2.
Proof.
  unfold checkPrerequisites.
  destruct (backendDir fs), (frontendDir fs), (mainPy fs), (packageJson fs),
    (venv fs); simpl; foot_auto.
Qed.

Lemma start_foot fs s :
  foot [FbackendCommand; Fpc; Fhandles; Fprocesses; FisShuttingDown;
        FshutdownCode; Ftimers; FnextTimer; Fraces]
    (a_kinds [KLog; KSpawn; KKill; KExec; KShutdownCalled; KForceKill]) s
    (start fs s).
Proof.
  unfold start.
  pose proof (checkPrerequisites_foot fs s) as Hc.
  destruct (checkPrerequisites fs s) as [[message|] s1]; simpl in Hc.
  - eapply foot_trans; [eapply foot_use; [apply Hc|reflexivity|side_A]|].
    foot_auto.
  - eapply foot_trans; [eapply foot_use; [apply Hc|reflexivity|side_A]|].
    foot_auto.
Qed.

Lemma setupLogging_foot s : foot [FlogStream] a_log s (setupLogging s).
Proof. unfold setupLogging. foot_auto. Qed.

Global Hint Resolve start_foot setupLogging_foot : foot.

Lemma main_foot e fs :
  foot all_fields (a_kinds all_kinds) (blank e) (main e fs).
Proof.
  unfold main, new_UnifiedServer, all_fields, all_kinds, event_fields,
    event_kinds. foot_auto.
Qed.

(** ** Induction over the runs of the supervisor *)

Lemma run_snoc evs ev s : run (evs ++ [ev]) s = step ev (run evs s).
Proof. unfold run. by rewrite foldl_app. Qed.

Lemma reachable_main e fs : reachable (main e fs).
Proof. by exists e, fs, []. Qed.

Lemma reachable_step ev s : reachable s → reachable (step ev s).
Proof.
  intros (e & fs & evs & ->). exists e, fs, (evs ++ [ev]).
  by rewrite run_snoc.
Qed.

Lemma reachable_run evs s : reachable s → reachable (run evs s).
Proof.
  revert s. induction evs as [|ev evs IH]; intros s Hs; [done|].
  simpl. apply IH. by apply reachable_step.
Qed.

Lemma reachable_ind (P : state -> Prop) :
  (∀ e fs, P (main e fs)) →
  (∀ ev s, reachable s → P s → P (step ev s)) →
  ∀ s, reachable s → P s.
Proof.
  intros Hmain Hstep s (e & fs & evs & ->).
  induction evs as [|ev evs IH] using rev_ind; [apply Hmain|].
  rewrite run_snoc. apply Hstep; [|done]. by exists e, fs, evs.
Qed.

(** * Output multiplexing *)

Lemma logProcessOutput_trace message service s :
  let line := child_output_line (toISOString (env s) (dateReads s)) message
                service in
  trace (logProcessOutput message service s)
  = Console (trim line) :: written (logStream s) line ++ trace s.
Proof.
  unfold logProcessOutput, child_output_line.
  rewrite detectedLevel_severity. by destruct (hasTimestamp message).
Qed.

(** C8 (as amended).  For every line of a child's output, the supervisor
    writes it tagged with severity and service and without a timestamp of its
    own exactly when the line starts with a timestamp, whether or not it has a
    severity token; otherwise it wraps the line with its own timestamp.  In
    both cases the severity is that of the first token, DEBUG shown as INFO
    and CRITICAL as ERROR, or INFO when there is no token, so it is always one
    of INFO, WARNING and ERROR. *)
Theorem C8_child_output_by_timestamp (message service : jsstring) (s : state) :
  let timestamp := toISOString (env s) (dateReads s) in
  let level :=
    match logLevelMatch message with
    | Some tok =>
        if decide (tok = js "DEBUG") then INFO
        else if decide (tok = js "CRITICAL") then ERROR
        else tok
    | None => INFO
    end in
  let line :=
    if hasTimestamp message then tagged_line level service message
    else wrapped_line timestamp level service message in
  trace (logProcessOutput message service s)
  = Console (trim line) :: written (logStream s) line ++ trace s
  ∧ (level = INFO ∨ level = WARNING ∨ level = ERROR).
Proof.
  split; [apply logProcessOutput_trace|apply severity_cases].
Qed.

(** C8 fails as stated: a line with a timestamp and no severity token is
    written tagged, without the supervisor's timestamp, where the statement
    has it wrapped. *)
Lemma C8_counterexample :
  let s := new_UnifiedServer env0 in
  let written_line :=
    head (file_writes
            (trace (logProcessOutput plain_stamped_line (UPPER backend) s))) in
  hasTimestamp plain_stamped_line = true
  ∧ has_severity_token plain_stamped_line = false
  ∧ written_line = Some (tagged_line INFO (UPPER backend) plain_stamped_line)
  ∧ written_line
    ≠ Some (described_child_line (toISOString (env s) (dateReads s))
              plain_stamped_line (UPPER backend)).
Proof. vm_compute. repeat split; discriminate. Qed.

(** * The log file *)

Lemma reachable_trace e fs evs :
  Forall (a_kinds all_kinds e) (trace (run evs (main e fs))).
Proof.
  pose proof (foot_trans _ _ _ _ _ (main_foot e fs) (run_foot evs (main e fs)))
    as (_ & _ & (new & Ht & HA & _) & _).
  simpl in Ht. rewrite app_nil_r in Ht. by rewrite Ht.
Qed.

(** C7 (as amended).  Every chunk the supervisor hands to the log stream
    has one of two forms, each ended by a line feed:
    [[timestamp] [LEVEL] [SERVICE] message] with a timestamp of the
    supervisor's clock, a level that is INFO, WARNING or ERROR and a service
    tag that is MAIN or the upper-case name of a service; or
    [[LEVEL] [SERVICE] message], where the message starts with a timestamp
    of its own, the level is the one detected in the message (INFO, WARNING
    or ERROR) and the tag is the upper-case name of a service.  Nothing is
    said of the message beyond that: it may hold line feeds of its own, so
    a chunk is not always one line. *)
Theorem C7_log_file_lines e fs evs chunk :
  In (FileWrite chunk) (trace (run evs (main e fs))) →
  supervisor_line e chunk ∨ child_line chunk.
Proof.
  intros Hin. pose proof (reachable_trace e fs evs) as Hall.
  rewrite Forall_forall in Hall. apply list_elem_of_In in Hin.
  by destruct (Hall _ Hin) as [_ ?].
Qed.

Lemma C7_log_file_lines_witness :
  supervisor_line env0
    (wrapped_line (toISOString env0 0) INFO MAIN
       (js "LinkedIn Research Suite - Unified Server Starting"))
  ∨ child_line
      (wrapped_line (toISOString env0 0) INFO MAIN
         (js "LinkedIn Research Suite - Unified Server Starting")).
Proof.
  apply (C7_log_file_lines env0 fs_ok []).
  apply list_elem_of_In. apply list_elem_of_lookup.
  exists 21. vm_compute. reflexivity.
Defined.

Lemma log_line_format_brackets chunk :
  log_line_format chunk → 3 ≤ count_occ N.eq_dec chunk 91%N.
Proof.
  intros (timestamp & level & service & message & ->).
  rewrite !count_occ_app. simpl. lia.
Qed.

(** C7 fails as stated: a line of the backend that starts with its own
    timestamp is handed to the log stream without a bracketed timestamp;
    and two lines of a child that arrive together are handed over as one
    chunk. *)
Lemma C7_counterexample :
  In (FileWrite (tagged_line INFO (UPPER stagehand) backend_line))
     (trace (run [EvData 0 backend_line] (main env0 fs_ok)))
  ∧ ¬ log_line_format (tagged_line INFO (UPPER stagehand) backend_line)
  ∧ In (FileWrite (tagged_line INFO (UPPER stagehand) two_lines))
       (trace (run [EvData 0 two_lines] (main env0 fs_ok)))
  ∧ line_feeds (tagged_line INFO (UPPER stagehand) two_lines) = 2.
Proof.
  split; [|split; [|split]].
  - apply list_elem_of_In. apply list_elem_of_lookup.
    exists 1. vm_compute. reflexivity.
  - intros H. apply log_line_format_brackets in H. vm_compute in H. lia.
  - apply list_elem_of_In. apply list_elem_of_lookup.
    exists 1. vm_compute. reflexivity.
  - vm_compute. reflexivity.
Qed.

(** * Restart counters *)

Lemma countb_app p tr1 tr2 : countb p (tr1 ++ tr2) = countb p tr1 + countb p tr2.
Proof. induction tr1 as [|a tr1 IH]; simpl; [done|]. rewrite IH. lia. Qed.

Lemma countb_none p tr : Forall (fun a => p a = false) tr → countb p tr = 0.
Proof. induction 1 as [|a tr Ha _ IH]; simpl; [done|]. by rewrite Ha, IH. Qed.

Lemma a_kinds_lacks ks k e a :
  lacks ks k = true → a_kinds ks e a → kind_of a ≠ k.
Proof.
  unfold lacks, a_kinds, has_kind. intros Hl [Hk _] <-.
  by rewrite Hk in Hl.
Qed.

Lemma foot_new T A s s' :
  foot T A s s' → ∃ new, trace s' = new ++ trace s ∧ Forall (A (env s)) new.
Proof. intros (_ & _ & (new & ? & ? & _) & _). by exists new. Qed.

Lemma foot_unchanged T A s s' f :
  foot T A s s' → touches T f = false → unchanged f s s'.
Proof. intros (_ & Hf & _) ?. by apply Hf. Qed.

Lemma foot_count_same T ks p k s s' :
  foot T (a_kinds ks) s s' →
  lacks ks k = true →
  (∀ a, p a = true → kind_of a = k) →
  countb p (trace s') = countb p (trace s).
Proof.
  intros Hfoot Hl Hp. destruct (foot_new _ _ _ _ Hfoot) as (new & -> & HA).
  rewrite countb_app, countb_none; [done|].
  eapply Forall_impl; [done|]. intros a Ha. simpl in Ha.
  destruct (p a) eqn:Hpa; [|done].
  by destruct (a_kinds_lacks _ _ _ _ Hl Ha (Hp a Hpa)).
Qed.

Lemma is_failure_kind name a : is_failure name a = true → kind_of a = KFailure.
Proof. by destruct a. Qed.

Lemma counts_failures_frame T ks s s' :
  foot T (a_kinds ks) s s' →
  touches T FrestartCounts = false →
  lacks ks KFailure = true →
  counts_failures s → counts_failures s'.
Proof.
  intros Hfoot HT Hl Hinv name.
  pose proof (foot_unchanged _ _ _ _ _ Hfoot HT) as Hrc. simpl in Hrc.
  rewrite Hrc, Hinv.
  by rewrite (foot_count_same _ _ _ _ _ _ Hfoot Hl (is_failure_kind name)).
Qed.

Lemma handleProcessFailure_restart name s :
  get (restartCounts s) name < maxRestarts →
  handleProcessFailure name s
  = let s1 := with_restartCounts
                (set (restartCounts s) name (S (get (restartCounts s) name)))
                (emit (ProcessFailure name) s) in
    setTimeout (TRestart name) restartDelay
      (log INFO
         (js "Restarting " ++ name_text name ++ js " in "
          ++ decimal restartDelay ++ js "ms (attempt "
          ++ decimal (N.of_nat (get (restartCounts s1) name))
          ++ js "/" ++ decimal (N.of_nat maxRestarts) ++ js ")")
         (UPPER name) s1).
Proof.
  intros Hlt. unfold handleProcessFailure. cbv zeta.
  change (restartCounts (emit (ProcessFailure name) s)) with (restartCounts s).
  destruct (Nat.leb_spec maxRestarts (get (restartCounts s) name));
    [lia|reflexivity].
Qed.

Lemma handleProcessFailure_fatal name s :
  maxRestarts ≤ get (restartCounts s) name →
  handleProcessFailure name s
  = shutdown 1
      (log ERROR
         (name_text name ++ js " exceeded maximum restart attempts ("
          ++ decimal (N.of_nat maxRestarts) ++ js ")")
         (UPPER name) (emit (ProcessFailure name) s)).
Proof.
  intros Hle. unfold handleProcessFailure. cbv zeta.
  change (restartCounts (emit (ProcessFailure name) s)) with (restartCounts s).
  destruct (Nat.leb_spec maxRestarts (get (restartCounts s) name));
    [reflexivity|lia].
Qed.

(** After [ProcessFailure] is recorded, the handler adds no other one and
    changes the counters only on the restart branch. *)
Lemma handleProcessFailure_rest name s :
  foot [FrestartCounts; FisShuttingDown; FshutdownCode; Ftimers; FnextTimer;
        Fraces; Fhandles]
    (a_kinds [KLog; KShutdownCalled; KSetTimeout; KForceKill; KKill])
    (emit (ProcessFailure name) s) (handleProcessFailure name s).
Proof. unfold handleProcessFailure. foot_auto. Qed.

Lemma handleProcessFailure_restartCounts name s :
  restartCounts (handleProcessFailure name s)
  = if maxRestarts <=? get (restartCounts s) name then restartCounts s
    else set (restartCounts s) name (S (get (restartCounts s) name)).
Proof.
  destruct (Nat.leb_spec maxRestarts (get (restartCounts s) name)) as [Hle|Hlt].
  - rewrite handleProcessFailure_fatal by done.
    by rewrite (foot_unchanged _ _ _ _ FrestartCounts (shutdown_foot 1 _) eq_refl).
  - by rewrite handleProcessFailure_restart.
Qed.

Lemma handleProcessFailure_failures name n s :
  countb (is_failure n) (trace (handleProcessFailure name s))
  = (if bool_decide (name = n) then 1 else 0) + countb (is_failure n) (trace s).
Proof.
  by rewrite (foot_count_same _ _ (is_failure n) KFailure _ _
                (handleProcessFailure_rest name s) eq_refl (is_failure_kind n)).
Qed.

Lemma handleProcessFailure_counts name s :
  counts_failures s → counts_failures (handleProcessFailure name s).
Proof.
  intros Hinv n.
  rewrite handleProcessFailure_failures, handleProcessFailure_restartCounts.
  pose proof (Hinv n) as Hn. pose proof (Hinv name) as Hname.
  unfold maxRestarts in *.
  destruct (Nat.leb_spec 3 (get (restartCounts s) name)) as [Hle|Hlt].
  - case_bool_decide; [subst|]; lia.
  - case_bool_decide as Heq.
    + subst n. rewrite get_set_eq. lia.
    + rewrite get_set_ne by done. lia.
Qed.

Ltac uncounted s0 :=
  apply (counts_failures_frame uncounted_fields uncounted_kinds s0);
  [ unfold uncounted_fields, uncounted_kinds; foot_auto
  | reflexivity | reflexivity | ].

Lemma onError_counts h message gone s :
  counts_failures s → counts_failures (onError h message gone s).
Proof.
  intros Hinv. unfold onError.
  destruct (handles s !! h) as [hd|]; [|done].
  apply handleProcessFailure_counts.
  by uncounted s.
Qed.

Lemma onExit_counts h code sig s :
  counts_failures s → counts_failures (onExit h code sig s).
Proof.
  intros Hinv. unfold onExit.
  destruct (handles s !! h) as [hd|]; [|done].
  destruct (h_alive hd); [|done].
  match goal with
  | |- counts_failures (foldl _ ?s1 ?l) =>
      apply (counts_failures_frame uncounted_fields uncounted_kinds s1);
      [ apply foldl_foot; intros; unfold uncounted_fields, uncounted_kinds;
        foot_call
      | reflexivity | reflexivity | ]
  end.
  destruct (negb (isShuttingDown (emit (ExitObserved h) (mark_gone h s)))).
  - apply handleProcessFailure_counts. by uncounted s.
  - by uncounted s.
Qed.

Lemma handle_event_counts ev s :
  counts_failures s → counts_failures (handle_event ev s).
Proof.
  intros Hinv.
  destruct ev; simpl;
    first [ by apply onError_counts | by apply onExit_counts | by uncounted s ].
Qed.

Lemma step_counts ev s : counts_failures s → counts_failures (step ev s).
Proof.
  intros Hinv. unfold step. destruct (exited s); [done|].
  apply (counts_failures_frame uncounted_fields uncounted_kinds
           (handle_event ev s));
    [ unfold uncounted_fields, uncounted_kinds; foot_auto
    | reflexivity | reflexivity | ].
  by apply handle_event_counts.
Qed.

Lemma blank_counts e : counts_failures (blank e).
Proof. by intros []. Qed.

Lemma main_counts e fs : counts_failures (main e fs).
Proof.
  unfold main, new_UnifiedServer.
  uncounted (blank e). apply blank_counts.
Qed.

Lemma reachable_counts s : reachable s → counts_failures s.
Proof.
  apply reachable_ind; [apply main_counts|].
  intros ev s' _. apply step_counts.
Qed.

(** * Shutdown *)

Lemma foot_omap_same {B} T ks (f : action -> option B) k s s' :
  foot T (a_kinds ks) s s' →
  lacks ks k = true →
  (∀ a, is_Some (f a) → kind_of a = k) →
  omap f (trace s') = omap f (trace s).
Proof.
  intros Hfoot Hl Hf. destruct (foot_new _ _ _ _ Hfoot) as (new & -> & HA).
  rewrite omap_app.
  assert (omap f new = []) as ->; [|done].
  induction HA as [|a new Ha _ IH]; [done|]. simpl.
  destruct (f a) eqn:Hfa; [|done].
  destruct (a_kinds_lacks _ _ _ _ Hl Ha). apply Hf. by rewrite Hfa.
Qed.

Lemma shutdown_call_kind a :
  is_Some (match a with ShutdownCalled c => Some c | _ => None end) →
  kind_of a = KShutdownCalled.
Proof. destruct a; simpl; try done; by intros [? [=]]. Qed.

Lemma exit_kind a :
  is_Some (match a with Exit c => Some c | _ => None end) →
  kind_of a = KExit.
Proof. destruct a; simpl; try done; by intros [? [=]]. Qed.

Lemma foot_shutdown_calls T ks s s' :
  foot T (a_kinds ks) s s' → lacks ks KShutdownCalled = true →
  shutdown_calls (trace s') = shutdown_calls (trace s).
Proof. intros H Hl. exact (foot_omap_same _ _ _ _ _ _ H Hl shutdown_call_kind). Qed.

Lemma foot_exit_codes T ks s s' :
  foot T (a_kinds ks) s s' → lacks ks KExit = true →
  exit_codes (trace s') = exit_codes (trace s).
Proof. intros H Hl. exact (foot_omap_same _ _ _ _ _ _ H Hl exit_kind). Qed.

Lemma shutdown_inv_frame T ks s s' :
  foot T (a_kinds ks) s s' →
  forallb (fun f => negb (touches T f))
    [FisShuttingDown; FshutdownCode; Fexited; FlogStream; Fraces] = true →
  lacks ks KShutdownCalled = true → lacks ks KExit = true →
  shutdown_inv s → shutdown_inv s'.
Proof.
  intros Hfoot HT Hl1 Hl2 [H1 H2 H3 H4 H5 H6].
  simpl in HT. rewrite !andb_true_iff, !negb_true_iff in HT.
  destruct HT as (T1 & T2 & T3 & T4 & T5 & _).
  pose proof (foot_unchanged _ _ _ _ _ Hfoot T1) as E1.
  pose proof (foot_unchanged _ _ _ _ _ Hfoot T2) as E2.
  pose proof (foot_unchanged _ _ _ _ _ Hfoot T3) as E3.
  pose proof (foot_unchanged _ _ _ _ _ Hfoot T4) as E4.
  pose proof (foot_unchanged _ _ _ _ _ Hfoot T5) as E5.
  simpl in *.
  split; rewrite ?E1, ?E2, ?E3, ?E4, ?E5; try done.
  - unfold first_shutdown. by rewrite (foot_shutdown_calls _ _ _ _ Hfoot Hl1).
  - by rewrite (foot_exit_codes _ _ _ _ Hfoot Hl2).
Qed.

Ltac steady s0 :=
  apply (shutdown_inv_frame steady_fields steady_kinds s0);
  [ unfold steady_fields, steady_kinds; foot_auto
  | reflexivity | reflexivity | reflexivity | ].

Lemma shutdown_repeated c s :
  isShuttingDown s = true →
  shutdown c s
  = log WARNING (js "Shutdown already in progress...") MAIN
      (emit (ShutdownCalled c) s).
Proof. intros H. unfold shutdown. cbv zeta. simpl. by rewrite H. Qed.

(** After [ShutdownCalled] is recorded, [shutdown] records no other call. *)
Lemma shutdown_rest c s :
  foot shutdown_fields (a_kinds [KLog; KForceKill; KKill])
    (emit (ShutdownCalled c) s) (shutdown c s).
Proof. unfold shutdown, shutdown_fields, service_names. cbn [foldl]. foot_auto. Qed.

Lemma shutdown_first_flags c s :
  isShuttingDown s = false →
  isShuttingDown (shutdown c s) = true ∧ shutdownCode (shutdown c s) = Some c.
Proof.
  intros H. unfold shutdown. cbv zeta. simpl. rewrite H. simpl.
  set (s0 := log _ _ _ _).
  assert (foot [Ftimers; FnextTimer; Fraces; Fhandles] a_stop s0
            (stopProcess stagehand (stopProcess frontend (stopProcess backend s0))))
    as Hfoot by foot_auto.
  split.
  - by rewrite (foot_unchanged _ _ _ _ FisShuttingDown Hfoot eq_refl).
  - by rewrite (foot_unchanged _ _ _ _ FshutdownCode Hfoot eq_refl).
Qed.

Lemma last_cons_nonempty {A} (x : A) l : l ≠ [] → last (x :: l) = last l.
Proof. by destruct l. Qed.

Lemma shutdown_keeps_inv c s : shutdown_inv s → shutdown_inv (shutdown c s).
Proof.
  intros [H1 H2 H3 H4 H5 H6].
  destruct (isShuttingDown s) eqn:Hsd.
  - rewrite shutdown_repeated by done.
    destruct (shutdownCode s) as [c0|] eqn:Hc; [|done].
    set (s1 := emit (ShutdownCalled c) s).
    assert (foot [] (a_kinds [KLog]) s1
              (log WARNING (js "Shutdown already in progress...") MAIN s1))
      as Hfoot by foot_auto.
    split.
    + unfold first_shutdown.
      rewrite (foot_shutdown_calls _ _ _ _ Hfoot eq_refl).
      change (shutdownCode s = last (c :: shutdown_calls (trace s))).
      rewrite last_cons_nonempty; [by rewrite Hc|].
      intros Hnil. unfold first_shutdown in H1. by rewrite Hnil in H1.
    + change (isShuttingDown s = match shutdownCode s with
                                 | Some _ => true | None => false end).
      by rewrite Hc.
    + rewrite (foot_exit_codes _ _ _ _ Hfoot eq_refl). exact H3.
    + intros c' Hex. change (shutdownCode s = Some c'). rewrite Hc.
      by apply H4.
    + intros Hf. change (isShuttingDown s = false) in Hf. congruence.
    + exact H6.
  - destruct (shutdown_first_flags c s Hsd) as [Hf Hcode].
    pose proof (shutdown_rest c s) as Hfoot.
    pose proof (foot_unchanged _ _ _ _ Fexited Hfoot eq_refl) as Eex.
    pose proof (foot_unchanged _ _ _ _ FlogStream Hfoot eq_refl) as Els.
    simpl in Eex, Els.
    destruct (shutdownCode s) as [c0|] eqn:Hc; [done|].
    assert (shutdown_calls (trace s) = []) as Hnone.
    { unfold first_shutdown in H1.
      destruct (shutdown_calls (trace s)) as [|x l] eqn:E; [done|].
      symmetry in H1. by apply last_None in H1. }
    split; rewrite ?Hf, ?Hcode, ?Eex, ?Els; try done.
    + unfold first_shutdown.
      rewrite (foot_shutdown_calls _ _ _ _ Hfoot eq_refl).
      change (Some c = last (c :: shutdown_calls (trace s))).
      by rewrite Hnone.
    + rewrite (foot_exit_codes _ _ _ _ Hfoot eq_refl). exact H3.
    + intros c' Hex. specialize (H4 c' Hex). done.
Qed.

Lemma finishShutdown_trace c s :
  logStream s = Some StreamOpen →
  ∃ line, trace (finishShutdown c s)
          = Exit c :: Console line :: StreamEnd :: trace s.
Proof. intros Hls. unfold finishShutdown. rewrite Hls. by eexists. Qed.

Lemma finishShutdown_exited c s : exited (finishShutdown c s) = Some c.
Proof. unfold finishShutdown. by destruct (logStream s). Qed.

Lemma settle_keeps_inv s : shutdown_inv s → shutdown_inv (settle s).
Proof.
  intros Hinv. unfold settle.
  destruct (shutdownCode s) as [c|] eqn:Hc; [|done].
  destruct (exited s) eqn:Hex; [done|].
  destruct (forallb r_resolved (races s)); [|done].
  destruct Hinv as [H1 H2 H3 H4 H5 H6].
  destruct (finishShutdown_trace c s (H6 Hex)) as [line Ht].
  pose proof (finishShutdown_foot c s) as Hfoot.
  assert (shutdownCode (finishShutdown c s) = shutdownCode s) as E1
    by apply (foot_unchanged _ _ _ _ FshutdownCode Hfoot eq_refl).
  assert (isShuttingDown (finishShutdown c s) = isShuttingDown s) as E2
    by apply (foot_unchanged _ _ _ _ FisShuttingDown Hfoot eq_refl).
  assert (races (finishShutdown c s) = races s) as E3
    by apply (foot_unchanged _ _ _ _ Fraces Hfoot eq_refl).
  split; rewrite ?E1, ?E2, ?E3, ?finishShutdown_exited, ?Ht; try done.
  - change (c :: exit_codes (trace s) = [c]). by rewrite H3, Hex.
  - intros c' [= <-]. done.
Qed.

Lemma resolve_keeps_inv h s : shutdown_inv s → shutdown_inv (resolve h s).
Proof.
  intros [H1 H2 H3 H4 H5 H6]. split; try done.
  intros Hsd. simpl. by rewrite (H5 Hsd).
Qed.

Lemma handleProcessFailure_keeps_inv name s :
  shutdown_inv s → shutdown_inv (handleProcessFailure name s).
Proof.
  intros Hinv.
  destruct (Nat.leb_spec maxRestarts (get (restartCounts s) name)) as [Hle|Hlt].
  - rewrite handleProcessFailure_fatal by done.
    apply shutdown_keeps_inv. by steady s.
  - rewrite handleProcessFailure_restart by done. cbv zeta. by steady s.
Qed.

Lemma raceExit_keeps_inv r s : shutdown_inv s → shutdown_inv (raceExit r s).
Proof.
  intros Hinv. unfold raceExit. apply resolve_keeps_inv. by steady s.
Qed.

Lemma foldl_keeps {B} (P : state -> Prop) (f : state -> B -> state) l :
  (∀ s b, P s → P (f s b)) → ∀ s, P s → P (foldl f s l).
Proof.
  intros Hf. induction l as [|b l IH]; intros s Hs; simpl; [done|].
  apply IH. by apply Hf.
Qed.

Lemma onExit_keeps_inv h code sig s :
  shutdown_inv s → shutdown_inv (onExit h code sig s).
Proof.
  intros Hinv. unfold onExit.
  destruct (handles s !! h) as [hd|]; [|done].
  destruct (h_alive hd); [|done].
  apply foldl_keeps; [intros; by apply raceExit_keeps_inv|].
  destruct (negb (isShuttingDown (emit (ExitObserved h) (mark_gone h s)))).
  - apply handleProcessFailure_keeps_inv. by steady s.
  - by steady s.
Qed.

Lemma onError_keeps_inv h message gone s :
  shutdown_inv s → shutdown_inv (onError h message gone s).
Proof.
  intros Hinv. unfold onError.
  destruct (handles s !! h) as [hd|]; [|done].
  apply handleProcessFailure_keeps_inv. by steady s.
Qed.

Lemma onTimer_keeps_inv id s :
  shutdown_inv s → shutdown_inv (onTimer id s).
Proof.
  intros Hinv. unfold onTimer.
  destruct (find_timer id (timers s)) as [[name|name h|]|]; [| | |done].
  - by steady s.
  - apply resolve_keeps_inv. by steady s.
  - by steady s.
Qed.

Lemma onSignal_keeps_inv sig s :
  shutdown_inv s → shutdown_inv (onSignal sig s).
Proof.
  intros Hinv. unfold onSignal.
  destruct sig; try done; apply shutdown_keeps_inv; by steady s.
Qed.

Lemma handle_event_keeps_inv ev s :
  shutdown_inv s → shutdown_inv (handle_event ev s).
Proof.
  intros Hinv. destruct ev; simpl.
  - by steady s.
  - by steady s.
  - by steady s.
  - by apply onTimer_keeps_inv.
  - by steady s.
  - by steady s.
  - by apply onError_keeps_inv.
  - by apply onExit_keeps_inv.
  - by apply onSignal_keeps_inv.
  - apply shutdown_keeps_inv. by steady s.
  - apply shutdown_keeps_inv. by steady s.
Qed.

Lemma step_keeps_inv ev s : shutdown_inv s → shutdown_inv (step ev s).
Proof.
  intros Hinv. unfold step. destruct (exited s); [done|].
  by apply settle_keeps_inv, handle_event_keeps_inv.
Qed.

Lemma main_inv e fs : shutdown_inv (main e fs).
Proof.
  unfold main, new_UnifiedServer, setupLogging. cbv zeta.
  apply settle_keeps_inv.
  set (s0 := with_logStream (Some StreamOpen) (blank e)).
  assert (shutdown_inv s0) as H0 by (by split).
  unfold start.
  match goal with
  | |- context [checkPrerequisites fs ?s1] =>
      assert (shutdown_inv s1) as H1 by (by steady s0);
      pose proof (checkPrerequisites_foot fs s1) as Hc;
      destruct (checkPrerequisites fs s1) as [[message|] s2]; simpl in Hc
  end.
  - apply shutdown_keeps_inv.
    assert (shutdown_inv s2) as H2.
    { apply (shutdown_inv_frame _ [KLog] _ _
               (foot_use _ _ [FbackendCommand] (a_kinds [KLog]) _ _ Hc eq_refl
                  ltac:(side_A))); done. }
    by steady s2.
  - assert (shutdown_inv s2) as H2.
    { apply (shutdown_inv_frame _ [KLog] _ _
               (foot_use _ _ [FbackendCommand] (a_kinds [KLog]) _ _ Hc eq_refl
                  ltac:(side_A))); done. }
    by steady s2.
Qed.

Lemma reachable_inv s : reachable s → shutdown_inv s.
Proof.
  apply reachable_ind; [apply main_inv|].
  intros ev s' _. apply step_keeps_inv.
Qed.

Lemma In_exit_codes c tr : In (Exit c) tr → In c (exit_codes tr).
Proof.
  induction tr as [|a tr IH]; simpl; [done|].
  intros [->|Hin]; [by left|].
  destruct a; simpl; auto.
Qed.

(** * Spawning while shutting down *)

(** A restart whose delay ends after shutdown has begun spawns nothing. *)
Lemma restart_suppressed id name s :
  find_timer id (timers s) = Some (TRestart name) →
  isShuttingDown s = true →
  onTimer id s = with_timers (drop_timer id (timers s)) s.
Proof. intros Hf Hsd. unfold onTimer. rewrite Hf. simpl. by rewrite Hsd. Qed.

(** C10, at the failing input.  SIGINT arrives during the pause between the
    start of the backend and that of the frontend.  Shutdown has begun and is
    waiting for the two children when the pause ends: [start()] goes on and
    spawns the frontend, the process table gains a handle, and [shutdown]
    neither signals nor waits for the new process, which still runs when the
    supervisor exits. *)
Theorem C10_start_spawns_during_shutdown :
  let before := run signal_during_startup (main env0 fs_ok) in
  let after := step (EvTimer 1) before in
  let final :=
    run [EvExit 0 None (Some (js "SIGTERM")); EvExit 1 None (Some (js "SIGTERM"))]
      after in
  isShuttingDown before = true
  ∧ exited before = None
  ∧ get (processes before) frontend = None
  ∧ get (processes after) frontend = Some 2
  ∧ In (Spawn 2 frontend (CONFIG env0 (js "python") frontend))
       (added before after)
  ∧ races after = races before
  ∧ exited final = Some 0
  ∧ handles final !! 2
    = Some {| h_name := frontend; h_alive := true; h_killed := false |}.
Proof. vm_compute. repeat split; auto 10. Qed.

(** * What a turn adds *)

Lemma added_app new s s' : trace s' = new ++ trace s → added s s' = new.
Proof.
  intros Ht. unfold added. rewrite Ht, length_app.
  replace (length new + length (trace s) - length (trace s)) with (length new)
    by lia.
  by rewrite take_app_length.
Qed.

Lemma foot_added T A s s' :
  foot T A s s' →
  trace s' = added s s' ++ trace s ∧ Forall (A (env s)) (added s s').
Proof.
  intros Hfoot. destruct (foot_new _ _ _ _ Hfoot) as (new & Ht & HA).
  by rewrite (added_app new).
Qed.

Lemma settle_settled s : settled (settle s).
Proof.
  unfold settle.
  destruct (shutdownCode s) as [c|] eqn:Hc;
    [|unfold settled; by rewrite Hc].
  destruct (exited s) eqn:Hex; [unfold settled; by rewrite Hc, Hex|].
  destruct (forallb r_resolved (races s)) eqn:Hall.
  - unfold settled. rewrite finishShutdown_exited.
    destruct (shutdownCode (finishShutdown c s)); exact I.
  - unfold settled. by rewrite Hc, Hex.
Qed.

Lemma reachable_settled s : reachable s → settled s.
Proof.
  apply reachable_ind; [intros; apply settle_settled|].
  intros ev s' _ Hs. unfold step.
  destruct (exited s') eqn:Hex; [done|]. apply settle_settled.
Qed.

(** C3.  Shutdown is idempotent.  In every state the supervisor can reach: a
    call of [shutdown] made while shutdown is in progress only logs the
    warning and returns, no field of the supervisor changes; [process.exit]
    is called at most once over the whole run; the code it is called with is
    the one the first call of [shutdown] was given; and it is called: once
    [shutdown] has been called and every promise it waits for is resolved,
    the supervisor has exited, by exactly one call of [process.exit], with
    the code of the first call. *)
Theorem C3_shutdown_idempotent e fs evs c :
  let s := run evs (main e fs) in
  (isShuttingDown s = true →
     shutdown c s
     = log WARNING (js "Shutdown already in progress...") MAIN
         (emit (ShutdownCalled c) s)
     ∧ ∀ f, unchanged f s (shutdown c s))
  ∧ length (exit_codes (trace s)) ≤ 1
  ∧ (∀ code, In (Exit code) (trace s) → first_shutdown (trace s) = Some code)
  ∧ (∀ code, first_shutdown (trace s) = Some code →
             forallb r_resolved (races s) = true →
             exited s = Some code ∧ exit_codes (trace s) = [code]).
Proof.
  intros s.
  assert (reachable s) as Hr by (by exists e, fs, evs).
  destruct (reachable_inv s Hr) as [H1 H2 H3 H4 H5 H6].
  split; [|split; [|split]].
  - intros Hsd. split; [by apply shutdown_repeated|].
    rewrite shutdown_repeated by done. by intros [].
  - rewrite H3. destruct (exited s); simpl; lia.
  - intros code Hin. apply In_exit_codes in Hin. rewrite H3 in Hin.
    destruct (exited s) as [c0|] eqn:Hex; [|done].
    destruct Hin as [<-|[]]. rewrite <- H1. by apply H4.
  - intros code Hfirst Hall. rewrite <- H1 in Hfirst.
    pose proof (reachable_settled s Hr) as Hset. unfold settled in Hset.
    rewrite Hfirst in Hset. rewrite H3.
    destruct (exited s) as [c0|] eqn:Hex; [|congruence].
    specialize (H4 c0 eq_refl). assert (c0 = code) as -> by congruence.
    done.
Qed.

Lemma C3_shutdown_idempotent_witness :
  let s := run signal_twice (main env0 fs_ok) in
  isShuttingDown (run [EvSignal SIGINT] (main env0 fs_ok)) = true
  ∧ In (Exit 0) (trace s)
  ∧ first_shutdown (trace s) = Some 0
  ∧ shutdown 1 (run [EvSignal SIGINT] (main env0 fs_ok))
    = log WARNING (js "Shutdown already in progress...") MAIN
        (emit (ShutdownCalled 1) (run [EvSignal SIGINT] (main env0 fs_ok)))
  ∧ exit_codes (trace s) = [0].
Proof.
  assert (isShuttingDown (run [EvSignal SIGINT] (main env0 fs_ok)) = true)
    as Hsd by (vm_compute; reflexivity).
  assert (In (Exit 0) (trace (run signal_twice (main env0 fs_ok)))) as Hin
    by (vm_compute; left; reflexivity).
  assert (first_shutdown (trace (run signal_twice (main env0 fs_ok))) = Some 0)
    as Hfirst by (vm_compute; reflexivity).
  assert (forallb r_resolved (races (run signal_twice (main env0 fs_ok)))
          = true) as Hall by (vm_compute; reflexivity).
  split; [exact Hsd|]. split; [exact Hin|]. split; [|split].
  - exact (proj1 (proj2 (proj2 (C3_shutdown_idempotent env0 fs_ok signal_twice
                                  0))) 0 Hin).
  - exact (proj1 (proj1 (C3_shutdown_idempotent env0 fs_ok [EvSignal SIGINT] 1)
                    Hsd)).
  - exact (proj2 (proj2 (proj2 (proj2 (C3_shutdown_idempotent env0 fs_ok
                                         signal_twice 0))) 0 Hfirst Hall)).
Defined.

(** Nothing to finish: the fields [settle] looks at are those of a settled
    state. *)
Lemma settle_same s s' :
  settled s → shutdownCode s' = shutdownCode s → exited s' = exited s →
  races s' = races s → settle s' = s'.
Proof.
  unfold settled, settle. intros Hs -> -> ->.
  destruct (shutdownCode s); [|done]. destruct (exited s); [done|].
  by rewrite Hs.
Qed.

(** * Termination signals *)

Lemma cleanup_request_kind a :
  is_cleanup_request a = true → kind_of a = KFetch ∨ kind_of a = KExec.
Proof. destruct a; simpl; try done; auto. Qed.

Lemma no_cleanup_request ks e new :
  Forall (a_kinds ks e) new →
  lacks ks KFetch = true → lacks ks KExec = true →
  existsb is_cleanup_request new = false.
Proof.
  intros HA H1 H2. induction HA as [|a new Ha _ IH]; [done|]. simpl.
  rewrite IH, orb_false_r.
  destruct (is_cleanup_request a) eqn:Hc; [|done].
  destruct (cleanup_request_kind a Hc) as [Hk|Hk].
  - by destruct (a_kinds_lacks _ _ _ _ H1 Ha).
  - by destruct (a_kinds_lacks _ _ _ _ H2 Ha).
Qed.

(** * Health checks during startup *)

Lemma onHealth_retry name port attempt s :
  pc s = Probing name port attempt → attempt < maxAttempts →
  onHealth false s
  = with_pc (Sleeping name port attempt)
      (setTimeout TResume 2000 (emit (HealthObserved name false) s)).
Proof.
  intros Hpc Hlt. unfold onHealth. rewrite Hpc. cbv zeta.
  destruct (Nat.ltb_spec attempt maxAttempts); [done|lia].
Qed.

Lemma onHealth_timeout name port attempt s :
  pc s = Probing name port attempt → maxAttempts ≤ attempt →
  onHealth false s
  = start_after_wait name
      (log WARNING
         (name_text name ++ js " health check timed out after "
          ++ decimal (N.of_nat (maxAttempts * 2)) ++ js " seconds")
         (UPPER name) (emit (HealthObserved name false) s)).
Proof.
  intros Hpc Hle. unfold onHealth. rewrite Hpc. cbv zeta.
  destruct (Nat.ltb_spec attempt maxAttempts); [lia|done].
Qed.

Lemma resume_next_attempt name port attempt s :
  pc s = Sleeping name port attempt →
  resume s = with_pc (Probing name port (S attempt)) (checkHealth name port s).
Proof. intros Hpc. unfold resume. by rewrite Hpc. Qed.

Lemma start_after_wait_pc name s :
  pc (start_after_wait name s)
  = match name with
    | stagehand => AwaitFetch
    | backend => Probing frontend 5173 1
    | frontend => Started
    end.
Proof. by destruct name. Qed.

(** C6.  In every state the supervisor can reach in which the last health
    check of a service's budget (the 30th) is pending: when that check fails
    too, the supervisor logs the timeout warning and [start()] goes on with
    what follows the wait (session cleanup and the backend after the
    stagehand, the frontend's wait after the backend, the end of startup
    after the frontend).  The turn spawns and kills nothing, sets no timer,
    calls neither the failure handler nor [shutdown], and leaves the restart
    counters, the shutdown flag, the process table and the processes as they
    were. *)
Theorem C6_health_timeout_is_not_fatal (s : state) (name : service) (port : N) :
  reachable s → exited s = None → pc s = Probing name port maxAttempts →
  let s' := step (EvHealth false) s in
  In (Console
        (trim (wrapped_line (toISOString (env s) (dateReads s)) WARNING
                 (UPPER name)
                 (name_text name ++ js " health check timed out after "
                  ++ decimal (N.of_nat (maxAttempts * 2)) ++ js " seconds"))))
     (added s s')
  ∧ pc s' = match name with
            | stagehand => AwaitFetch
            | backend => Probing frontend 5173 1
            | frontend => Started
            end
  ∧ restartCounts s' = restartCounts s
  ∧ isShuttingDown s' = isShuttingDown s
  ∧ shutdownCode s' = shutdownCode s
  ∧ exited s' = None
  ∧ processes s' = processes s
  ∧ handles s' = handles s
  ∧ timers s' = timers s
  ∧ races s' = races s
  ∧ Forall (fun a => has_kind [KLog; KHealth; KExec; KFetch] a = true)
      (added s s').
Proof.
  intros Hr Hex Hpc s'. subst s'. unfold step. rewrite Hex. simpl.
  rewrite (onHealth_timeout name port maxAttempts s Hpc) by done.
  set (s1 := emit (HealthObserved name false) s).
  set (msg := name_text name ++ _).
  set (s2 := log WARNING msg (UPPER name) s1).
  assert (foot [Fpc] (a_kinds [KLog; KExec; KFetch]) s2 (start_after_wait name s2))
    as F3 by apply start_after_wait_foot.
  assert (foot [Fpc] (a_kinds [KLog; KHealth; KExec; KFetch]) s
            (start_after_wait name s2)) as F.
  { eapply foot_trans; [|eapply foot_use; [apply F3|reflexivity|side_A]].
    subst s2 s1. foot_auto. }
  assert (settle (start_after_wait name s2) = start_after_wait name s2) as ->.
  { apply (settle_same s); [by apply reachable_settled| | |].
    - apply (foot_unchanged _ _ _ _ FshutdownCode F eq_refl).
    - apply (foot_unchanged _ _ _ _ Fexited F eq_refl).
    - apply (foot_unchanged _ _ _ _ Fraces F eq_refl). }
  destruct (foot_added _ _ _ _ F) as [Ht HA].
  split.
  { destruct (foot_new _ _ _ _ F3) as (n3 & Ht3 & _).
    rewrite (added_app
               (n3 ++ Console
                        (trim (wrapped_line (toISOString (env s) (dateReads s))
                                 WARNING (UPPER name) msg))
                   :: written (logStream s)
                        (wrapped_line (toISOString (env s) (dateReads s))
                           WARNING (UPPER name) msg)
                   ++ [HealthObserved name false])).
    - apply in_or_app. right. by left.
    - rewrite Ht3. rewrite <- app_assoc. f_equal. simpl. f_equal.
      by rewrite <- app_assoc. }
  split; [apply start_after_wait_pc|].
  split; [apply (foot_unchanged _ _ _ _ FrestartCounts F eq_refl)|].
  split; [apply (foot_unchanged _ _ _ _ FisShuttingDown F eq_refl)|].
  split; [apply (foot_unchanged _ _ _ _ FshutdownCode F eq_refl)|].
  split; [by rewrite (foot_unchanged _ _ _ _ Fexited F eq_refl)|].
  split; [apply (foot_unchanged _ _ _ _ Fprocesses F eq_refl)|].
  split; [apply (foot_unchanged _ _ _ _ Fhandles F eq_refl)|].
  split; [apply (foot_unchanged _ _ _ _ Ftimers F eq_refl)|].
  split; [apply (foot_unchanged _ _ _ _ Fraces F eq_refl)|].
  eapply Forall_impl; [exact HA|]. by intros a [? _].
Qed.

Lemma C6_health_timeout_is_not_fatal_witness :
  let s := run (failed_checks 29) (main env0 fs_ok) in
  pc s = Probing stagehand 8081 30
  ∧ pc (step (EvHealth false) s) = AwaitFetch
  ∧ restartCounts (step (EvHealth false) s) = restartCounts s.
Proof.
  assert (pc (run (failed_checks 29) (main env0 fs_ok))
          = Probing stagehand 8081 maxAttempts) as Hpc
    by (vm_compute; reflexivity).
  assert (exited (run (failed_checks 29) (main env0 fs_ok)) = None) as Hex
    by (vm_compute; reflexivity).
  pose proof (C6_health_timeout_is_not_fatal
                (run (failed_checks 29) (main env0 fs_ok)) stagehand 8081
                (ex_intro _ env0 (ex_intro _ fs_ok
                   (ex_intro _ (failed_checks 29) eq_refl))) Hex Hpc)
    as (_ & Hpc' & Hrc & _).
  split; [exact Hpc|]. split; [exact Hpc'|exact Hrc].
Defined.

(** * The failure handler *)

(** Both failure events end in [handleProcessFailure], reached in a state
    that differs from the one before only in what is known of the process
    and in the log. *)
Lemma failure_event_form ev h hd code sig message gone s :
  handles s !! h = Some hd → h_alive hd = true → races s = [] →
  isShuttingDown s = false →
  ev = EvExit h code sig ∨ ev = EvError h message gone →
  ∃ s1, handle_event ev s = handleProcessFailure (h_name hd) s1
        ∧ foot [Fhandles] (a_kinds [KLog; KExitObserved]) s s1.
Proof.
  intros Hh Ha Hr Hsd [->| ->]; simpl.
  - unfold onExit. rewrite Hh, Ha, Hr. cbv zeta.
    change (isShuttingDown (emit (ExitObserved h) (mark_gone h s)))
      with (isShuttingDown s).
    rewrite Hsd. simpl. eexists. split; [reflexivity|]. foot_auto.
  - unfold onError. rewrite Hh. cbv zeta.
    eexists. split; [reflexivity|]. destruct gone; foot_auto.
Qed.

Lemma last_app_nonempty {A} (l1 l2 : list A) x :
  last l2 = Some x → last (l1 ++ l2) = Some x.
Proof.
  intros Hl. destruct l2 as [|y l2] using rev_ind; [done|].
  rewrite app_assoc, last_snoc. by rewrite last_snoc in Hl.
Qed.

Lemma shutdownCode_step ev c s :
  reachable s → shutdownCode s = Some c → shutdownCode (step ev s) = Some c.
Proof.
  intros Hr Hc.
  pose proof (reachable_inv s Hr) as [H1 _ _ _ _ _].
  pose proof (reachable_inv _ (reachable_step ev s Hr)) as [H1' _ _ _ _ _].
  rewrite H1'. destruct (foot_new _ _ _ _ (step_foot ev s)) as (new & -> & _).
  unfold first_shutdown, shutdown_calls. rewrite omap_app.
  apply last_app_nonempty. fold (shutdown_calls (trace s)).
  fold (first_shutdown (trace s)). congruence.
Qed.

Lemma shutdownCode_run evs c s :
  reachable s → shutdownCode s = Some c → shutdownCode (run evs s) = Some c.
Proof.
  revert s. induction evs as [|ev evs IH]; intros s Hr Hc; [done|].
  simpl. apply IH; [by apply reachable_step|by apply shutdownCode_step].
Qed.

Lemma restartCounts_step ev name s :
  get (restartCounts s) name ≤ get (restartCounts (step ev s)) name.
Proof. by destruct (step_foot ev s) as (_ & _ & _ & _ & Hrc & _). Qed.

Lemma restart_fires id name s :
  find_timer id (timers s) = Some (TRestart name) →
  isShuttingDown s = false →
  handle_event (EvTimer id) s
  = startProcess name (with_timers (drop_timer id (timers s)) s).
Proof. intros Hf Hsd. simpl. unfold onTimer. rewrite Hf. simpl. by rewrite Hsd. Qed.

(** C2.  In every state the supervisor can reach, not shutting down, take a
    failure event (['exit'] or ['error']) of a running process of service
    [name], and let [k] be the number of failures of that service handled so
    far.  The restart counter is [k] capped at the maximum 3.  If [k < 3]
    (this failure is at most the third) the counter becomes [k + 1], one
    timer with delay 5000 ms is set whose callback re-spawns that service,
    and no shutdown starts.  If [k >= 3] (this is the fourth failure) the
    counter stays at 3, [shutdown(1)] runs, and any exit of the supervisor
    afterwards has code 1.  No turn ever lowers a restart counter. *)
Theorem C2_restart_policy e fs evs ev h hd code sig message gone :
  let s := run evs (main e fs) in
  let name := h_name hd in
  let k := countb (is_failure name) (trace s) in
  let s' := step ev s in
  exited s = None → isShuttingDown s = false →
  handles s !! h = Some hd → h_alive hd = true →
  ev = EvExit h code sig ∨ ev = EvError h message gone →
  get (restartCounts s) name = min maxRestarts k
  ∧ (k < maxRestarts →
       get (restartCounts s') name = S k
       ∧ isShuttingDown s' = false ∧ exited s' = None
       ∧ timers s' = (nextTimer s, TRestart name) :: timers s
       ∧ In (SetTimeout (nextTimer s) restartDelay (TRestart name)) (added s s')
       ∧ handle_event (EvTimer (nextTimer s)) s'
         = startProcess name
             (with_timers (drop_timer (nextTimer s) (timers s')) s'))
  ∧ (maxRestarts ≤ k →
       restartCounts s' = restartCounts s
       ∧ isShuttingDown s' = true ∧ shutdownCode s' = Some 1
       ∧ ∀ evs' c, exited (run evs' s') = Some c → c = 1)
  ∧ (∀ ev' name', get (restartCounts s) name'
                  ≤ get (restartCounts (step ev' s)) name').
Proof.
  intros s name k s' Hex Hsd Hh Ha Hev.
  assert (reachable s) as Hr by (by exists e, fs, evs).
  pose proof (reachable_counts s Hr name) as Hcount. fold k in Hcount.
  pose proof (reachable_inv s Hr) as [I1 I2 I3 I4 I5 I6].
  destruct (failure_event_form ev h hd code sig message gone s Hh Ha (I5 Hsd)
              Hsd Hev) as (s1 & Hform & F1).
  fold name in Hform.
  assert (restartCounts s1 = restartCounts s) as Erc
    by apply (foot_unchanged _ _ _ _ FrestartCounts F1 eq_refl).
  assert (isShuttingDown s1 = isShuttingDown s) as Esd
    by apply (foot_unchanged _ _ _ _ FisShuttingDown F1 eq_refl).
  assert (shutdownCode s1 = shutdownCode s) as Esc
    by apply (foot_unchanged _ _ _ _ FshutdownCode F1 eq_refl).
  assert (exited s1 = exited s) as Eex
    by apply (foot_unchanged _ _ _ _ Fexited F1 eq_refl).
  assert (races s1 = races s) as Era
    by apply (foot_unchanged _ _ _ _ Fraces F1 eq_refl).
  assert (timers s1 = timers s) as Eti
    by apply (foot_unchanged _ _ _ _ Ftimers F1 eq_refl).
  assert (nextTimer s1 = nextTimer s) as Ent
    by apply (foot_unchanged _ _ _ _ FnextTimer F1 eq_refl).
  assert (s' = settle (handleProcessFailure name s1)) as Hs'.
  { subst s'. unfold step. by rewrite Hex, Hform. }
  split; [exact Hcount|]. split; [|split].
  - intros Hlt.
    assert (get (restartCounts s1) name < maxRestarts) as Hlt1
      by (rewrite Erc, Hcount; lia).
    rewrite (handleProcessFailure_restart name s1 Hlt1) in Hs'.
    cbv zeta in Hs'.
    match type of Hs' with
    | _ = settle ?t => assert (settle t = t) as Hset
    end.
    { apply (settle_same s); [by apply reachable_settled| | |].
      - exact Esc.
      - exact Eex.
      - exact Era. }
    rewrite Hset in Hs'.
    assert (isShuttingDown s' = false) as Hsd'
      by (rewrite Hs'; simpl; congruence).
    split; [rewrite Hs'; simpl; rewrite get_set_eq, Erc, Hcount; lia|].
    split; [exact Hsd'|].
    split; [rewrite Hs'; simpl; congruence|].
    assert (timers s' = (nextTimer s, TRestart name) :: timers s) as Hti
      by (rewrite Hs'; simpl; congruence).
    split; [exact Hti|]. split.
    + destruct (foot_new _ _ _ _ F1) as (n1 & Ht1 & _).
      rewrite Hs'.
      match goal with
      | |- In _ (added s (setTimeout ?K ?D ?t)) =>
          assert (foot [FrestartCounts] (a_kinds [KLog; KFailure]) s1 t) as F2
            by foot_auto;
          destruct (foot_new _ _ _ _ F2) as (n2' & Ht2' & _);
          assert (∃ n2, trace t = n2 ++ trace s) as [n2 Ht2]
            by (exists (n2' ++ n1); rewrite Ht2', Ht1; by rewrite app_assoc)
      end.
      rewrite (added_app (SetTimeout (nextTimer s) restartDelay (TRestart name)
                            :: n2)).
      * by left.
      * simpl. rewrite Ent. f_equal. exact Ht2.
    + apply restart_fires; [|exact Hsd'].
      rewrite Hti. simpl. by rewrite decide_True.
  - intros Hge.
    assert (maxRestarts ≤ get (restartCounts s1) name) as Hge1
      by (rewrite Erc, Hcount; lia).
    assert (foot [FlogStream; Fexited] a_finish
              (handleProcessFailure name s1)
              (settle (handleProcessFailure name s1))) as F3
      by apply settle_foot.
    assert (restartCounts s' = restartCounts s) as Hrc'.
    { rewrite Hs', (foot_unchanged _ _ _ _ FrestartCounts F3 eq_refl).
      rewrite handleProcessFailure_restartCounts.
      destruct (Nat.leb_spec maxRestarts (get (restartCounts s1) name));
        [done|lia]. }
    assert (isShuttingDown s' = true ∧ shutdownCode s' = Some 1) as [Hf Hc].
    { rewrite Hs', (foot_unchanged _ _ _ _ FisShuttingDown F3 eq_refl),
        (foot_unchanged _ _ _ _ FshutdownCode F3 eq_refl).
      rewrite (handleProcessFailure_fatal name s1 Hge1).
      apply shutdown_first_flags. simpl. congruence. }
    split; [exact Hrc'|]. split; [exact Hf|]. split; [exact Hc|].
    intros evs' c Hexit.
    assert (reachable s') as Hr' by (by apply reachable_step).
    pose proof (shutdownCode_run evs' 1 s' Hr' Hc) as Hc'.
    pose proof (reachable_inv _ (reachable_run evs' s' Hr')) as [_ _ _ J4 _ _].
    specialize (J4 c Hexit). congruence.
  - intros ev' name'. apply restartCounts_step.
Qed.

Lemma C2_restart_policy_witness :
  isShuttingDown (step early_exit (run [] (main env0 fs_ok))) = false
  ∧ shutdownCode (step (EvExit 3 (Some 1%N) None)
                    (run three_failures (main env0 fs_ok))) = Some 1.
Proof.
  pose (hd := {| h_name := stagehand; h_alive := true; h_killed := false |}).
  split.
  - assert (exited (run [] (main env0 fs_ok)) = None) as H1
      by (vm_compute; reflexivity).
    assert (isShuttingDown (run [] (main env0 fs_ok)) = false) as H2
      by (vm_compute; reflexivity).
    assert (handles (run [] (main env0 fs_ok)) !! 0 = Some hd) as H3
      by (vm_compute; reflexivity).
    assert (countb (is_failure (h_name hd)) (trace (run [] (main env0 fs_ok)))
            < maxRestarts) as H4 by (vm_compute; lia).
    pose proof (C2_restart_policy env0 fs_ok [] early_exit 0 hd (Some 1%N) None
                  [] false H1 H2 H3 eq_refl (or_introl eq_refl))
      as (_ & Hrestart & _).
    exact (proj1 (proj2 (Hrestart H4))).
  - assert (exited (run three_failures (main env0 fs_ok)) = None) as H1
      by (vm_compute; reflexivity).
    assert (isShuttingDown (run three_failures (main env0 fs_ok)) = false) as H2
      by (vm_compute; reflexivity).
    assert (handles (run three_failures (main env0 fs_ok)) !! 3 = Some hd) as H3
      by (vm_compute; reflexivity).
    assert (maxRestarts
            ≤ countb (is_failure (h_name hd))
                (trace (run three_failures (main env0 fs_ok)))) as H4
      by (vm_compute; lia).
    pose proof (C2_restart_policy env0 fs_ok three_failures
                  (EvExit 3 (Some 1%N) None) 3 hd (Some 1%N) None [] false
                  H1 H2 H3 eq_refl (or_introl eq_refl))
      as (_ & _ & Hfatal & _).
    exact (proj1 (proj2 (proj2 (Hfatal H4)))).
Defined.

(** * Error events and exit events *)

(** What the history holds has no influence on what the supervisor does. *)
Lemma core_log level message service s : core (log level message service s) = core s.
Proof. reflexivity. Qed.



Lemma core_idem s : core (core s) = core s.
Proof. reflexivity. Qed.








(** * Processes and the process table *)

Lemma foot_evolve T A s s' : foot T A s s' → evolve s s'.
Proof. by intros (_ & _ & _ & ?). Qed.

Lemma foot_flag T A s s' :
  foot T A s s' → isShuttingDown s' = false → isShuttingDown s = false.
Proof.
  intros Hfoot Hf. destruct (foot_evolve _ _ _ _ Hfoot) as (_ & _ & _ & Hsd).
  destruct (isShuttingDown s); [|done]. by rewrite Hsd in Hf.
Qed.

Lemma foot_handle T A s s' h hd :
  foot T A s s' → handles s !! h = Some hd →
  ∃ hd', handles s' !! h = Some hd' ∧ h_name hd' = h_name hd
         ∧ (h_alive hd' = true → h_alive hd = true)
         ∧ (h_killed hd = true → h_killed hd' = true).
Proof.
  intros Hfoot Hh. destruct (foot_evolve _ _ _ _ Hfoot) as ((_ & Hev) & _).
  by apply Hev.
Qed.

Lemma foot_length T A s s' :
  foot T A s s' → length (handles s) ≤ length (handles s').
Proof. intros Hfoot. by destruct (foot_evolve _ _ _ _ Hfoot) as ((? & _) & _). Qed.

Lemma foot_no_force_kill T ks s s' id name h :
  foot T (a_kinds ks) s s' → lacks ks KForceKill = true →
  In (id, TForceKill name h) (timers s') → In (id, TForceKill name h) (timers s).
Proof.
  intros (_ & _ & (new & _ & HA & _ & Hti) & _) Hl Hin.
  destruct (Hti _ _ Hin) as [?|[d Hd]]; [done|].
  rewrite Forall_forall in HA. apply list_elem_of_In in Hd.
  by destruct (a_kinds_lacks _ _ _ _ Hl (HA _ Hd)).
Qed.

Lemma tracked_inv_frame T ks s s' :
  foot T (a_kinds ks) s s' →
  touches T Fprocesses = false → touches T Fhandles = false →
  lacks ks KForceKill = true →
  tracked_inv s → tracked_inv s'.
Proof.
  intros Hfoot T1 T2 Hl [H1 H2 H3].
  pose proof (foot_unchanged _ _ _ _ _ Hfoot T1) as E1.
  pose proof (foot_unchanged _ _ _ _ _ Hfoot T2) as E2.
  simpl in E1, E2.
  split; rewrite ?E1, ?E2.
  - exact H1.
  - intros Hsd. apply H2. by eapply foot_flag.
  - intros Hsd id name h Hin.
    apply (H3 (foot_flag _ _ _ _ Hfoot Hsd) id name h).
    by eapply foot_no_force_kill.
Qed.

(** Once shutdown has begun only the names matter. *)
Lemma tracked_inv_shutting T A s s' :
  foot T A s s' → touches T Fprocesses = false →
  isShuttingDown s' = true →
  tracked_inv s → tracked_inv s'.
Proof.
  intros Hfoot T1 Hsd [H1 _ _].
  pose proof (foot_unchanged _ _ _ _ _ Hfoot T1) as E1. simpl in E1.
  split; rewrite ?E1.
  - intros name h Hp. destruct (H1 name h Hp) as (hd & Hh & Hn).
    destruct (foot_handle _ _ _ _ _ _ Hfoot Hh) as (hd' & Hh' & Hn' & _).
    exists hd'. split; [done|congruence].
  - congruence.
  - congruence.
Qed.

Lemma mark_gone_tracked h s : tracked_inv s → tracked_inv (mark_gone h s).
Proof.
  intros [H1 H2 H3]. split.
  - intros name h' Hp. destruct (H1 name h' Hp) as (hd & Hh & Hn). simpl.
    destruct (decide (h' = h)) as [->|Hne].
    + rewrite list_lookup_alter_eq, Hh. simpl. by eexists.
    + rewrite list_lookup_alter_ne by done. by exists hd.
  - intros Hsd name h' hd Hp. simpl.
    destruct (decide (h' = h)) as [->|Hne].
    + rewrite list_lookup_alter_eq.
      destruct (handles s !! h) as [hd0|] eqn:Hh; simpl; [|done].
      intros [= <-]. simpl. by eapply H2.
    + rewrite list_lookup_alter_ne by done. by eapply H2.
  - exact H3.
Qed.

Lemma startProcess_unfold name s :
  startProcess name s
  = let s0 := match get (processes s) name with
              | Some h => kill h SIGTERM s
              | None => s
              end in
    let cfg := CONFIG (env s0) (backendCommand s0) name in
    with_processes
      (set (processes s0) name (Some (length (handles s0))))
      (emit (Spawn (length (handles s0)) name cfg)
         (with_handles
            (handles s0 ++ [{| h_name := name; h_alive := true;
                               h_killed := false |}])
            (log INFO (js "Working Directory: " ++ cwd cfg) (UPPER name)
               (log INFO (js "Command: " ++ command cfg ++ js " "
                          ++ join (js " ") (args cfg)) (UPPER name)
                  (log INFO (js "Starting " ++ name_text name
                             ++ js " process...") (UPPER name) s0))))).
Proof. reflexivity. Qed.

Lemma kill_lookup_ne h sig s h' :
  h' ≠ h → handles (kill h sig s) !! h' = handles s !! h'.
Proof.
  intros Hne. unfold kill. destruct (handles s !! h) as [hd|]; [|done].
  destruct (h_alive hd); [|done]. simpl. by rewrite list_lookup_insert_ne.
Qed.

Lemma kill_processes h sig s : processes (kill h sig s) = processes s.
Proof. apply (foot_unchanged _ _ _ _ Fprocesses (kill_foot h sig s) eq_refl). Qed.

Lemma kill_length h sig s : length (handles (kill h sig s)) = length (handles s).
Proof.
  unfold kill. destruct (handles s !! h) as [hd|]; [|done].
  destruct (h_alive hd); [|done]. simpl. by rewrite length_insert.
Qed.

Lemma kill_flag h sig s : isShuttingDown (kill h sig s) = isShuttingDown s.
Proof. apply (foot_unchanged _ _ _ _ FisShuttingDown (kill_foot h sig s) eq_refl). Qed.

Lemma kill_timers h sig s : timers (kill h sig s) = timers s.
Proof. apply (foot_unchanged _ _ _ _ Ftimers (kill_foot h sig s) eq_refl). Qed.

Lemma startProcess_tracked name s : tracked_inv s → tracked_inv (startProcess name s).
Proof.
  intros [H1 H2 H3]. rewrite startProcess_unfold. cbv zeta.
  set (s0 := match get (processes s) name with
             | Some h => kill h SIGTERM s
             | None => s
             end).
  assert (processes s0 = processes s) as Ep
    by (subst s0; destruct (get (processes s) name); [apply kill_processes|done]).
  assert (isShuttingDown s0 = isShuttingDown s) as Ef
    by (subst s0; destruct (get (processes s) name); [apply kill_flag|done]).
  assert (timers s0 = timers s) as Et
    by (subst s0; destruct (get (processes s) name); [apply kill_timers|done]).
  assert (length (handles s0) = length (handles s)) as El
    by (subst s0; destruct (get (processes s) name); [apply kill_length|done]).
  assert (∀ m h', m ≠ name → get (processes s) m = Some h' →
                  handles s0 !! h' = handles s !! h') as Eh.
  { intros m h' Hm Hp. subst s0.
    destruct (get (processes s) name) as [h|] eqn:Hpn; [|done].
    apply kill_lookup_ne. intros ->.
    destruct (H1 _ _ Hp) as (hd1 & Hh1 & Hn1).
    destruct (H1 _ _ Hpn) as (hd2 & Hh2 & Hn2). congruence. }
  split; simpl.
  - intros m h' Hp. destruct (decide (name = m)) as [<-|Hne].
    + rewrite get_set_eq in Hp. injection Hp as <-.
      rewrite lookup_app_r, Nat.sub_diag by done. simpl. by eexists.
    + rewrite get_set_ne, Ep in Hp by done.
      destruct (H1 _ _ Hp) as (hd & Hh & Hn).
      exists hd. split; [|done].
      apply lookup_app_l_Some. rewrite Eh with (m := m); auto.
  - rewrite Ef. intros Hsd m h' hd Hp. destruct (decide (name = m)) as [<-|Hne].
    + rewrite get_set_eq in Hp. injection Hp as <-.
      rewrite lookup_app_r, Nat.sub_diag by done. simpl. by intros [= <-].
    + rewrite get_set_ne, Ep in Hp by done.
      destruct (H1 _ _ Hp) as (hd0 & Hh & Hn).
      rewrite lookup_app_l by (rewrite El; by eapply lookup_lt_Some).
      rewrite Eh with (m := m) by auto. by eapply H2.
  - rewrite Ef, Et. exact H3.
Qed.

Lemma shutdown_flag c s : isShuttingDown (shutdown c s) = true.
Proof.
  destruct (isShuttingDown s) eqn:Hsd.
  - by rewrite shutdown_repeated.
  - by apply shutdown_first_flags.
Qed.

Ltac untracked s0 :=
  apply (tracked_inv_frame untracked_fields untracked_kinds s0);
  [ unfold untracked_fields, untracked_kinds; foot_auto
  | reflexivity | reflexivity | reflexivity | ].

Lemma shutdown_tracked c s : tracked_inv s → tracked_inv (shutdown c s).
Proof.
  intros Hinv.
  apply (tracked_inv_shutting _ _ s _ (shutdown_foot c s) eq_refl);
    [apply shutdown_flag|done].
Qed.

Lemma handleProcessFailure_tracked name s :
  tracked_inv s → tracked_inv (handleProcessFailure name s).
Proof.
  intros Hinv.
  destruct (Nat.leb_spec maxRestarts (get (restartCounts s) name)) as [Hle|Hlt].
  - rewrite handleProcessFailure_fatal by done.
    apply shutdown_tracked. by untracked s.
  - rewrite handleProcessFailure_restart by done. cbv zeta. by untracked s.
Qed.

Lemma resolve_tracked h s : tracked_inv s → tracked_inv (resolve h s).
Proof. intros [H1 H2 H3]. unfold resolve. split; [exact H1|exact H2|exact H3]. Qed.

Lemma raceExit_tracked r s : tracked_inv s → tracked_inv (raceExit r s).
Proof. intros Hinv. unfold raceExit. apply resolve_tracked. by untracked s. Qed.

Lemma onExit_tracked h code sig s : tracked_inv s → tracked_inv (onExit h code sig s).
Proof.
  intros Hinv. unfold onExit.
  destruct (handles s !! h) as [hd|]; [|done].
  destruct (h_alive hd); [|done].
  apply foldl_keeps; [intros; by apply raceExit_tracked|].
  assert (tracked_inv (emit (ExitObserved h) (mark_gone h s))) as H1.
  { pose proof (mark_gone_tracked h s Hinv). by untracked (mark_gone h s). }
  destruct (negb (isShuttingDown (emit (ExitObserved h) (mark_gone h s)))).
  - apply handleProcessFailure_tracked.
    by untracked (emit (ExitObserved h) (mark_gone h s)).
  - by untracked (emit (ExitObserved h) (mark_gone h s)).
Qed.

Lemma onError_tracked h message gone s :
  tracked_inv s → tracked_inv (onError h message gone s).
Proof.
  intros Hinv. unfold onError.
  destruct (handles s !! h) as [hd|]; [|done].
  apply handleProcessFailure_tracked.
  destruct gone.
  - assert (tracked_inv (mark_gone h s)) as H1 by (by apply mark_gone_tracked).
    by untracked (mark_gone h s).
  - by untracked s.
Qed.

Lemma find_timer_In id k l : find_timer id l = Some k → In (id, k) l.
Proof.
  induction l as [|[i k'] l IH]; simpl; [done|].
  destruct (decide (i = id)) as [->|Hne]; [intros [= ->]; by left|].
  intros Hf. right. by apply IH.
Qed.

Lemma drop_timer_tracked id s :
  tracked_inv s → tracked_inv (with_timers (drop_timer id (timers s)) s).
Proof.
  intros [H1 H2 H3]. split; [exact H1|exact H2|].
  intros Hsd id' name h Hin. apply (H3 Hsd id' name h).
  exact (drop_timer_In id (timers s) _ Hin).
Qed.

Lemma waitForHealthcheck_tracked name port s :
  tracked_inv s → tracked_inv (waitForHealthcheck name port s).
Proof. intros Hinv. by untracked s. Qed.

Lemma resume_tracked s : tracked_inv s → tracked_inv (resume s).
Proof.
  intros Hinv. unfold resume.
  destruct (pc s); try done.
  - by untracked s.
  - by untracked s.
  - apply waitForHealthcheck_tracked. by apply startProcess_tracked.
Qed.

Lemma onTimer_tracked id s : tracked_inv s → tracked_inv (onTimer id s).
Proof.
  intros Hinv. unfold onTimer.
  destruct (find_timer id (timers s)) as [k|] eqn:Hf; [|done].
  pose proof (drop_timer_tracked id s Hinv) as Hd.
  destruct k as [name|name h|].
  - destruct (negb (isShuttingDown _)); [by apply startProcess_tracked|done].
  - assert (isShuttingDown s = true) as Hsd.
    { destruct (isShuttingDown s) eqn:Hsd; [done|].
      destruct Hinv as [_ _ H3].
      by destruct (H3 Hsd id name h (find_timer_In _ _ _ Hf)). }
    match goal with
    | |- tracked_inv ?t =>
        assert (foot [Ftimers; Fhandles; Fraces] (a_kinds [KLog; KKill]) s t)
          as F by foot_auto
    end.
    apply (tracked_inv_shutting _ _ s _ F eq_refl); [|done].
    destruct (foot_evolve _ _ _ _ F) as (_ & _ & _ & Hmono). by apply Hmono.
  - by apply resume_tracked.
Qed.

Lemma onFetch_tracked r s : tracked_inv s → tracked_inv (onFetch r s).
Proof.
  intros Hinv. unfold onFetch. destruct (pc s); try done.
  match goal with
  | |- tracked_inv (with_pc _ (setTimeout _ _ (startProcess backend ?t))) =>
      assert (tracked_inv t) as H1 by (destruct r; by untracked s);
      pose proof (startProcess_tracked backend t H1) as H2;
      by untracked (startProcess backend t)
  end.
Qed.

Lemma onSignal_tracked sig s : tracked_inv s → tracked_inv (onSignal sig s).
Proof.
  intros Hinv. unfold onSignal.
  destruct sig; try done; apply shutdown_tracked; by untracked s.
Qed.

Lemma handle_event_tracked ev s : tracked_inv s → tracked_inv (handle_event ev s).
Proof.
  intros Hinv. destruct ev; simpl.
  - by untracked s.
  - by untracked s.
  - by apply onFetch_tracked.
  - by apply onTimer_tracked.
  - by untracked s.
  - by untracked s.
  - by apply onError_tracked.
  - by apply onExit_tracked.
  - by apply onSignal_tracked.
  - apply shutdown_tracked. by untracked s.
  - apply shutdown_tracked. by untracked s.
Qed.

Lemma step_tracked ev s : tracked_inv s → tracked_inv (step ev s).
Proof.
  intros Hinv. unfold step. destruct (exited s); [done|].
  pose proof (handle_event_tracked ev s Hinv). by untracked (handle_event ev s).
Qed.

Lemma main_tracked e fs : tracked_inv (main e fs).
Proof.
  unfold main, new_UnifiedServer.
  assert (tracked_inv (blank e)) as H0.
  { split; [by intros []|by intros _ [] ? ? ?|by intros _ ? ? ? []]. }
  assert (tracked_inv (setupLogging (blank e))) as H1 by (by untracked (blank e)).
  assert (tracked_inv (start fs (setupLogging (blank e)))) as H2.
  { unfold start.
    pose proof (checkPrerequisites_foot fs (setupLogging (blank e))) as Hc.
    destruct (checkPrerequisites fs (setupLogging (blank e))) as [[message|] s2];
      simpl in Hc;
      assert (tracked_inv s2) as H2
        by (apply (tracked_inv_frame _ [KLog] _ _
                     (foot_use _ _ [FbackendCommand] (a_kinds [KLog]) _ _ Hc
                        eq_refl ltac:(side_A))); done).
    - apply shutdown_tracked. by untracked s2.
    - apply waitForHealthcheck_tracked, startProcess_tracked. by untracked s2. }
  by untracked (start fs (setupLogging (blank e))).
Qed.

Lemma reachable_tracked s : reachable s → tracked_inv s.
Proof.
  apply reachable_ind; [apply main_tracked|].
  intros ev s' _. apply step_tracked.
Qed.

(** * The promises of shutdown *)

Lemma foot_stopped T A s s' h : foot T A s s' → stopped s h → stopped s' h.
Proof.
  intros Hfoot (hd & Hh & Ha).
  destruct (foot_handle _ _ _ _ _ _ Hfoot Hh) as (hd' & Hh' & _ & Hal & _).
  exists hd'. split; [done|].
  destruct (h_alive hd'); [|done]. rewrite Hal in Ha; done.
Qed.

Lemma foot_In_trace T A s s' a : foot T A s s' → In a (trace s) → In a (trace s').
Proof.
  intros Hfoot Hin. destruct (foot_new _ _ _ _ Hfoot) as (new & -> & _).
  apply in_or_app. by right.
Qed.

Lemma races_inv_frame T ks s s' :
  foot T (a_kinds ks) s s' → touches T Fraces = false →
  lacks ks KForceKill = true →
  races_inv s → races_inv s'.
Proof.
  intros Hfoot T1 Hl [H1 H2 H3].
  pose proof (foot_unchanged _ _ _ _ _ Hfoot T1) as E1. simpl in E1.
  split; rewrite ?E1.
  - intros r Hr. pose proof (foot_length _ _ _ _ Hfoot).
    specialize (H1 r Hr). lia.
  - intros r Hr Hres. destruct (H2 r Hr Hres) as [?|?];
      [left; by eapply foot_stopped|right; by eapply foot_In_trace].
  - intros id d name h Hin.
    destruct (foot_new _ _ _ _ Hfoot) as (new & Ht & HA).
    rewrite Ht in Hin. apply in_app_or in Hin as [Hin|Hin].
    + rewrite Forall_forall in HA. apply list_elem_of_In in Hin.
      by destruct (a_kinds_lacks _ _ _ _ Hl (HA _ Hin)).
    + by eapply H3.
Qed.

Ltac raceless s0 :=
  apply (races_inv_frame raceless_fields raceless_kinds s0);
  [ unfold raceless_fields, raceless_kinds; foot_auto
  | reflexivity | reflexivity | ].

Lemma resolve_races h s :
  (h < length (handles s) → stopped s h ∨ In (Kill h SIGKILL) (trace s)) →
  races_inv s → races_inv (resolve h s).
Proof.
  intros Hh [H1 H2 H3]. split.
  - intros r Hr. simpl in Hr. apply in_map_iff in Hr as (r0 & <- & Hr0).
    destruct (decide (r_handle r0 = h)); simpl; by apply H1.
  - intros r Hr Hres. simpl in Hr. apply in_map_iff in Hr as (r0 & <- & Hr0).
    change (trace (resolve h s)) with (trace s).
    change (stopped (resolve h s)) with (stopped s).
    destruct (decide (r_handle r0 = h)) as [Heq|Hne]; simpl in *.
    + rewrite Heq. apply Hh. rewrite <- Heq. by apply H1.
    + by apply H2.
  - intros id d name h' Hin. destruct (H3 id d name h' Hin) as (r & Hr & Hrh).
    eexists. split; [apply in_map_iff; eexists; split; [reflexivity|exact Hr]|].
    by destruct (decide (r_handle r = h)).
Qed.

Lemma stopProcess_unfold name h hd s :
  get (processes s) name = Some h → handles s !! h = Some hd →
  h_killed hd = false →
  stopProcess name s
  = kill h SIGTERM
      (log INFO (js "Stopping " ++ name_text name ++ js " process...")
         (UPPER name)
         (with_races (races s ++ [race_of name h (nextTimer s)])
            (setTimeout (TForceKill name h) 10000 s))).
Proof. intros Hp Hh Hk. unfold stopProcess. by rewrite Hp, Hh, Hk. Qed.

Lemma stopProcess_skip name s :
  (∀ h hd, get (processes s) name = Some h → handles s !! h = Some hd →
           h_killed hd = true) →
  stopProcess name s = s.
Proof.
  intros Hk. unfold stopProcess.
  destruct (get (processes s) name) as [h|]; [|done].
  destruct (handles s !! h) as [hd|] eqn:Hh; [|done].
  by rewrite (Hk h hd eq_refl Hh).
Qed.

Lemma stopProcess_cases name s :
  stopProcess name s = s
  ∨ ∃ h hd, get (processes s) name = Some h ∧ handles s !! h = Some hd
            ∧ h_killed hd = false.
Proof.
  unfold stopProcess.
  destruct (get (processes s) name) as [h|]; [|by left].
  destruct (handles s !! h) as [hd|] eqn:Hh; [|by left].
  destruct (h_killed hd) eqn:Hk; [by left|].
  right. by exists h, hd.
Qed.

Lemma stopProcess_races name s : races_inv s → races_inv (stopProcess name s).
Proof.
  intros Hinv.
  destruct (stopProcess_cases name s) as [->|(h & hd & Hp & Hh & Hk)]; [done|].
  rewrite (stopProcess_unfold name h hd) by done.
  assert (races_inv (with_races (races s ++ [race_of name h (nextTimer s)])
                       (setTimeout (TForceKill name h) 10000 s))) as H2.
  { destruct Hinv as [H1 H2 H3]. split.
    - intros r Hr. simpl in Hr. apply in_app_or in Hr as [Hr|[<-|[]]].
      + by apply H1.
      + simpl. by eapply lookup_lt_Some.
    - intros r Hr Hres. simpl in Hr. apply in_app_or in Hr as [Hr|[<-|[]]].
      + destruct (H2 r Hr Hres) as [?|?]; [by left|right; by right].
      + done.
    - intros id d name' h' Hin. simpl in Hin. destruct Hin as [Heq|Hin].
      + injection Heq as <- <- <- <-. exists (race_of name h (nextTimer s)).
        split; [|done]. simpl. apply in_or_app. right. by left.
      + destruct (H3 id d name' h' Hin) as (r & Hr & Hrh).
        exists r. split; [|done]. simpl. apply in_or_app. by left. }
  set (s2 := with_races (races s ++ [race_of name h (nextTimer s)])
               (setTimeout (TForceKill name h) 10000 s)) in *.
  by raceless s2.
Qed.

Lemma shutdown_races c s : races_inv s → races_inv (shutdown c s).
Proof.
  intros Hinv. unfold shutdown. cbv zeta.
  destruct (isShuttingDown (emit (ShutdownCalled c) s)); [by raceless s|].
  apply foldl_keeps; [intros; by apply stopProcess_races|].
  by raceless s.
Qed.

Lemma handleProcessFailure_races name s :
  races_inv s → races_inv (handleProcessFailure name s).
Proof.
  intros Hinv.
  destruct (Nat.leb_spec maxRestarts (get (restartCounts s) name)) as [Hle|Hlt].
  - rewrite handleProcessFailure_fatal by done.
    apply shutdown_races. by raceless s.
  - rewrite handleProcessFailure_restart by done. cbv zeta. by raceless s.
Qed.

Lemma raceExit_races r s :
  stopped s (r_handle r) → races_inv s → races_inv (raceExit r s).
Proof.
  intros Hst Hinv. unfold raceExit. cbv zeta.
  match goal with
  | |- races_inv (resolve _ ?t) =>
      assert (foot [Ftimers] (a_kinds [KLog; KClearTimeout]) s t) as F
        by foot_auto
  end.
  apply resolve_races.
  - intros _. left. by eapply foot_stopped.
  - by apply (races_inv_frame _ _ _ _ F).
Qed.

Lemma foldl_raceExit_races h l s :
  Forall (fun r => r_handle r = h) l → stopped s h → races_inv s →
  races_inv (foldl (fun s r => raceExit r s) s l).
Proof.
  revert s. induction l as [|r l IH]; intros s Hl Hst Hinv; simpl; [done|].
  inversion Hl as [|? ? Hr Hl']; subst.
  apply IH; [done| |].
  - by eapply foot_stopped; [apply raceExit_foot|].
  - by apply raceExit_races.
Qed.

Lemma mark_gone_stopped h hd s :
  handles s !! h = Some hd → stopped (mark_gone h s) h.
Proof.
  intros Hh. unfold stopped, mark_gone. simpl.
  rewrite list_lookup_alter_eq, Hh. simpl. by eexists.
Qed.

Lemma onExit_races h code sig s : races_inv s → races_inv (onExit h code sig s).
Proof.
  intros Hinv. unfold onExit.
  destruct (handles s !! h) as [hd|] eqn:Hh; [|done].
  destruct (h_alive hd); [|done]. cbv zeta.
  assert (races_inv (emit (ExitObserved h) (mark_gone h s))) as H1
    by (by raceless s).
  assert (stopped (emit (ExitObserved h) (mark_gone h s)) h) as St1
    by (by apply (mark_gone_stopped h hd)).
  set (s1 := emit (ExitObserved h) (mark_gone h s)) in *.
  apply (foldl_raceExit_races h).
  - apply Forall_forall. intros r Hr.
    apply list_elem_of_filter in Hr. by destruct Hr.
  - destruct (negb (isShuttingDown s1)).
    + eapply foot_stopped; [apply handleProcessFailure_foot|].
      eapply foot_stopped; [|exact St1].
      apply (foot_log [] (a_kinds [KLog])); [level_ok|service_ok|side_A].
    + eapply foot_stopped; [|exact St1].
      apply (foot_log [] (a_kinds [KLog])); [level_ok|service_ok|side_A].
  - destruct (negb (isShuttingDown s1)).
    + apply handleProcessFailure_races. by raceless s1.
    + by raceless s1.
Qed.

Lemma onError_races h message gone s :
  races_inv s → races_inv (onError h message gone s).
Proof.
  intros Hinv. unfold onError.
  destruct (handles s !! h) as [hd|]; [|done].
  apply handleProcessFailure_races. by raceless s.
Qed.

Lemma kill_effect h sig s :
  h < length (handles s) →
  stopped (kill h sig s) h ∨ In (Kill h sig) (trace (kill h sig s)).
Proof.
  intros Hlt. unfold kill.
  destruct (handles s !! h) as [hd|] eqn:Hh.
  - destruct (h_alive hd) eqn:Ha.
    + right. by left.
    + left. by exists hd.
  - apply lookup_ge_None in Hh. lia.
Qed.

Lemma onTimer_races id s : races_inv s → races_inv (onTimer id s).
Proof.
  intros Hinv. unfold onTimer.
  destruct (find_timer id (timers s)) as [[name|name h|]|]; [| | |done].
  - by raceless s.
  - cbv zeta.
    match goal with
    | |- races_inv (resolve h (kill h SIGKILL ?t)) =>
        assert (races_inv t) as H1 by (by raceless s)
    end.
    apply resolve_races.
    + rewrite kill_length. apply kill_effect.
    + match goal with
      | |- races_inv (kill h SIGKILL ?t) => by raceless t
      end.
  - by raceless s.
Qed.

Lemma onSignal_races sig s : races_inv s → races_inv (onSignal sig s).
Proof.
  intros Hinv. unfold onSignal.
  destruct sig; try done; apply shutdown_races; by raceless s.
Qed.

Lemma handle_event_races ev s : races_inv s → races_inv (handle_event ev s).
Proof.
  intros Hinv. destruct ev; simpl.
  - by raceless s.
  - by raceless s.
  - by raceless s.
  - by apply onTimer_races.
  - by raceless s.
  - by raceless s.
  - by apply onError_races.
  - by apply onExit_races.
  - by apply onSignal_races.
  - apply shutdown_races. by raceless s.
  - apply shutdown_races. by raceless s.
Qed.

Lemma step_races ev s : races_inv s → races_inv (step ev s).
Proof.
  intros Hinv. unfold step. destruct (exited s); [done|].
  pose proof (handle_event_races ev s Hinv). by raceless (handle_event ev s).
Qed.

Lemma main_races e fs : races_inv (main e fs).
Proof.
  unfold main, new_UnifiedServer.
  assert (races_inv (blank e)) as H0.
  { split; [by intros ? []|by intros ? []|by intros ? ? ? ? []]. }
  assert (races_inv (setupLogging (blank e))) as H1 by (by raceless (blank e)).
  assert (races_inv (start fs (setupLogging (blank e)))) as H2.
  { unfold start.
    pose proof (checkPrerequisites_foot fs (setupLogging (blank e))) as Hc.
    destruct (checkPrerequisites fs (setupLogging (blank e))) as [[message|] s2];
      simpl in Hc;
      assert (races_inv s2) as H2
        by (apply (races_inv_frame _ [KLog] _ _
                     (foot_use _ _ [FbackendCommand] (a_kinds [KLog]) _ _ Hc
                        eq_refl ltac:(side_A))); done).
    - apply shutdown_races. by raceless s2.
    - by raceless s2. }
  by raceless (start fs (setupLogging (blank e))).
Qed.

Lemma reachable_races s : reachable s → races_inv s.
Proof.
  apply reachable_ind; [apply main_races|].
  intros ev s' _. apply step_races.
Qed.

(** ** The end of shutdown *)

Lemma settle_exit s :
  exited s = None → logStream s = Some StreamOpen → exit_inv (settle s).
Proof.
  intros Hex Hls c. unfold settle.
  destruct (shutdownCode s) as [c0|]; [|by rewrite Hex].
  rewrite Hex.
  destruct (forallb r_resolved (races s)) eqn:Hall; [|by rewrite Hex].
  rewrite finishShutdown_exited. intros [= <-].
  split.
  - assert (races (finishShutdown c0 s) = races s) as ->
      by apply (foot_unchanged _ _ _ _ Fraces (finishShutdown_foot c0 s)
                  eq_refl).
    intros r Hr. rewrite forallb_forall in Hall. by apply Hall.
  - destruct (finishShutdown_trace c0 s Hls) as [line ->]. by eexists _, _.
Qed.

Lemma start_inv e fs : shutdown_inv (start fs (new_UnifiedServer e)).
Proof.
  unfold new_UnifiedServer, setupLogging. cbv zeta.
  set (s0 := with_logStream (Some StreamOpen) (blank e)).
  assert (shutdown_inv s0) as H0 by (by split).
  unfold start.
  match goal with
  | |- context [checkPrerequisites fs ?s1] =>
      assert (shutdown_inv s1) as H1 by (by steady s0);
      pose proof (checkPrerequisites_foot fs s1) as Hc;
      destruct (checkPrerequisites fs s1) as [[message|] s2]; simpl in Hc
  end.
  - apply shutdown_keeps_inv.
    assert (shutdown_inv s2) as H2.
    { apply (shutdown_inv_frame _ [KLog] _ _
               (foot_use _ _ [FbackendCommand] (a_kinds [KLog]) _ _ Hc eq_refl
                  ltac:(side_A))); done. }
    by steady s2.
  - assert (shutdown_inv s2) as H2.
    { apply (shutdown_inv_frame _ [KLog] _ _
               (foot_use _ _ [FbackendCommand] (a_kinds [KLog]) _ _ Hc eq_refl
                  ltac:(side_A))); done. }
    by steady s2.
Qed.

Lemma handle_event_exited ev s : exited (handle_event ev s) = exited s.
Proof.
  apply (foot_unchanged _ _ _ _ Fexited (handle_event_foot ev s) eq_refl).
Qed.

Lemma reachable_exit s : reachable s → exit_inv s.
Proof.
  intros Hr. pose proof Hr as Hr0. revert s Hr Hr0.
  apply (reachable_ind (fun s => reachable s → exit_inv s)).
  - intros e fs _. unfold main.
    pose proof (start_inv e fs) as [_ _ _ _ _ H6].
    assert (exited (start fs (new_UnifiedServer e)) = None) as Hex
      by apply (foot_unchanged _ _ _ _ Fexited
                  (start_foot fs (new_UnifiedServer e)) eq_refl).
    apply settle_exit; auto.
  - intros ev s Hr IH _. unfold step.
    destruct (exited s) eqn:Hex; [by apply IH|].
    pose proof (handle_event_keeps_inv ev s (reachable_inv s Hr))
      as [_ _ _ _ _ H6].
    assert (exited (handle_event ev s) = None) as Hex'
      by (by rewrite handle_event_exited).
    apply settle_exit; auto.
Qed.

(** * Shutdown of the tracked processes *)

Lemma since_added a s s' : since (trace s) a s' → In a (added s s').
Proof. intros (new & Ht & Hin). by rewrite (added_app new). Qed.

Lemma foot_since T A tr0 a s s' : foot T A s s' → since tr0 a s → since tr0 a s'.
Proof.
  intros Hfoot (new & Ht & Hin).
  destruct (foot_new _ _ _ _ Hfoot) as (new' & Ht' & _).
  exists (new' ++ new). split; [by rewrite Ht', Ht, app_assoc|].
  apply in_or_app. by right.
Qed.

Lemma since_older T A a s0 s1 s2 :
  foot T A s0 s1 → since (trace s1) a s2 → since (trace s0) a s2.
Proof.
  intros Hfoot (new & Ht & Hin).
  destruct (foot_new _ _ _ _ Hfoot) as (new' & Ht' & _).
  exists (new ++ new'). split; [by rewrite Ht, Ht', app_assoc|].
  apply in_or_app. by left.
Qed.

Lemma since_cons tr0 a s0 s1 :
  (∃ new, trace s0 = new ++ tr0) → trace s1 = a :: trace s0 → since tr0 a s1.
Proof.
  intros [new Ht] Ht1. exists (a :: new). split; [by rewrite Ht1, Ht|by left].
Qed.

Lemma foot_extends T A tr0 s s' :
  foot T A s s' → (∃ new, trace s = new ++ tr0) → ∃ new, trace s' = new ++ tr0.
Proof.
  intros Hfoot [new Ht]. destruct (foot_new _ _ _ _ Hfoot) as (new' & Ht' & _).
  exists (new' ++ new). by rewrite Ht', Ht, app_assoc.
Qed.

Lemma kill_nextTimer h sig s : nextTimer (kill h sig s) = nextTimer s.
Proof. apply (foot_unchanged _ _ _ _ FnextTimer (kill_foot h sig s) eq_refl). Qed.

Lemma kill_races h sig s : races (kill h sig s) = races s.
Proof. apply (foot_unchanged _ _ _ _ Fraces (kill_foot h sig s) eq_refl). Qed.

Lemma kill_running h sig s hd :
  handles s !! h = Some hd → h_alive hd = true →
  trace (kill h sig s) = Kill h sig :: trace s.
Proof. intros Hh Ha. unfold kill. by rewrite Hh, Ha. Qed.

(** What one iteration of the loop does for a process object on which
    [kill] has not been called. *)
Lemma stopProcess_self tr0 name h hd s :
  get (processes s) name = Some h → handles s !! h = Some hd →
  h_killed hd = false → (∃ new, trace s = new ++ tr0) →
  let s' := stopProcess name s in
  nextTimer s < nextTimer s'
  ∧ find_timer (nextTimer s) (timers s') = Some (TForceKill name h)
  ∧ In (race_of name h (nextTimer s)) (races s')
  ∧ since tr0 (SetTimeout (nextTimer s) 10000 (TForceKill name h)) s'
  ∧ (h_alive hd = true → since tr0 (Kill h SIGTERM) s').
Proof.
  intros Hp Hh Hk Hext. cbv zeta.
  rewrite (stopProcess_unfold name h hd) by done.
  rewrite kill_nextTimer, kill_timers, kill_races.
  split; [simpl; lia|]. split; [simpl; by rewrite decide_True|].
  split; [simpl; apply in_or_app; right; by left|].
  assert (since tr0 (SetTimeout (nextTimer s) 10000 (TForceKill name h))
            (setTimeout (TForceKill name h) 10000 s)) as Hs
    by (by apply (since_cons tr0 _ s)).
  match goal with
  | |- since _ _ (kill _ _ ?t) ∧ _ =>
      assert (foot [Fraces] (a_kinds [KLog])
                (setTimeout (TForceKill name h) 10000 s) t) as F by foot_auto;
      assert (handles t !! h = Some hd) as Hh' by exact Hh
  end.
  split.
  - eapply foot_since; [apply kill_foot|]. by eapply foot_since.
  - intros Ha. eapply since_cons; [|by apply (kill_running h SIGTERM _ hd)].
    eapply foot_extends; [exact F|].
    eapply foot_extends; [apply setTimeout_foot|done].
Qed.

(** What the other iterations leave of it. *)
Lemma stopProcess_later n id k s :
  id < nextTimer s → find_timer id (timers s) = Some k →
  id < nextTimer (stopProcess n s)
  ∧ find_timer id (timers (stopProcess n s)) = Some k.
Proof.
  intros Hlt Hf.
  destruct (stopProcess_cases n s) as [->|(h & hd & Hp & Hh & Hk)]; [done|].
  rewrite (stopProcess_unfold n h hd) by done.
  rewrite kill_nextTimer, kill_timers. simpl.
  split; [lia|]. rewrite decide_False by lia. done.
Qed.

Lemma stopProcess_races_grow n r s :
  In r (races s) → In r (races (stopProcess n s)).
Proof.
  intros Hin.
  destruct (stopProcess_cases n s) as [->|(h & hd & Hp & Hh & Hk)]; [done|].
  rewrite (stopProcess_unfold n h hd) by done.
  rewrite kill_races. simpl. apply in_or_app. by left.
Qed.

Lemma stopProcess_lookup_ne n s h :
  (∀ h', get (processes s) n = Some h' → h' ≠ h) →
  handles (stopProcess n s) !! h = handles s !! h.
Proof.
  intros Hne.
  destruct (stopProcess_cases n s) as [->|(h' & hd & Hp & Hh & Hk)]; [done|].
  rewrite (stopProcess_unfold n h' hd) by done.
  rewrite kill_lookup_ne by (intros ->; by apply (Hne h')). done.
Qed.

Lemma stopProcess_processes n s : processes (stopProcess n s) = processes s.
Proof.
  apply (foot_unchanged _ _ _ _ Fprocesses (stopProcess_foot n s) eq_refl).
Qed.

Lemma stop_all tr0 name h hd names :
  In name names →
  ∀ s, (∀ n h', get (processes s) n = Some h' →
                ∃ hd', handles s !! h' = Some hd' ∧ h_name hd' = n) →
       get (processes s) name = Some h → handles s !! h = Some hd →
       h_killed hd = false → (∃ new, trace s = new ++ tr0) →
       let s' := foldl (fun s n => stopProcess n s) s names in
       ∃ id, id < nextTimer s'
             ∧ find_timer id (timers s') = Some (TForceKill name h)
             ∧ In (race_of name h id) (races s')
             ∧ since tr0 (SetTimeout id 10000 (TForceKill name h)) s'
             ∧ (h_alive hd = true → since tr0 (Kill h SIGTERM) s').
Proof.
  induction names as [|n names IH]; [done|].
  intros Hin s Hnamed Hp Hh Hk Hext. cbv zeta. simpl.
  destruct (decide (n = name)) as [->|Hne].
  - destruct (stopProcess_self tr0 name h hd s Hp Hh Hk Hext)
      as (Q1 & Q2 & Q3 & Q4 & Q5).
    exists (nextTimer s).
    clear IH Hin Hnamed Hp Hh Hk Hext.
    revert Q1 Q2 Q3 Q4 Q5. generalize (stopProcess name s) as s1.
    generalize (nextTimer s) as id.
    induction names as [|m names IH]; intros id s1 Q1 Q2 Q3 Q4 Q5; [done|].
    simpl.
    destruct (stopProcess_later m id _ s1 Q1 Q2) as [Q1' Q2'].
    apply IH; [done|done|by apply stopProcess_races_grow| |].
    + by eapply foot_since; [apply stopProcess_foot|].
    + intros Ha. by eapply foot_since; [apply stopProcess_foot|apply Q5].
  - destruct Hin as [?|Hin]; [done|].
    assert (handles (stopProcess n s) !! h = handles s !! h) as Eh.
    { apply stopProcess_lookup_ne. intros h' Hp' ->.
      destruct (Hnamed _ _ Hp') as (hd1 & Hh1 & Hn1).
      destruct (Hnamed _ _ Hp) as (hd2 & Hh2 & Hn2). congruence. }
    apply (IH Hin (stopProcess n s)).
    + rewrite stopProcess_processes. intros n0 h' Hp'.
      destruct (Hnamed _ _ Hp') as (hd' & Hh' & Hn').
      destruct (foot_handle _ _ _ _ _ _ (stopProcess_foot n s) Hh')
        as (hd'' & Hh'' & Hn'' & _).
      exists hd''. split; [done|congruence].
    + by rewrite stopProcess_processes.
    + by rewrite Eh.
    + done.
    + by eapply foot_extends; [apply stopProcess_foot|].
Qed.

Lemma shutdown_begins c name h s :
  tracked_inv s → isShuttingDown s = false →
  get (processes s) name = Some h →
  ∃ id hd, handles s !! h = Some hd
    ∧ since (trace s) (SetTimeout id 10000 (TForceKill name h)) (shutdown c s)
    ∧ race_pending (shutdown c s) name h id
    ∧ (h_alive hd = true → since (trace s) (Kill h SIGTERM) (shutdown c s)).
Proof.
  intros [H1 H2 H3] Hsd Hp.
  destruct (H1 _ _ Hp) as (hd & Hh & Hn).
  pose proof (H2 Hsd _ _ _ Hp Hh) as Hk.
  unfold shutdown. cbv zeta.
  change (isShuttingDown (emit (ShutdownCalled c) s)) with (isShuttingDown s).
  rewrite Hsd.
  match goal with
  | |- context [foldl _ ?t service_names] =>
      assert (foot [FisShuttingDown; FshutdownCode]
                (a_kinds [KLog; KShutdownCalled]) s t) as F by foot_auto;
      destruct (stop_all (trace s) name h hd service_names
                  ltac:(destruct name; simpl; tauto) t)
        as (id & Q1 & Q2 & Q3 & Q4 & Q5);
      [exact H1|exact Hp|exact Hh|exact Hk
      |eapply foot_extends; [exact F|by exists []]|]
  end.
  exists id, hd. by repeat split.
Qed.

Lemma settle_pending r s :
  In r (races s) → r_resolved r = false → settle s = s.
Proof.
  intros Hin Hr. unfold settle.
  destruct (shutdownCode s); [|done]. destruct (exited s); [done|].
  destruct (forallb r_resolved (races s)) eqn:Hall; [|done].
  rewrite forallb_forall in Hall. rewrite (Hall r Hin) in Hr. done.
Qed.

Lemma settle_flag s : isShuttingDown (settle s) = isShuttingDown s.
Proof.
  apply (foot_unchanged _ _ _ _ FisShuttingDown (settle_foot s) eq_refl).
Qed.

Lemma not_shutting_down s :
  shutdown_inv s → isShuttingDown s = false → exited s = None ∧ races s = [].
Proof.
  intros [_ H2 _ H4 H5 _] Hsd. split; [|by apply H5].
  destruct (exited s) as [c|] eqn:Hex; [|done].
  rewrite (H4 c eq_refl) in H2. congruence.
Qed.

(** The turn in which shutdown begins: what the event does before it calls
    [shutdown] leaves the process table alone, and no process object gets a
    signal. *)
Lemma shutdown_turn ev s :
  reachable s → isShuttingDown s = false →
  isShuttingDown (step ev s) = true →
  ∃ s1, step ev s = settle (shutdown (requested_code ev) s1)
        ∧ foot [Fhandles; FrestartCounts]
            (a_kinds [KLog; KSignal; KExitObserved; KFailure]) s s1
        ∧ tracked_inv s1.
Proof.
  intros Hr Hsd Hsd'.
  pose proof (reachable_tracked s Hr) as Hinv.
  destruct (not_shutting_down s (reachable_inv s Hr) Hsd) as [Hex Hraces].
  unfold step in *. rewrite Hex in *. rewrite settle_flag in Hsd'.
  assert (∀ T A, foot T A s (handle_event ev s) →
                 touches T FisShuttingDown = false → False) as Hno.
  { intros T A F HT. pose proof (foot_unchanged _ _ _ _ _ F HT) as E.
    simpl in E. congruence. }
  destruct ev as [ok|ok stderr|r|id|h data|h child_pid|h message gone
                 |h code sig|sig|message stack|promise reason].
  - destruct (Hno _ _ (onHealth_foot ok s) eq_refl).
  - destruct (Hno _ _ (onCleanupExec_foot ok stderr s) eq_refl).
  - destruct (Hno _ _ (onFetch_foot r s) eq_refl).
  - destruct (Hno _ _ (onTimer_foot id s) eq_refl).
  - destruct (Hno _ _ (onData_foot h data s) eq_refl).
  - destruct (Hno _ _ (onSpawned_foot h child_pid s) eq_refl).
  - simpl in *. unfold onError in *.
    destruct (handles s !! h) as [hd|] eqn:Hh; [|congruence].
    cbv zeta in *.
    match type of Hsd' with
    | isShuttingDown (handleProcessFailure ?n ?t) = true =>
        assert (foot [Fhandles] (a_kinds [KLog]) s t) as F
          by (destruct gone; foot_auto);
        assert (tracked_inv t) as Ht
          by (destruct gone;
              [pose proof (mark_gone_tracked h s Hinv); by untracked (mark_gone h s)
              |by untracked s]);
        destruct (Nat.leb_spec maxRestarts (get (restartCounts t) n))
          as [Hle|Hlt]
    end.
    + rewrite handleProcessFailure_fatal by done.
      eexists. split; [reflexivity|]. split.
      * eapply foot_trans; [eapply foot_use; [exact F|reflexivity|side_A]|].
        foot_auto.
      * match goal with _ : tracked_inv ?t |- _ => by untracked t end.
    + rewrite handleProcessFailure_restart in Hsd' by done.
      cbv zeta in Hsd'.
      match type of Hsd' with
      | isShuttingDown ?u = true =>
          match type of Ht with
          | tracked_inv ?t =>
              assert (foot [FrestartCounts; Ftimers; FnextTimer]
                        (a_kinds [KLog; KFailure; KSetTimeout]) t u) as F2
                by foot_auto;
              assert (isShuttingDown u = isShuttingDown t) as E2
                by apply (foot_unchanged _ _ _ _ FisShuttingDown F2 eq_refl);
              assert (isShuttingDown t = isShuttingDown s) as E1
                by apply (foot_unchanged _ _ _ _ FisShuttingDown F eq_refl)
          end
      end.
      congruence.
  - simpl in *. unfold onExit in *.
    destruct (handles s !! h) as [hd|] eqn:Hh; [|congruence].
    destruct (h_alive hd); [|congruence].
    rewrite Hraces in *. cbv zeta in *.
    change (isShuttingDown (emit (ExitObserved h) (mark_gone h s)))
      with (isShuttingDown s) in *.
    rewrite Hsd in *. simpl in Hsd' |- *.
    match type of Hsd' with
    | isShuttingDown (handleProcessFailure ?n ?t) = true =>
        assert (foot [Fhandles] (a_kinds [KLog; KExitObserved]) s t) as F
          by foot_auto;
        assert (tracked_inv t) as Ht
          by (pose proof (mark_gone_tracked h s Hinv);
              by untracked (mark_gone h s));
        destruct (Nat.leb_spec maxRestarts (get (restartCounts t) n))
          as [Hle|Hlt]
    end.
    + rewrite handleProcessFailure_fatal by done.
      eexists. split; [reflexivity|]. split.
      * eapply foot_trans; [eapply foot_use; [exact F|reflexivity|side_A]|].
        foot_auto.
      * match goal with _ : tracked_inv ?t |- _ => by untracked t end.
    + rewrite handleProcessFailure_restart in Hsd' by done.
      cbv zeta in Hsd'.
      match type of Hsd' with
      | isShuttingDown ?u = true =>
          match type of Ht with
          | tracked_inv ?t =>
              assert (foot [FrestartCounts; Ftimers; FnextTimer]
                        (a_kinds [KLog; KFailure; KSetTimeout]) t u) as F2
                by foot_auto;
              assert (isShuttingDown u = isShuttingDown t) as E2
                by apply (foot_unchanged _ _ _ _ FisShuttingDown F2 eq_refl);
              assert (isShuttingDown t = isShuttingDown s) as E1
                by apply (foot_unchanged _ _ _ _ FisShuttingDown F eq_refl)
          end
      end.
      congruence.
  - destruct sig; [| | |simpl in *; congruence].
    all: eexists; split; [reflexivity|]; split; [foot_auto|by untracked s].
  - simpl. eexists. split; [reflexivity|]. split; [foot_auto|by untracked s].
  - simpl. eexists. split; [reflexivity|]. split; [foot_auto|by untracked s].
Qed.

Lemma force_kill_fires id name h s :
  exited s = None → find_timer id (timers s) = Some (TForceKill name h) →
  running s h →
  let s' := step (EvTimer id) s in
  In (Kill h SIGKILL) (added s s')
  ∧ ∀ r, In r (races s') → r_handle r = h → r_resolved r = true.
Proof.
  intros Hex Hf (hd & Hh & Ha). cbv zeta. unfold step. rewrite Hex. simpl.
  unfold onTimer. rewrite Hf. cbv zeta.
  match goal with
  | |- context [kill h SIGKILL ?t] =>
      assert (foot [Ftimers] (a_kinds [KLog]) s t) as F by foot_auto;
      assert (handles t !! h = Some hd) as Hh' by exact Hh;
      pose proof (kill_running h SIGKILL t hd Hh' Ha) as Hk
  end.
  split.
  - apply since_added. eapply foot_since; [apply settle_foot|].
    eapply since_cons; [|exact Hk].
    eapply foot_extends; [exact F|by exists []].
  - match goal with
    | |- ∀ r, In r (races (settle ?u)) → _ =>
        assert (races (settle u) = races u) as ->
          by apply (foot_unchanged _ _ _ _ Fraces (settle_foot u) eq_refl)
    end.
    intros r Hr Hrh. simpl in Hr. apply in_map_iff in Hr as (r0 & <- & Hr0).
    destruct (decide (r_handle r0 = h)) as [Heq|Hne]; [done|].
    simpl in Hrh. done.
Qed.

(** X10.  Take any run, and the turn [ev] in which shutdown begins: the
    supervisor was not shutting down before it and is afterwards.  Let
    [name |-> h] be an entry of the process table at that moment.  (1) In
    that same turn, for every such entry, a timer of 10000 ms is set whose
    callback force-kills [h], its promise is pending, and if [h] has not
    exited it has been sent SIGTERM; the supervisor has not exited in this
    turn.  So all signals are sent and all timers set before anything is
    waited for.  (2) Whenever later the timer of [h] fires while [h] still
    runs, [h] is sent SIGKILL and its promise is resolved.  (3) Whenever
    later the supervisor has exited with code [c], then [c] is the code the
    event asked for (0 for a signal, 1 for an exception or a fatal failure),
    [h] has been seen to end or has been sent SIGKILL, every promise is
    resolved, and the last three things done were to end the log stream, to
    print the closing line and to exit with [c].  A process that [start()]
    spawns after shutdown began is no entry at that moment and is not
    covered. *)
Theorem shutdown_stops_tracked_processes e fs evs ev name h :
  let s := run evs (main e fs) in
  let s' := step ev s in
  isShuttingDown s = false → isShuttingDown s' = true →
  get (processes s) name = Some h →
  (∃ id, In (SetTimeout id 10000 (TForceKill name h)) (added s s')
         ∧ race_pending s' name h id
         ∧ (running s' h → In (Kill h SIGTERM) (added s s'))
         ∧ exited s' = None)
  ∧ (∀ evs' id,
       let t := run evs' s' in
       exited t = None →
       find_timer id (timers t) = Some (TForceKill name h) → running t h →
       In (Kill h SIGKILL) (added t (step (EvTimer id) t))
       ∧ ∀ r, In r (races (step (EvTimer id) t)) → r_handle r = h →
              r_resolved r = true)
  ∧ (∀ evs' c,
       let t := run evs' s' in
       exited t = Some c →
       c = requested_code ev
       ∧ (stopped t h ∨ In (Kill h SIGKILL) (trace t))
       ∧ (∀ r, In r (races t) → r_resolved r = true)
       ∧ ∃ line rest, trace t = Exit c :: Console line :: StreamEnd :: rest).
Proof.
  intros s s' Hsd Hsd' Hp.
  assert (reachable s) as Hr by (by exists e, fs, evs).
  assert (reachable s') as Hr' by (by apply reachable_step).
  destruct (not_shutting_down s (reachable_inv s Hr) Hsd) as [Hex Hraces].
  destruct (shutdown_turn ev s Hr Hsd Hsd') as (s1 & Hstep & F1 & Hinv1).
  assert (isShuttingDown s1 = false) as Hsd1.
  { rewrite <- Hsd.
    apply (foot_unchanged _ _ _ _ FisShuttingDown F1 eq_refl). }
  assert (processes s1 = processes s) as Ep
    by apply (foot_unchanged _ _ _ _ Fprocesses F1 eq_refl).
  assert (exited s1 = None) as Hex1.
  { rewrite <- Hex. apply (foot_unchanged _ _ _ _ Fexited F1 eq_refl). }
  rewrite <- Ep in Hp.
  destruct (shutdown_begins (requested_code ev) name h s1 Hinv1 Hsd1 Hp)
    as (id & hd & Hh & Q1 & [Q2 Q3] & Q4).
  fold s' in Hstep.
  rewrite (settle_pending _ _ Q3 eq_refl) in Hstep.
  destruct (shutdown_first_flags (requested_code ev) s1 Hsd1) as [_ Hcode].
  rewrite <- Hstep in *.
  assert (exited s' = None) as Hex'.
  { rewrite Hstep, <- Hex1.
    apply (foot_unchanged _ _ _ _ Fexited (shutdown_foot _ s1) eq_refl). }
  assert (In (SetTimeout id 10000 (TForceKill name h)) (added s s')) as Hset
    by (apply since_added; by eapply since_older).
  split; [|split].
  - exists id. split; [done|]. split; [done|]. split; [|done].
    intros (hd' & Hh' & Ha'). apply since_added.
    eapply since_older; [exact F1|]. apply Q4.
    assert (foot shutdown_fields (a_shutdown (requested_code ev)) s1 s') as F2
      by (rewrite Hstep; apply shutdown_foot).
    destruct (foot_handle _ _ _ _ _ _ F2 Hh) as (hd'' & Hh'' & _ & Hal & _).
    apply Hal. congruence.
  - intros evs' id' t Hext Hf Hrun. by apply (force_kill_fires id' name h t).
  - intros evs' c t Hext.
    assert (reachable t) as Hrt by (by apply reachable_run).
    destruct (reachable_exit t Hrt c Hext) as [Hres Htrace].
    split; [|split; [|by split]].
    + pose proof (shutdownCode_run evs' _ s' Hr' Hcode) as Hc.
      pose proof (reachable_inv t Hrt) as [_ _ _ J4 _ _].
      specialize (J4 c Hext). fold t in Hc. congruence.
    + assert (In (SetTimeout id 10000 (TForceKill name h)) (trace t)) as Hin.
      { apply (foot_In_trace _ _ s' t _ (run_foot evs' s')).
        destruct (foot_added _ _ _ _ (step_foot ev s)) as [Ht _].
        fold s' in Ht. rewrite Ht. apply in_or_app. by left. }
      destruct (reachable_races t Hrt) as [_ R2 R3].
      destruct (R3 _ _ _ _ Hin) as (r & Hr0 & <-).
      apply R2; [done|]. by apply Hres.
Qed.

Lemma shutdown_stops_tracked_processes_witness :
  In (Kill 0 SIGKILL)
    (added (run [] (step (EvSignal SIGINT) (run [] (main env0 fs_ok))))
       (step (EvTimer 0)
          (run [] (step (EvSignal SIGINT) (run [] (main env0 fs_ok))))))
  ∧ 0 = requested_code (EvSignal SIGINT).
Proof.
  assert (isShuttingDown (run [] (main env0 fs_ok)) = false) as H1
    by (vm_compute; reflexivity).
  assert (isShuttingDown (step (EvSignal SIGINT) (run [] (main env0 fs_ok)))
          = true) as H2 by (vm_compute; reflexivity).
  assert (get (processes (run [] (main env0 fs_ok))) stagehand = Some 0) as H3
    by (vm_compute; reflexivity).
  pose proof (shutdown_stops_tracked_processes env0 fs_ok [] (EvSignal SIGINT)
                stagehand 0 H1 H2 H3) as (_ & Hfire & Hexit).
  assert (exited (run [] (step (EvSignal SIGINT) (run [] (main env0 fs_ok))))
          = None) as H4 by (vm_compute; reflexivity).
  assert (find_timer 0
            (timers (run [] (step (EvSignal SIGINT) (run [] (main env0 fs_ok)))))
          = Some (TForceKill stagehand 0)) as H5 by (vm_compute; reflexivity).
  assert (running (run [] (step (EvSignal SIGINT) (run [] (main env0 fs_ok)))) 0)
    as H6.
  { exists {| h_name := stagehand; h_alive := true; h_killed := true |}.
    split; vm_compute; reflexivity. }
  assert (exited (run signal_then_timeout_rest
                    (step (EvSignal SIGINT) (run [] (main env0 fs_ok))))
          = Some 0) as H7 by (vm_compute; reflexivity).
  split.
  - exact (proj1 (Hfire [] 0 H4 H5 H6)).
  - exact (proj1 (Hexit signal_then_timeout_rest 0 H7)).
Defined.

(** * The order of startup *)

Lemma each_after_app later cond new tr :
  Forall (fun a => later a = false) new →
  each_after later cond (new ++ tr) = each_after later cond tr.
Proof. induction 1 as [|a new Ha _ IH]; simpl; [done|]. by rewrite Ha, IH. Qed.

Lemma existsb_grow (p : action -> bool) new tr :
  existsb p tr = true → existsb p (new ++ tr) = true.
Proof. intros H. rewrite existsb_app, H. apply orb_true_r. Qed.

Lemma failed_grow name new tr : failed name tr ≤ failed name (new ++ tr).
Proof. unfold failed. rewrite countb_app. lia. Qed.

Lemma wait_over_grow name new tr :
  wait_over name tr = true → wait_over name (new ++ tr) = true.
Proof.
  unfold wait_over. intros [H|H]%orb_true_iff; apply orb_true_iff.
  - left. by apply existsb_grow.
  - right. apply Nat.leb_le in H. apply Nat.leb_le.
    pose proof (failed_grow name new tr). lia.
Qed.

Lemma paused_grow new tr :
  paused_after_backend tr = true → paused_after_backend (new ++ tr) = true.
Proof.
  intros H. induction new as [|a new IH]; [done|].
  simpl. rewrite IH. apply orb_true_r.
Qed.

Lemma gate_grow name new tr : gate name tr = true → gate name (new ++ tr) = true.
Proof.
  destruct name; simpl; [apply wait_over_grow|apply paused_grow|done].
Qed.

Lemma poll_gate_grow name new tr :
  poll_gate name tr = true → poll_gate name (new ++ tr) = true.
Proof.
  destruct name; simpl; [apply existsb_grow|apply wait_over_grow|done].
Qed.

Lemma pc_inv_grow p new tr : pc_inv p tr → pc_inv p (new ++ tr).
Proof.
  destruct p as [n ? k|n ? k| | | | | |]; simpl; try done.
  - intros [H1 H2]. pose proof (failed_grow n new tr).
    split; [lia|by apply poll_gate_grow].
  - intros [H1 H2]. pose proof (failed_grow n new tr).
    split; [lia|by apply poll_gate_grow].
  - apply existsb_grow.
  - apply wait_over_grow.
  - apply paused_grow.
Qed.

Lemma neutral_cases a :
  neutral a = true →
  ∀ name, is_spawn name a = false ∧ is_health_of name a = false
          ∧ is_restart_timer name a = false.
Proof. by destruct a as [| | | | ? ? [] | | | | | | | | | |]. Qed.

Lemma startup_order_neutral new tr :
  Forall (fun a => neutral a = true) new →
  startup_order (new ++ tr) = startup_order tr.
Proof.
  intros Hn.
  assert (∀ name, Forall (fun a => is_spawn name a = false) new
                  ∧ Forall (fun a => is_health_of name a = false) new
                  ∧ Forall (fun a => is_restart_timer name a = false) new)
    as Hall.
  { intros name. repeat split; (eapply Forall_impl; [exact Hn|]);
      intros a Ha; by destruct (neutral_cases a Ha name) as (? & ? & ?). }
  unfold startup_order, service_names. cbn [forallb].
  destruct (Hall backend) as (B1 & B2 & B3).
  destruct (Hall frontend) as (F1 & F2 & F3).
  destruct (Hall stagehand) as (S1 & S2 & S3).
  by rewrite !each_after_app.
Qed.

Lemma startup_inv_neutral new s s' :
  startup_inv s → trace s' = new ++ trace s →
  Forall (fun a => neutral a = true) new →
  pc s' = pc s → startup_inv s'.
Proof.
  intros [H1 H2] Ht Hn Hp. split.
  - rewrite Hp, Ht. by apply pc_inv_grow.
  - by rewrite Ht, startup_order_neutral.
Qed.

Lemma kinds_neutral ks e a :
  lacks ks KSpawn = true → lacks ks KHealth = true →
  lacks ks KSetTimeout = true → a_kinds ks e a → neutral a = true.
Proof.
  intros L1 L2 L3 Ha.
  pose proof (a_kinds_lacks _ _ _ _ L1 Ha).
  pose proof (a_kinds_lacks _ _ _ _ L2 Ha).
  pose proof (a_kinds_lacks _ _ _ _ L3 Ha).
  by destruct a as [| | | | ? ? [] | | | | | | | | | |].
Qed.

Lemma startup_inv_frame T ks s s' :
  foot T (a_kinds ks) s s' → touches T Fpc = false →
  lacks ks KSpawn = true → lacks ks KHealth = true →
  lacks ks KSetTimeout = true →
  startup_inv s → startup_inv s'.
Proof.
  intros Hfoot HT L1 L2 L3 Hinv.
  destruct (foot_new _ _ _ _ Hfoot) as (new & Ht & HA).
  apply (startup_inv_neutral new s s' Hinv Ht).
  - eapply Forall_impl; [exact HA|]. intros a. by apply kinds_neutral.
  - apply (foot_unchanged _ _ _ _ Fpc Hfoot HT).
Qed.

Ltac orderly s0 :=
  apply (startup_inv_frame orderly_fields orderly_kinds s0);
  [ unfold orderly_fields, orderly_kinds; foot_auto
  | reflexivity | reflexivity | reflexivity | reflexivity | ].

Lemma setTimeout_trace k delay s :
  trace (setTimeout k delay s) = SetTimeout (nextTimer s) delay k :: trace s.
Proof. reflexivity. Qed.

(** Timers of [start()] itself. *)
Lemma setTimeout_resume_inv delay s :
  startup_inv s → startup_inv (setTimeout TResume delay s).
Proof.
  intros Hinv.
  apply (startup_inv_neutral [SetTimeout (nextTimer s) delay TResume] s);
    [done|done|by repeat constructor|done].
Qed.

Lemma with_pc_inv p s :
  startup_inv s → pc_inv p (trace s) → startup_inv (with_pc p s).
Proof. by intros [_ H2] Hp. Qed.

Lemma startup_order_cons a tr :
  startup_order tr = true →
  (∀ name, (is_spawn name a = true → gate name tr = true)
           ∧ (is_health_of name a = true → poll_gate name tr = true)
           ∧ (is_restart_timer name a = true → has_spawn name tr = true)) →
  startup_order (a :: tr) = true.
Proof.
  unfold startup_order. rewrite !forallb_forall. intros Hord Ha name Hin.
  specialize (Hord name Hin). destruct (Ha name) as (A1 & A2 & A3).
  apply andb_true_iff in Hord as [[O1 O2]%andb_true_iff O3].
  simpl. rewrite O1, O2, O3, !andb_true_r.
  destruct (is_spawn name a); [rewrite A1 by done|];
    (destruct (is_health_of name a); [rewrite A2 by done|]);
    (destruct (is_restart_timer name a); [rewrite A3 by done|]); done.
Qed.

Lemma emit_spawn_inv h name cfg s :
  startup_inv s → gate name (trace s) = true →
  startup_inv (emit (Spawn h name cfg) s).
Proof.
  intros [H1 H2] Hg. split.
  - apply (pc_inv_grow _ [_]). exact H1.
  - simpl. apply startup_order_cons; [done|]. intros n. simpl.
    split; [|done]. intros Heq. apply bool_decide_eq_true in Heq. by subst.
Qed.

Lemma log_neutral level message service s :
  ∃ new, trace (log level message service s) = new ++ trace s
         ∧ Forall (fun a => neutral a = true) new.
Proof.
  destruct (log_grows level message service s) as (new & Ht & Hk).
  exists new. split; [done|].
  eapply Forall_impl; [exact Hk|]. intros a Ha.
  by destruct a as [| | | | ? ? [] | | | | | | | | | |].
Qed.

Lemma log_inv level message service s :
  startup_inv s → startup_inv (log level message service s).
Proof.
  intros Hinv. destruct (log_neutral level message service s) as (new & Ht & Hn).
  by apply (startup_inv_neutral new s).
Qed.

Lemma log_gate name level message service s :
  gate name (trace s) = true →
  gate name (trace (log level message service s)) = true.
Proof.
  intros Hg. destruct (log_neutral level message service s) as (new & -> & _).
  by apply gate_grow.
Qed.

Lemma log_existsb p level message service s :
  existsb p (trace s) = true →
  existsb p (trace (log level message service s)) = true.
Proof.
  intros Hp. destruct (log_neutral level message service s) as (new & -> & _).
  by apply existsb_grow.
Qed.

Lemma spawn_inv p hs h name cfg s :
  startup_inv s → gate name (trace s) = true →
  startup_inv (with_processes p (emit (Spawn h name cfg) (with_handles hs s))).
Proof.
  intros H1 Hg1.
  destruct (emit_spawn_inv h name cfg s H1 Hg1) as [A B].
  split; [exact A|exact B].
Qed.

Lemma stale_inv name s :
  startup_inv s → gate name (trace s) = true →
  let s0 := match get (processes s) name with
            | Some h => kill h SIGTERM s
            | None => s
            end in
  startup_inv s0 ∧ gate name (trace s0) = true.
Proof.
  intros Hinv Hg s0.
  assert (foot [Fhandles] (a_kinds [KKill]) s s0) as F0
    by (subst s0; foot_auto).
  split; [by apply (startup_inv_frame _ _ _ _ F0)|].
  destruct (foot_new _ _ _ _ F0) as (new & -> & _). by apply gate_grow.
Qed.

Lemma startProcess_inv name s :
  startup_inv s → gate name (trace s) = true →
  startup_inv (startProcess name s).
Proof.
  intros Hinv Hg. rewrite startProcess_unfold.
  destruct (stale_inv name s Hinv Hg) as [H0 Hg0]. cbv zeta in *.
  set (s0 := match get (processes s) name with
             | Some h => kill h SIGTERM s
             | None => s
             end) in *.
  clearbody s0.
  apply spawn_inv.
  - by repeat apply log_inv.
  - by repeat apply log_gate.
Qed.

Lemma startProcess_has_spawn name s :
  has_spawn name (trace (startProcess name s)) = true.
Proof.
  rewrite startProcess_unfold. cbv zeta. simpl.
  by rewrite bool_decide_eq_true_2.
Qed.

Lemma foot_pc_inv T A p s s' : foot T A s s' → pc_inv p (trace s) → pc_inv p (trace s').
Proof.
  intros Hfoot Hp. destruct (foot_new _ _ _ _ Hfoot) as (new & -> & _).
  by apply pc_inv_grow.
Qed.

Lemma waitForHealthcheck_inv name port s :
  startup_inv s → poll_gate name (trace s) = true →
  startup_inv (waitForHealthcheck name port s).
Proof.
  intros Hinv Hg. unfold waitForHealthcheck. cbv zeta.
  match goal with
  | |- startup_inv (with_pc _ ?t) =>
      assert (foot [] (a_kinds [KLog; KExec]) s t) as F by foot_auto;
      assert (startup_inv t) as H1 by (by apply (startup_inv_frame _ _ _ _ F))
  end.
  apply with_pc_inv; [done|].
  apply (foot_pc_inv _ _ (Probing name port 1) _ _ F). simpl. split; [lia|done].
Qed.

Lemma cleanupStagehandSessions_inv s :
  startup_inv s → wait_over stagehand (trace s) = true →
  startup_inv (cleanupStagehandSessions s).
Proof.
  intros Hinv Hw. unfold cleanupStagehandSessions.
  apply with_pc_inv; [by orderly s|].
  simpl. by apply (wait_over_grow stagehand [_]).
Qed.

Lemma start_after_wait_inv name s :
  startup_inv s → wait_over name (trace s) = true →
  startup_inv (start_after_wait name s).
Proof.
  intros Hinv Hw. destruct name; simpl.
  - by apply waitForHealthcheck_inv.
  - unfold start_after_wait. cbv zeta.
    match goal with
    | |- startup_inv (with_pc _ ?t) =>
        assert (startup_inv t) as H1 by (by orderly s)
    end.
    by apply with_pc_inv.
  - by apply cleanupStagehandSessions_inv.
Qed.

Lemma emit_health_inv name ok s :
  startup_inv s → poll_gate name (trace s) = true →
  startup_inv (emit (HealthObserved name ok) s).
Proof.
  intros [H1 H2] Hg. split.
  - apply (pc_inv_grow _ [_]). exact H1.
  - simpl. apply startup_order_cons; [done|]. intros n.
    split; [done|]. split; [|done]. unfold is_health_of. simpl.
    destruct (bool_decide (name = n)) eqn:Heq; [|done].
    apply bool_decide_eq_true in Heq. by subst.
Qed.

Lemma onHealth_inv ok s : startup_inv s → startup_inv (onHealth ok s).
Proof.
  intros Hinv. unfold onHealth.
  destruct (pc s) as [name port attempt| | | | | | |] eqn:Hpc; try done.
  destruct Hinv as [Hp Hord]. rewrite Hpc in Hp. destruct Hp as [Hk Hg].
  assert (startup_inv s) as Hinv by (split; [by rewrite Hpc|done]).
  pose proof (emit_health_inv name ok s Hinv Hg) as H1.
  cbv zeta. destruct ok.
  - assert (∀ level message service,
              existsb (is_health name true)
                (trace (log level message service
                          (emit (HealthObserved name true) s))) = true) as Hh.
    { intros. apply log_existsb. simpl. by rewrite bool_decide_eq_true_2. }
    assert (∀ t, startup_inv t → existsb (is_health name true) (trace t) = true →
                 startup_inv (start_after_wait name t)) as Hnext.
    { intros t Ht Hht. apply start_after_wait_inv; [done|].
      unfold wait_over. by rewrite Hht. }
    destruct name.
    + apply Hnext; [by apply log_inv|apply Hh].
    + apply Hnext; [by apply log_inv|apply Hh].
    + apply with_pc_inv; [by apply setTimeout_resume_inv, log_inv|].
      apply (pc_inv_grow (SessionCleanupDelay port) [_]). apply Hh.
  - assert (failed name (trace (emit (HealthObserved name false) s))
            = S (failed name (trace s))) as Hf.
    { unfold failed. simpl. by rewrite bool_decide_eq_true_2. }
    destruct (Nat.ltb_spec attempt maxAttempts) as [Hlt|Hge].
    + apply with_pc_inv; [by apply setTimeout_resume_inv|].
      apply (pc_inv_grow _ [_]). simpl. split; [simpl in Hf; lia|].
      by apply (poll_gate_grow name [_]).
    + apply start_after_wait_inv;
        [by orderly (emit (HealthObserved name false) s)|].
      unfold wait_over. apply orb_true_iff. right. apply Nat.leb_le.
      match goal with
      | |- _ ≤ failed name (trace ?t) =>
          assert (foot [] (a_kinds [KLog])
                    (emit (HealthObserved name false) s) t) as F by foot_auto
      end.
      destruct (foot_new _ _ _ _ F) as (new & -> & _).
      pose proof (failed_grow name new
                    (trace (emit (HealthObserved name false) s))). lia.
Qed.

Lemma resume_inv s : startup_inv s → startup_inv (resume s).
Proof.
  intros Hinv. unfold resume.
  destruct (pc s) as [|name port attempt|port| | | | |] eqn:Hpc; try done.
  - destruct Hinv as [Hp Hord]. rewrite Hpc in Hp. destruct Hp as [Hk Hg].
    assert (startup_inv s) as Hinv by (split; [by rewrite Hpc|done]).
    apply with_pc_inv; [by orderly s|].
    apply (pc_inv_grow _ [_]). simpl. split; [lia|done].
  - destruct Hinv as [Hp Hord]. rewrite Hpc in Hp. simpl in Hp.
    assert (startup_inv s) as Hinv by (split; [by rewrite Hpc|done]).
    cbv zeta. apply start_after_wait_inv; [by orderly s|].
    unfold wait_over. simpl. simpl in Hp. by rewrite Hp.
  - destruct Hinv as [Hp Hord]. rewrite Hpc in Hp. simpl in Hp.
    assert (startup_inv s) as Hinv by (split; [by rewrite Hpc|done]).
    cbv zeta. apply waitForHealthcheck_inv.
    + by apply startProcess_inv.
    + apply startProcess_has_spawn.
Qed.

Lemma pause_inv u : has_spawn backend (trace u) = true →
  pc_inv BackendDelay (trace (setTimeout TResume 3000 u)).
Proof.
  intros Hs.
  rewrite setTimeout_trace.
  change (paused_after_backend (SetTimeout (nextTimer u) 3000 TResume :: trace u)
          = true).
  cbn [paused_after_backend is_pause]. by rewrite N.eqb_refl, Hs.
Qed.

Lemma onFetch_inv r s : startup_inv s → startup_inv (onFetch r s).
Proof.
  intros Hinv. unfold onFetch.
  destruct (pc s) eqn:Hpc; try done.
  destruct Hinv as [Hp Hord]. rewrite Hpc in Hp.
  assert (wait_over stagehand (trace s) = true) as Hw by exact Hp.
  assert (startup_inv s) as Hinv by (split; [by rewrite Hpc|done]).
  cbv zeta.
  match goal with
  | |- startup_inv (with_pc _ (setTimeout _ _ (startProcess backend ?t))) =>
      assert (foot [] (a_kinds [KLog]) s t) as F by (destruct r; foot_auto);
      assert (startup_inv t) as H1 by (by apply (startup_inv_frame _ _ _ _ F));
      assert (gate backend (trace t) = true) as Hg
        by (destruct (foot_new _ _ _ _ F) as (new & -> & _);
            by apply (gate_grow backend));
      set (t1 := t) in *; clearbody t1
  end.
  pose proof (startProcess_inv backend t1 H1 Hg) as Hu.
  pose proof (startProcess_has_spawn backend t1) as Hs.
  set (u := startProcess backend t1) in *. clearbody u.
  apply with_pc_inv; [by apply setTimeout_resume_inv|].
  exact (pause_inv u Hs).
Qed.

(** A service that has been spawned has passed its gate. *)
Lemma spawned_gate name tr :
  startup_order tr = true → has_spawn name tr = true → gate name tr = true.
Proof.
  unfold startup_order. rewrite forallb_forall. intros Hord Hs.
  assert (each_after (is_spawn name) (gate name) tr = true) as He.
  { assert (In name service_names) as Hin by (destruct name; simpl; tauto).
    specialize (Hord name Hin).
    by apply andb_true_iff in Hord as [[? _]%andb_true_iff _]. }
  clear Hord. induction tr as [|a tr IH]; [done|].
  simpl in He, Hs. apply andb_true_iff in He as [He1 He2].
  apply (gate_grow name [a]).
  destruct (is_spawn name a); [done|]. by apply IH.
Qed.

Lemma restart_timer_spawned name id d tr :
  startup_order tr = true → In (SetTimeout id d (TRestart name)) tr →
  has_spawn name tr = true.
Proof.
  unfold startup_order. rewrite forallb_forall. intros Hord Hin.
  assert (each_after (is_restart_timer name) (has_spawn name) tr = true) as He.
  { assert (In name service_names) as Hn by (destruct name; simpl; tauto).
    specialize (Hord name Hn).
    by apply andb_true_iff in Hord as [_ ?]. }
  clear Hord. induction tr as [|a tr IH]; [done|].
  simpl in He. apply andb_true_iff in He as [He1 He2].
  apply (existsb_grow (is_spawn name) [a]).
  destruct Hin as [->|Hin]; [|by apply IH].
  simpl in He1. by rewrite bool_decide_eq_true_2 in He1.
Qed.

(** Every pending timer has been set, and every process object spawned. *)
Lemma reachable_foot s :
  reachable s → ∃ e, foot all_fields (a_kinds all_kinds) (blank e) s.
Proof.
  intros (e & fs & evs & ->). exists e.
  eapply foot_trans; [apply main_foot|].
  eapply foot_use; [apply run_foot|reflexivity|].
  intros a Ha. exact Ha.
Qed.

Lemma reachable_timer_set id k s :
  reachable s → In (id, k) (timers s) → ∃ d, In (SetTimeout id d k) (trace s).
Proof.
  intros Hr Hin. destruct (reachable_foot s Hr) as [e F].
  destruct F as (_ & _ & (new & Ht & _ & _ & Hti) & _).
  destruct (Hti _ _ Hin) as [[]|[d Hd]].
  exists d. rewrite Ht. apply in_or_app. by left.
Qed.

Lemma spawn_names_has name tr :
  In name (spawn_names tr) → has_spawn name tr = true.
Proof.
  induction tr as [|a tr IH]; [done|]. intros Hin.
  apply existsb_exists.
  unfold spawn_names in Hin. apply list_elem_of_In, list_elem_of_omap in Hin
    as (b & Hb & Heq).
  exists b. split; [by apply list_elem_of_In|].
  destruct b; try done. injection Heq as ->. simpl.
  by rewrite bool_decide_eq_true_2.
Qed.

Lemma reachable_handle_spawned h hd s :
  reachable s → handles s !! h = Some hd →
  has_spawn (h_name hd) (trace s) = true.
Proof.
  intros Hr Hh. destruct (reachable_foot s Hr) as [e F].
  destruct F as (_ & _ & (new & Ht & _ & Hn & _) & _).
  simpl in Hn, Ht. rewrite app_nil_r in Ht. rewrite Ht.
  apply spawn_names_has. apply in_rev. rewrite <- Hn.
  apply list_elem_of_In, list_elem_of_fmap. exists hd. split; [done|].
  by eapply list_elem_of_lookup_2.
Qed.

Lemma foot_has_spawn T A name s s' :
  foot T A s s' → has_spawn name (trace s) = true →
  has_spawn name (trace s') = true.
Proof.
  intros Hfoot Hs. destruct (foot_new _ _ _ _ Hfoot) as (new & -> & _).
  by apply existsb_grow.
Qed.

Lemma handleProcessFailure_inv name s :
  startup_inv s → has_spawn name (trace s) = true →
  startup_inv (handleProcessFailure name s).
Proof.
  intros Hinv Hs.
  destruct (Nat.leb_spec maxRestarts (get (restartCounts s) name)) as [Hle|Hlt].
  - rewrite handleProcessFailure_fatal by done. by orderly s.
  - rewrite handleProcessFailure_restart by done. cbv zeta.
    match goal with
    | |- startup_inv (setTimeout _ _ ?t) =>
        assert (foot [FrestartCounts] (a_kinds [KLog; KFailure]) s t) as F
          by foot_auto;
        assert (startup_inv t) as [H1 H2]
          by (by apply (startup_inv_frame _ _ _ _ F));
        pose proof (foot_has_spawn _ _ name _ _ F Hs) as Hs'
    end.
    split.
    + apply (pc_inv_grow _ [_]). exact H1.
    + simpl. apply startup_order_cons; [done|]. intros n. simpl.
      split; [done|]. split; [done|].
      intros Heq. apply bool_decide_eq_true in Heq. by subst.
Qed.

Lemma onExit_inv h code sig s :
  reachable s → startup_inv s → startup_inv (onExit h code sig s).
Proof.
  intros Hr Hinv. unfold onExit.
  destruct (handles s !! h) as [hd|] eqn:Hh; [|done].
  destruct (h_alive hd); [|done]. cbv zeta.
  pose proof (reachable_handle_spawned h hd s Hr Hh) as Hs.
  apply foldl_keeps.
  { intros t r Ht. unfold raceExit. by orderly t. }
  destruct (negb (isShuttingDown (emit (ExitObserved h) (mark_gone h s)))).
  - apply handleProcessFailure_inv; [by orderly s|].
    match goal with
    | |- has_spawn _ (trace ?t) = true =>
        assert (foot [Fhandles] (a_kinds [KLog; KExitObserved]) s t) as F
          by foot_auto
    end.
    by apply (foot_has_spawn _ _ _ _ _ F).
  - by orderly s.
Qed.

Lemma onError_inv h message gone s :
  reachable s → startup_inv s → startup_inv (onError h message gone s).
Proof.
  intros Hr Hinv. unfold onError.
  destruct (handles s !! h) as [hd|] eqn:Hh; [|done]. cbv zeta.
  pose proof (reachable_handle_spawned h hd s Hr Hh) as Hs.
  apply handleProcessFailure_inv; [by orderly s|].
  match goal with
  | |- has_spawn _ (trace ?t) = true =>
      assert (foot [Fhandles] (a_kinds [KLog]) s t) as F
        by (destruct gone; foot_auto)
  end.
  by apply (foot_has_spawn _ _ _ _ _ F).
Qed.

Lemma onTimer_inv id s :
  reachable s → startup_inv s → startup_inv (onTimer id s).
Proof.
  intros Hr Hinv. unfold onTimer.
  destruct (find_timer id (timers s)) as [k|] eqn:Hf; [|done].
  assert (startup_inv (with_timers (drop_timer id (timers s)) s)) as H1
    by exact Hinv.
  destruct k as [name|name h|].
  - destruct (negb (isShuttingDown _)); [|done].
    apply startProcess_inv; [done|].
    destruct (reachable_timer_set id _ s Hr (find_timer_In _ _ _ Hf)) as [d Hd].
    destruct Hinv as [_ Hord].
    apply (spawned_gate name (trace s) Hord).
    by apply (restart_timer_spawned name id d).
  - by orderly (with_timers (drop_timer id (timers s)) s).
  - by apply resume_inv.
Qed.

Lemma handle_event_inv ev s :
  reachable s → startup_inv s → startup_inv (handle_event ev s).
Proof.
  intros Hr Hinv. destruct ev; simpl.
  - by apply onHealth_inv.
  - by orderly s.
  - by apply onFetch_inv.
  - by apply onTimer_inv.
  - by orderly s.
  - by orderly s.
  - by apply onError_inv.
  - by apply onExit_inv.
  - by orderly s.
  - by orderly s.
  - by orderly s.
Qed.

Lemma step_inv ev s : reachable s → startup_inv s → startup_inv (step ev s).
Proof.
  intros Hr Hinv. unfold step. destruct (exited s); [done|].
  pose proof (handle_event_inv ev s Hr Hinv). by orderly (handle_event ev s).
Qed.

Lemma main_startup e fs : startup_inv (main e fs).
Proof.
  unfold main, new_UnifiedServer.
  assert (startup_inv (blank e)) as H0 by (by split).
  assert (startup_inv (setupLogging (blank e))) as H1 by (by orderly (blank e)).
  assert (startup_inv (start fs (setupLogging (blank e)))) as H2.
  { unfold start.
    pose proof (checkPrerequisites_foot fs (setupLogging (blank e))) as Hc.
    destruct (checkPrerequisites fs (setupLogging (blank e))) as [[message|] s2];
      simpl in Hc;
      assert (startup_inv s2) as H2
        by (apply (startup_inv_frame _ [KLog] _ _
                     (foot_use _ _ [FbackendCommand] (a_kinds [KLog]) _ _ Hc
                        eq_refl ltac:(side_A))); done).
    - assert (startup_inv (with_pc StartFailed s2)) as H3
        by (by apply with_pc_inv).
      by orderly (with_pc StartFailed s2).
    - cbv zeta. apply waitForHealthcheck_inv; [|done].
      apply startProcess_inv; [by orderly s2|done]. }
  by orderly (start fs (setupLogging (blank e))).
Qed.

Lemma reachable_startup s : reachable s → startup_inv s.
Proof.
  apply reachable_ind; [apply main_startup|].
  intros ev s' Hr. by apply step_inv.
Qed.

(** C1 as stated does not hold: in this run the frontend is spawned although
    no health check of the backend has succeeded (none has been made). *)
Lemma C1_counterexample :
  health_gated (trace (run frontend_started (main env0 fs_ok))) = false.
Proof. vm_compute. reflexivity. Qed.

(** C1, amended.  In every run the services are spawned in the order of the
    dependencies, but a spawn does not wait for the predecessor to be
    healthy: the backend is spawned only after the wait for the stagehand has
    ended (one health check of the stagehand succeeded, or 30 failed); the
    frontend is spawned only after the backend has been spawned and the
    timer of the pause of 3000 ms has then been set; the backend is polled
    only after the frontend has been spawned and the frontend only after the
    wait for the backend has ended; and a restart is only scheduled for a
    service that has been spawned before. *)
Theorem C1_spawn_order e fs evs :
  startup_order (trace (run evs (main e fs))) = true.
Proof.
  assert (reachable (run evs (main e fs))) as Hr by (by exists e, fs, evs).
  by destruct (reachable_startup _ Hr).
Qed.

(** * Error events and exit events, in every state *)


Lemma onExit_graceful h hd code sig s :
  handles s !! h = Some hd → h_alive hd = true → isShuttingDown s = true →
  foot [Fhandles; Ftimers; Fraces] (a_kinds [KLog; KExitObserved; KClearTimeout])
    s (onExit h code sig s).
Proof.
  intros Hh Ha Hsd. unfold onExit. rewrite Hh, Ha. cbv zeta.
  change (isShuttingDown (emit (ExitObserved h) (mark_gone h s)))
    with (isShuttingDown s).
  rewrite Hsd. simpl negb. cbv iota.
  eapply foot_trans; [|apply foldl_foot; intros; foot_call].
  foot_auto.
Qed.




(** * A process spawned after shutdown began *)

(** C4, at the failing input.  SIGINT arrives during the pause after the
    start of the backend; the pause ends while shutdown waits for the
    stagehand and the backend, and [start()] spawns the frontend.  The two
    older processes exit and the supervisor exits with code 0: at that
    moment the frontend is in the process table and runs, it has been sent
    neither SIGTERM nor SIGKILL, and no promise and no timer of [shutdown]
    is about it. *)
Theorem C4_late_process_outlives_shutdown :
  let final := run late_spawn_run (main env0 fs_ok) in
  exited final = Some 0
  ∧ get (processes final) frontend = Some 2
  ∧ handles final !! 2
    = Some {| h_name := frontend; h_alive := true; h_killed := false |}
  ∧ existsb (is_kill_of 2) (trace final) = false
  ∧ forallb (fun r => negb (r_handle r =? 2)) (races final) = true
  ∧ forallb r_resolved (races final) = true
  ∧ timers final = [].
Proof. vm_compute. repeat split. Qed.

(** * Termination signals and the session registry *)

Lemma stopProcess_other n name h hd s :
  n ≠ name →
  (∀ m h', get (processes s) m = Some h' →
           ∃ hd', handles s !! h' = Some hd' ∧ h_name hd' = m) →
  get (processes s) name = Some h → handles s !! h = Some hd →
  (∀ m h', get (processes (stopProcess n s)) m = Some h' →
           ∃ hd', handles (stopProcess n s) !! h' = Some hd' ∧ h_name hd' = m)
  ∧ get (processes (stopProcess n s)) name = Some h
  ∧ handles (stopProcess n s) !! h = Some hd.
Proof.
  intros Hne Hnamed Hp Hh.
  rewrite stopProcess_processes. split; [|split; [done|]].
  - intros m h' Hp'. destruct (Hnamed _ _ Hp') as (hd' & Hh' & Hn').
    destruct (foot_handle _ _ _ _ _ _ (stopProcess_foot n s) Hh')
      as (hd'' & Hh'' & Hn'' & _).
    exists hd''. split; [done|congruence].
  - rewrite stopProcess_lookup_ne; [done|].
    intros h' Hp' ->.
    destruct (Hnamed _ _ Hp') as (hd1 & Hh1 & Hn1).
    destruct (Hnamed _ _ Hp) as (hd2 & Hh2 & Hn2). congruence.
Qed.

(** The stagehand is the last to be signalled. *)
Lemma shutdown_stagehand_last tr0 c h hd s :
  tracked_inv s → isShuttingDown s = false →
  (∃ new, trace s = new ++ tr0) →
  get (processes s) stagehand = Some h → handles s !! h = Some hd →
  h_alive hd = true →
  ∃ rest, trace (shutdown c s) = (Kill h SIGTERM :: rest) ++ tr0.
Proof.
  intros [H1 H2 _] Hsd Hext Hp Hh Ha.
  pose proof (H2 Hsd _ _ _ Hp Hh) as Hk.
  unfold shutdown. cbv zeta.
  change (isShuttingDown (emit (ShutdownCalled c) s)) with (isShuttingDown s).
  rewrite Hsd. unfold service_names. cbn [foldl].
  match goal with
  | |- context [stopProcess backend ?t] =>
      assert (foot [FisShuttingDown; FshutdownCode]
                (a_kinds [KLog; KShutdownCalled]) s t) as F by foot_auto;
      assert (processes t = processes s) as Ep by reflexivity;
      assert (handles t = handles s) as Eh by reflexivity;
      set (s0 := t) in *; clearbody s0
  end.
  rewrite <- Ep in H1, Hp. rewrite <- Eh in H1, Hh.
  pose proof (foot_extends _ _ tr0 _ _ F Hext) as Hext0.
  destruct (stopProcess_other backend stagehand h hd s0 ltac:(done) H1 Hp Hh)
    as (H1b & Hpb & Hhb).
  pose proof (foot_extends _ _ tr0 _ _ (stopProcess_foot backend s0) Hext0)
    as Hextb.
  set (sb := stopProcess backend s0) in *. clearbody sb.
  destruct (stopProcess_other frontend stagehand h hd sb ltac:(done) H1b Hpb Hhb)
    as (H1f & Hpf & Hhf).
  pose proof (foot_extends _ _ tr0 _ _ (stopProcess_foot frontend sb) Hextb)
    as Hextf.
  set (sf := stopProcess frontend sb) in *. clearbody sf.
  rewrite (stopProcess_unfold stagehand h hd sf Hpf Hhf Hk).
  match goal with
  | |- context [kill h SIGTERM ?t] =>
      assert (foot [Ftimers; FnextTimer; Fraces] (a_kinds [KLog; KForceKill])
                sf t) as Ft by foot_auto;
      assert (handles t !! h = Some hd) as Hht by exact Hhf;
      set (t1 := t) in *; clearbody t1
  end.
  rewrite (kill_running h SIGTERM t1 hd Hht Ha).
  destruct (foot_extends _ _ tr0 _ _ Ft Hextf) as [rest ->].
  by exists rest.
Qed.

(** C5 fails as stated: with all three services up, SIGTERM makes the
    supervisor signal the backend first.  What triggers the cleanup of the
    registry in this turn is the SIGTERM sent to the stagehand, and it comes
    after that; the supervisor itself asks for no cleanup. *)
Lemma C5_counterexample :
  let s := run startup_events (main env0 fs_ok) in
  let s' := step (EvSignal SIGTERM) s in
  pc s = Started
  ∧ cleanup_first s' (added s s') = false
  ∧ existsb (triggers_cleanup s') (added s s') = true
  ∧ existsb is_cleanup_request (added s s') = false
  ∧ List.filter is_kill (added s s')
    = [Kill 0 SIGTERM; Kill 2 SIGTERM; Kill 1 SIGTERM].
Proof. vm_compute. repeat split. Qed.

(** C5, amended.  For every termination signal the supervisor handles
    (SIGTERM, SIGINT, SIGUSR2), in whatever state: the handler logs the
    signal and calls [shutdown] with exit code 0, and in that turn the
    supervisor itself makes no request for the bulk cleanup of the session
    registry.  If shutdown was not in progress it is now, with exit code 0;
    every process of the table that runs is sent SIGTERM in this turn; and
    the SIGTERM to the stagehand, on which the owning service cleans up its
    registry, is the last action of the turn: it comes after the other
    children have been signalled, not before. *)
Theorem C5_signal_goes_straight_to_shutdown (sig : signal) (s : state) :
  sig ≠ SIGKILL → exited s = None →
  let s' := step (EvSignal sig) s in
  In (Console
        (trim (wrapped_line (toISOString (env s) (dateReads s)) INFO MAIN
                 (js "Received " ++ signal_text sig
                  ++ js ", starting graceful shutdown..."))))
     (added s s')
  ∧ In (ShutdownCalled 0) (added s s')
  ∧ existsb is_cleanup_request (added s s') = false
  ∧ (isShuttingDown s = false →
     isShuttingDown s' = true ∧ shutdownCode s' = Some 0)
  ∧ (reachable s → isShuttingDown s = false →
     (∀ name h, get (processes s) name = Some h → running s h →
                In (Kill h SIGTERM) (added s s'))
     ∧ (∀ h, get (processes s) stagehand = Some h → running s h →
             ∃ rest, added s s' = Kill h SIGTERM :: rest)).
Proof.
  intros Hsig Hex s'. subst s'. unfold step. rewrite Hex. simpl.
  set (s1 := log INFO (js "Received " ++ signal_text sig
                       ++ js ", starting graceful shutdown...") MAIN
               (emit (SignalReceived sig) s)).
  assert (onSignal sig s = shutdown 0 s1) as -> by (by destruct sig).
  assert (foot [] (a_kinds [KLog; KSignal]) s s1) as F1
    by (subst s1; foot_auto).
  assert (since (trace s)
            (Console
               (trim (wrapped_line (toISOString (env s) (dateReads s)) INFO
                        MAIN (js "Received " ++ signal_text sig
                              ++ js ", starting graceful shutdown..."))))
            s1) as Hlog.
  { exists (Console
              (trim (wrapped_line (toISOString (env s) (dateReads s)) INFO MAIN
                       (js "Received " ++ signal_text sig
                        ++ js ", starting graceful shutdown...")))
            :: written (logStream s)
                 (wrapped_line (toISOString (env s) (dateReads s)) INFO MAIN
                    (js "Received " ++ signal_text sig
                     ++ js ", starting graceful shutdown..."))
            ++ [SignalReceived sig]).
    split; [|by left]. subst s1. rewrite log_trace.
    rewrite <- app_comm_cons.
    rewrite <- (app_assoc (written _ _) [SignalReceived sig] (trace s)).
    reflexivity. }
  assert (handles s1 = handles s) as Eh by reflexivity.
  assert (processes s1 = processes s) as Ep by reflexivity.
  assert (isShuttingDown s1 = isShuttingDown s) as Ef by reflexivity.
  clearbody s1.
  assert (foot shutdown_fields (a_kinds [KLog; KForceKill; KKill])
            (emit (ShutdownCalled 0) s1) (shutdown 0 s1)) as F2
    by apply shutdown_rest.
  assert (foot [FlogStream; Fexited] (a_kinds [KLog; KStreamEnd; KExit])
            (shutdown 0 s1) (settle (shutdown 0 s1))) as F3 by foot_auto.
  pose (ks := [KLog; KSignal; KShutdownCalled; KForceKill; KKill; KStreamEnd;
               KExit]).
  assert (foot all_fields (a_kinds ks) s (settle (shutdown 0 s1))) as F.
  { unfold all_fields, event_fields, ks.
    eapply foot_trans; [eapply foot_trans; [eapply foot_trans|]|].
    - eapply foot_use; [apply F1|reflexivity|side_A].
    - apply (foot_emit _ _ (ShutdownCalled 0)); [by split|done].
    - eapply foot_use; [apply F2|reflexivity|side_A].
    - eapply foot_use; [apply F3|reflexivity|side_A]. }
  destruct (foot_added _ _ _ _ F) as [Ht HA].
  split; [|split; [|split; [|split]]].
  - apply since_added. eapply foot_since; [exact F3|].
    eapply foot_since; [exact F2|].
    eapply foot_since; [|exact Hlog].
    apply (foot_emit [] (a_kinds [KShutdownCalled]) (ShutdownCalled 0));
      [by split|done].
  - destruct (foot_new _ _ _ _ F3) as (n3 & Ht3 & _).
    destruct (foot_new _ _ _ _ F2) as (n2 & Ht2 & _).
    destruct (foot_new _ _ _ _ F1) as (n1 & Ht1 & _).
    rewrite (added_app (n3 ++ n2 ++ ShutdownCalled 0 :: n1)).
    + apply in_or_app. right. apply in_or_app. right. by left.
    + rewrite Ht3, Ht2.
      change (trace (emit (ShutdownCalled 0) s1))
        with (ShutdownCalled 0 :: trace s1).
      rewrite Ht1. by rewrite <- !app_assoc.
  - by apply (no_cleanup_request ks (env s)).
  - intros Hsd. rewrite <- Ef in Hsd.
    destruct (shutdown_first_flags 0 s1 Hsd) as [Hf Hc].
    by rewrite (foot_unchanged _ _ _ _ FisShuttingDown F3 eq_refl),
               (foot_unchanged _ _ _ _ FshutdownCode F3 eq_refl).
  - intros Hr Hsd. rewrite <- Ef in Hsd.
    assert (tracked_inv s1) as Hinv.
    { apply (tracked_inv_frame _ _ _ _ F1); try reflexivity.
      by apply reachable_tracked. }
    split.
    + intros name h Hp (hd & Hh & Ha). rewrite <- Ep in Hp.
      destruct (shutdown_begins 0 name h s1 Hinv Hsd Hp)
        as (id & hd' & Hh' & _ & _ & Q4).
      assert (hd' = hd) as -> by congruence.
      apply since_added. eapply foot_since; [exact F3|].
      eapply since_older; [exact F1|]. by apply Q4.
    + intros h Hp (hd & Hh & Ha). rewrite <- Ep in Hp. rewrite <- Eh in Hh.
      destruct (shutdown_begins 0 stagehand h s1 Hinv Hsd Hp)
        as (id & hd' & Hh' & _ & [_ Q3] & _).
      rewrite (settle_pending _ _ Q3 eq_refl).
      assert (∃ new, trace s1 = new ++ trace s) as Hext
        by (eapply foot_extends; [exact F1|by exists []]).
      destruct (shutdown_stagehand_last (trace s) 0 h hd s1 Hinv Hsd Hext Hp
                  Hh Ha) as [rest Hrest].
      exists rest. by apply added_app.
Qed.

Lemma C5_signal_goes_straight_to_shutdown_witness :
  let s := run startup_events (main env0 fs_ok) in
  existsb is_cleanup_request (added s (step (EvSignal SIGTERM) s)) = false.
Proof.
  refine (proj1 (proj2 (proj2 (C5_signal_goes_straight_to_shutdown SIGTERM
                                 (run startup_events (main env0 fs_ok)) _ _)))).
  - discriminate.
  - vm_compute. reflexivity.
Defined.

(** * Further properties *)

(** ** A turn that leaves shutdown alone *)

Lemma step_plain T A ev s :
  reachable s → exited s = None →
  foot T A s (handle_event ev s) →
  touches T FshutdownCode = false → touches T Fexited = false →
  touches T Fraces = false →
  step ev s = handle_event ev s.
Proof.
  intros Hr Hex F T1 T2 T3. unfold step. rewrite Hex.
  apply (settle_same s); [by apply reachable_settled|..].
  - apply (foot_unchanged _ _ _ _ FshutdownCode F T1).
  - apply (foot_unchanged _ _ _ _ Fexited F T2).
  - apply (foot_unchanged _ _ _ _ Fraces F T3).
Qed.

(** ** Prerequisites *)

Lemma checkPrerequisites_fails fs s :
  prerequisites_met fs = false →
  ∃ message, checkPrerequisites fs s
             = (Some message, log INFO (js "Checking prerequisites...") MAIN s).
Proof.
  unfold prerequisites_met, checkPrerequisites. cbv zeta.
  destruct (backendDir fs); [|by eexists].
  destruct (frontendDir fs); [|by eexists].
  destruct (mainPy fs); [|by eexists].
  destruct (packageJson fs); [done|by eexists].
Qed.

Lemma shutdown_nothing c s :
  isShuttingDown s = false → processes s = PerService None None None →
  shutdown c s
  = log INFO (js "Shutting down services...") MAIN
      (with_shutdownCode (Some c)
         (with_isShuttingDown true (emit (ShutdownCalled c) s))).
Proof.
  intros Hsd Hp. unfold shutdown. cbv zeta.
  change (isShuttingDown (emit (ShutdownCalled c) s)) with (isShuttingDown s).
  rewrite Hsd.
  set (t := log _ _ _ _).
  assert (processes t = PerService None None None) as Hpt by exact Hp.
  clearbody t. unfold service_names. cbn [foldl].
  assert (∀ n u, processes u = PerService None None None →
                 stopProcess n u = u) as Hstop.
  { intros n u Hu. unfold stopProcess. rewrite Hu. by destruct n. }
  by rewrite (Hstop backend t Hpt), (Hstop frontend t Hpt),
    (Hstop stagehand t Hpt).
Qed.

Lemma failed_start_form e fs :
  prerequisites_met fs = false →
  ∃ message,
    main e fs
    = settle (shutdown 1
                (log ERROR (js "Failed to start: " ++ message) MAIN
                   (with_pc StartFailed
                      (log INFO (js "Checking prerequisites...") MAIN
                         (new_UnifiedServer e))))).
Proof.
  intros Hfs. unfold main, start.
  destruct (checkPrerequisites_fails fs (new_UnifiedServer e) Hfs)
    as [message ->].
  by exists message.
Qed.

Lemma failed_start_state e message :
  let t := log ERROR (js "Failed to start: " ++ message) MAIN
             (with_pc StartFailed
                (log INFO (js "Checking prerequisites...") MAIN
                   (new_UnifiedServer e))) in
  foot [FlogStream; Fpc] (a_kinds [KLog]) (blank e) t ∧ pc t = StartFailed.
Proof.
  cbv zeta. split; [unfold new_UnifiedServer; foot_auto|reflexivity].
Qed.

Lemma shutdown_of_nothing e s1 :
  foot [FlogStream; Fpc] (a_kinds [KLog]) (blank e) s1 →
  let s := settle (shutdown 1 s1) in
  exited s = Some 1 ∧ pc s = pc s1 ∧ handles s = [] ∧ timers s = []
  ∧ Forall (fun a => has_kind [KLog; KShutdownCalled; KStreamEnd; KExit] a
                     = true) (trace s).
Proof.
  intros F1. cbv zeta.
  assert (isShuttingDown s1 = false) as Hsd
    by apply (foot_unchanged _ _ _ _ FisShuttingDown F1 eq_refl).
  assert (processes s1 = PerService None None None) as Hp
    by apply (foot_unchanged _ _ _ _ Fprocesses F1 eq_refl).
  assert (exited s1 = None) as Hex
    by apply (foot_unchanged _ _ _ _ Fexited F1 eq_refl).
  assert (races s1 = []) as Hra
    by apply (foot_unchanged _ _ _ _ Fraces F1 eq_refl).
  rewrite (shutdown_nothing 1 s1 Hsd Hp).
  assert (foot [FisShuttingDown; FshutdownCode]
            (a_kinds [KLog; KShutdownCalled]) s1
            (log INFO (js "Shutting down services...") MAIN
               (with_shutdownCode (Some 1)
                  (with_isShuttingDown true (emit (ShutdownCalled 1) s1)))))
    as F2 by foot_auto.
  assert (shutdownCode
            (log INFO (js "Shutting down services...") MAIN
               (with_shutdownCode (Some 1)
                  (with_isShuttingDown true (emit (ShutdownCalled 1) s1))))
          = Some 1) as Hc by reflexivity.
  set (t1 := log INFO (js "Shutting down services...") MAIN
               (with_shutdownCode (Some 1)
                  (with_isShuttingDown true (emit (ShutdownCalled 1) s1))))
    in *.
  clearbody t1.
  assert (exited t1 = None) as Hex2
    by (rewrite <- Hex; apply (foot_unchanged _ _ _ _ Fexited F2 eq_refl)).
  assert (races t1 = []) as Hra2
    by (rewrite <- Hra; apply (foot_unchanged _ _ _ _ Fraces F2 eq_refl)).
  assert (pc t1 = pc s1) as Hpc2
    by apply (foot_unchanged _ _ _ _ Fpc F2 eq_refl).
  assert (settle t1 = finishShutdown 1 t1) as ->
    by (unfold settle; by rewrite Hc, Hex2, Hra2).
  pose proof (finishShutdown_foot 1 t1) as F3.
  assert (foot [FlogStream; Fpc; FisShuttingDown; FshutdownCode; Fexited]
            (a_kinds [KLog; KShutdownCalled; KStreamEnd; KExit]) (blank e)
            (finishShutdown 1 t1)) as F.
  { eapply foot_trans; [eapply foot_use; [exact F1|reflexivity|side_A]|].
    eapply foot_trans; [eapply foot_use; [exact F2|reflexivity|side_A]|].
    eapply foot_use; [exact F3|reflexivity|side_A]. }
  split; [apply finishShutdown_exited|].
  split; [rewrite <- Hpc2; apply (foot_unchanged _ _ _ _ Fpc F3 eq_refl)|].
  split; [apply (foot_unchanged _ _ _ _ Fhandles F eq_refl)|].
  split; [apply (foot_unchanged _ _ _ _ Ftimers F eq_refl)|].
  destruct (foot_new _ _ _ _ F) as (new & -> & HA).
  change (trace (blank e)) with (@nil action).
  rewrite app_nil_r. eapply Forall_impl; [exact HA|]. by intros a [Ha _].
Qed.

(** X1.  When one of the four paths [checkPrerequisites] looks for is
    missing, [start()] catches the error and calls [shutdown(1)]: the first
    turn ends with the supervisor exited with code 1; no process has been
    spawned, no command run and no timer set. *)
Theorem start_fails_without_prerequisites e fs :
  prerequisites_met fs = false →
  let s := main e fs in
  exited s = Some 1 ∧ pc s = StartFailed ∧ handles s = [] ∧ timers s = []
  ∧ Forall (fun a => has_kind [KLog; KShutdownCalled; KStreamEnd; KExit] a
                     = true) (trace s).
Proof.
  intros Hfs s. subst s.
  destruct (failed_start_form e fs Hfs) as [message ->].
  destruct (failed_start_state e message) as [F1 Hpc]. cbv zeta in F1, Hpc.
  set (s1 := log ERROR (js "Failed to start: " ++ message) MAIN
               (with_pc StartFailed
                  (log INFO (js "Checking prerequisites...") MAIN
                     (new_UnifiedServer e)))) in *.
  clearbody s1.
  destruct (shutdown_of_nothing e s1 F1) as (P1 & P2 & P3 & P4 & P5).
  rewrite Hpc in P2. done.
Qed.

Lemma start_fails_without_prerequisites_witness :
  exited (main env0 fs_no_frontend) = Some 1.
Proof.
  assert (prerequisites_met fs_no_frontend = false) as H by reflexivity.
  exact (proj1 (start_fails_without_prerequisites env0 fs_no_frontend H)).
Defined.

(** ** Starting a process *)

Lemma stale_facts name s :
  let s0 := match get (processes s) name with
            | Some h => kill h SIGTERM s
            | None => s
            end in
  env s0 = env s ∧ backendCommand s0 = backendCommand s
  ∧ length (handles s0) = length (handles s)
  ∧ processes s0 = processes s
  ∧ foot [Fhandles] (a_kinds [KKill]) s s0
  ∧ (∀ h, get (processes s) name = Some h → running s h →
          trace s0 = Kill h SIGTERM :: trace s).
Proof.
  cbv zeta.
  assert (foot [Fhandles] (a_kinds [KKill]) s
            match get (processes s) name with
            | Some h => kill h SIGTERM s
            | None => s
            end) as F by foot_auto.
  split; [by destruct F|].
  split; [apply (foot_unchanged _ _ _ _ FbackendCommand F eq_refl)|].
  split; [destruct (get (processes s) name); [apply kill_length|done]|].
  split; [apply (foot_unchanged _ _ _ _ Fprocesses F eq_refl)|].
  split; [exact F|].
  intros h Hp (hd & Hh & Ha). rewrite Hp. by apply (kill_running h SIGTERM s hd).
Qed.

Lemma spawn_shape p hs a s :
  trace (with_processes p (emit a (with_handles hs s))) = a :: trace s
  ∧ processes (with_processes p (emit a (with_handles hs s))) = p
  ∧ handles (with_processes p (emit a (with_handles hs s))) = hs
  ∧ timers (with_processes p (emit a (with_handles hs s))) = timers s
  ∧ nextTimer (with_processes p (emit a (with_handles hs s))) = nextTimer s.
Proof. done. Qed.

(** What [startProcess] does: a process object of the service that still
    runs is sent SIGTERM, a new process is spawned with the configuration of
    the service, and the process table points to the new one. *)
Lemma startProcess_spec tr0 name s :
  (∃ new, trace s = new ++ tr0) →
  let s' := startProcess name s in
  let h := length (handles s) in
  get (processes s') name = Some h
  ∧ (∀ n, n ≠ name → get (processes s') n = get (processes s) n)
  ∧ handles s' !! h
    = Some {| h_name := name; h_alive := true; h_killed := false |}
  ∧ length (handles s') = S h
  ∧ since tr0 (Spawn h name (CONFIG (env s) (backendCommand s) name)) s'
  ∧ (∀ h0, get (processes s) name = Some h0 → running s h0 →
           since tr0 (Kill h0 SIGTERM) s').
Proof.
  intros Hext. cbv zeta. rewrite startProcess_unfold.
  destruct (stale_facts name s) as (Ee & Eb & El & Ep & F0 & Hkill).
  cbv zeta in *.
  set (s0 := match get (processes s) name with
             | Some h => kill h SIGTERM s
             | None => s
             end) in *.
  clearbody s0. rewrite Ee, Eb, El, Ep.
  match goal with
  | |- context [with_handles _ ?t] =>
      assert (foot [] (a_kinds [KLog]) s0 t) as F1 by foot_auto;
      set (t1 := t) in *; clearbody t1
  end.
  assert (handles t1 = handles s0) as Eh
    by apply (foot_unchanged _ _ _ _ Fhandles F1 eq_refl).
  pose proof (foot_extends _ _ tr0 _ _ F0 Hext) as Hext0.
  pose proof (foot_extends _ _ tr0 _ _ F1 Hext0) as Hext1.
  match goal with
  | |- context [with_processes ?p (emit ?a (with_handles ?hs t1))] =>
      destruct (spawn_shape p hs a t1) as (St & Sp & Sh & _);
      set (s1 := with_processes p (emit a (with_handles hs t1))) in *;
      clearbody s1
  end.
  rewrite Sp, Sh.
  split; [apply get_set_eq|].
  split; [intros n Hn; by apply get_set_ne|].
  split; [rewrite <- El; by rewrite lookup_app_r, Nat.sub_diag|].
  split; [rewrite length_app; simpl; lia|].
  split; [by eapply since_cons|].
  intros h0 Hp Hrun.
  assert (since tr0 (Kill h0 SIGTERM) s0) as Hs0
    by (by eapply since_cons; [|apply Hkill]).
  destruct (foot_since _ _ tr0 _ _ _ F1 Hs0) as (new & Hnew & Hin).
  exists (Spawn (length (handles s)) name
            (CONFIG (env s) (backendCommand s) name) :: new).
  split; [by rewrite St, Hnew|by right].
Qed.

Lemma since_later tr0 a b s s' :
  trace s' = b :: trace s → since tr0 a s → since tr0 a s'.
Proof.
  intros Ht (new & Hnew & Hin). exists (b :: new).
  split; [by rewrite Ht, Hnew|by right].
Qed.

(** ** Session cleanup at startup *)

Lemma onFetch_form r s :
  pc s = AwaitFetch →
  ∃ t, foot [] (a_kinds [KLog]) s t
       ∧ onFetch r s
         = with_pc BackendDelay
             (setTimeout TResume 3000 (startProcess backend t)).
Proof.
  intros Hpc. unfold onFetch. rewrite Hpc. cbv zeta.
  destruct r; (eexists; split; [|reflexivity]); foot_auto.
Qed.

Lemma pause_shape u :
  let s' := with_pc BackendDelay (setTimeout TResume 3000 u) in
  pc s' = BackendDelay ∧ processes s' = processes u ∧ handles s' = handles u
  ∧ timers s' = (nextTimer u, TResume) :: timers u
  ∧ trace s' = SetTimeout (nextTimer u) 3000 TResume :: trace u.
Proof. done. Qed.

Lemma backend_started s t :
  foot [] (a_kinds [KLog]) s t →
  let s' := with_pc BackendDelay
              (setTimeout TResume 3000 (startProcess backend t)) in
  pc s' = BackendDelay
  ∧ get (processes s') backend = Some (length (handles s))
  ∧ handles s' !! length (handles s)
    = Some {| h_name := backend; h_alive := true; h_killed := false |}
  ∧ since (trace s)
      (Spawn (length (handles s)) backend
         (CONFIG (env s) (backendCommand s) backend)) s'
  ∧ find_timer (nextTimer s) (timers s') = Some TResume
  ∧ since (trace s) (SetTimeout (nextTimer s) 3000 TResume) s'.
Proof.
  intros Ft. cbv zeta.
  assert (env t = env s) as Ee by (by destruct Ft).
  assert (handles t = handles s) as Eh
    by apply (foot_unchanged _ _ _ _ Fhandles Ft eq_refl).
  assert (backendCommand t = backendCommand s) as Eb
    by apply (foot_unchanged _ _ _ _ FbackendCommand Ft eq_refl).
  assert (nextTimer t = nextTimer s) as En
    by apply (foot_unchanged _ _ _ _ FnextTimer Ft eq_refl).
  assert (∃ new, trace t = new ++ trace s) as Hext
    by (eapply foot_extends; [exact Ft|by exists []]).
  destruct (startProcess_spec (trace s) backend t Hext)
    as (P1 & _ & P3 & _ & P5 & _).
  assert (nextTimer (startProcess backend t) = nextTimer s) as En'.
  { rewrite <- En.
    apply (foot_unchanged _ _ _ _ FnextTimer (startProcess_foot backend t)
             eq_refl). }
  rewrite Ee, Eh, Eb in *.
  destruct (pause_shape (startProcess backend t)) as (S1 & S2 & S3 & S4 & S5).
  cbv zeta in *.
  set (u := startProcess backend t) in *. clearbody u.
  set (s' := with_pc BackendDelay (setTimeout TResume 3000 u)) in *.
  clearbody s'.
  rewrite S2, S3, S4, En'.
  split; [exact S1|]. split; [exact P1|]. split; [exact P3|].
  split; [by apply (since_later _ _ _ u _ S5)|].
  split; [simpl; by rewrite decide_True|].
  rewrite En' in S5. destruct P5 as (new & Hnew & _).
  by apply (since_cons _ _ u); [exists new|].
Qed.

(** X2.  Whatever comes of the request for session cleanup that [start()]
    makes (success, an HTTP error status or a failed request), [start()]
    goes on: in the turn the result arrives the backend is spawned and put
    into the process table, the pause of 3000 ms begins, and neither the
    failure handler nor [shutdown] is called. *)
Theorem cleanup_result_is_not_fatal (s : state) (r : fetch_result) :
  reachable s → exited s = None → pc s = AwaitFetch →
  let s' := step (EvFetch r) s in
  pc s' = BackendDelay
  ∧ get (processes s') backend = Some (length (handles s))
  ∧ handles s' !! length (handles s)
    = Some {| h_name := backend; h_alive := true; h_killed := false |}
  ∧ In (Spawn (length (handles s)) backend
          (CONFIG (env s) (backendCommand s) backend)) (added s s')
  ∧ find_timer (nextTimer s) (timers s') = Some TResume
  ∧ In (SetTimeout (nextTimer s) 3000 TResume) (added s s')
  ∧ Forall (fun a => has_kind [KLog; KSpawn; KKill; KSetTimeout] a = true)
      (added s s')
  ∧ isShuttingDown s' = isShuttingDown s
  ∧ restartCounts s' = restartCounts s.
Proof.
  intros Hr Hex Hpc s'. subst s'.
  rewrite (step_plain _ _ (EvFetch r) s Hr Hex (onFetch_foot r s)) by reflexivity.
  change (handle_event (EvFetch r) s) with (onFetch r s).
  pose proof (onFetch_foot r s) as F.
  destruct (foot_added _ _ _ _ F) as [_ HA].
  destruct (onFetch_form r s Hpc) as (t & Ft & Heq).
  destruct (backend_started s t Ft) as (P1 & P2 & P3 & P4 & P5 & P6).
  cbv zeta in *. rewrite <- Heq in *.
  set (s' := onFetch r s) in *. clearbody s'.
  split; [exact P1|]. split; [exact P2|]. split; [exact P3|].
  split; [by apply since_added|]. split; [exact P5|].
  split; [by apply since_added|].
  split.
  { eapply Forall_impl; [exact HA|]. by intros a [Ha _]. }
  split.
  - apply (foot_unchanged _ _ _ _ FisShuttingDown F eq_refl).
  - apply (foot_unchanged _ _ _ _ FrestartCounts F eq_refl).
Qed.

Lemma cleanup_result_is_not_fatal_witness :
  pc (step (EvFetch (FetchStatus 500))
        (run cleanup_under_way (main env0 fs_ok))) = BackendDelay.
Proof.
  assert (reachable (run cleanup_under_way (main env0 fs_ok))) as H1
    by (by exists env0, fs_ok, cleanup_under_way).
  assert (exited (run cleanup_under_way (main env0 fs_ok)) = None) as H2
    by (vm_compute; reflexivity).
  assert (pc (run cleanup_under_way (main env0 fs_ok)) = AwaitFetch) as H3
    by (vm_compute; reflexivity).
  exact (proj1 (cleanup_result_is_not_fatal _ (FetchStatus 500) H1 H2 H3)).
Defined.

(** ** A restart that comes due during shutdown *)

Lemma find_timer_dropped id l : find_timer id (drop_timer id l) = None.
Proof.
  unfold drop_timer. induction l as [|[i k] l IH]; [done|].
  rewrite filter_cons. simpl. destruct (decide (i ≠ id)) as [Hne|Heq].
  - simpl. by rewrite decide_False.
  - exact IH.
Qed.

(** X3.  When the delay of a restart ends after shutdown has begun, the
    callback finds the flag set and does nothing: the turn adds nothing to
    the history, spawns and signals nothing, and leaves the process table,
    the processes and the counters as they were; only the timer is gone. *)
Theorem restart_cancelled_by_shutdown id name s :
  reachable s → exited s = None → isShuttingDown s = true →
  find_timer id (timers s) = Some (TRestart name) →
  let s' := step (EvTimer id) s in
  added s s' = [] ∧ handles s' = handles s ∧ processes s' = processes s
  ∧ restartCounts s' = restartCounts s ∧ races s' = races s
  ∧ timers s' = drop_timer id (timers s)
  ∧ find_timer id (timers s') = None.
Proof.
  intros Hr Hex Hsd Hf s'. subst s'. unfold step. rewrite Hex.
  change (handle_event (EvTimer id) s) with (onTimer id s).
  rewrite (restart_suppressed id name s Hf Hsd).
  rewrite (settle_same s (with_timers (drop_timer id (timers s)) s)
             (reachable_settled s Hr) eq_refl eq_refl eq_refl).
  repeat split; try reflexivity.
  - by apply (added_app []).
  - apply find_timer_dropped.
Qed.

Lemma restart_cancelled_by_shutdown_witness :
  added (run signal_before_restart (main env0 fs_ok))
    (step (EvTimer 0) (run signal_before_restart (main env0 fs_ok))) = [].
Proof.
  assert (reachable (run signal_before_restart (main env0 fs_ok))) as H1
    by (by exists env0, fs_ok, signal_before_restart).
  assert (exited (run signal_before_restart (main env0 fs_ok)) = None) as H2
    by (vm_compute; reflexivity).
  assert (isShuttingDown (run signal_before_restart (main env0 fs_ok)) = true)
    as H3 by (vm_compute; reflexivity).
  assert (find_timer 0 (timers (run signal_before_restart (main env0 fs_ok)))
          = Some (TRestart stagehand)) as H4 by (vm_compute; reflexivity).
  exact (proj1 (restart_cancelled_by_shutdown 0 stagehand _ H1 H2 H3 H4)).
Defined.

(** ** Output of the children *)





(** ** The process table *)

(** X5.  In every state of every run, each entry of the process table is a
    process object that was spawned for that service; and until shutdown
    begins, no process of the table has been signalled by the supervisor
    and no force-kill timer is pending. *)
Theorem process_table_invariant e fs evs :
  let s := run evs (main e fs) in
  (∀ name h, get (processes s) name = Some h →
     ∃ hd, handles s !! h = Some hd ∧ h_name hd = name
           ∧ has_spawn name (trace s) = true)
  ∧ (isShuttingDown s = false →
     (∀ name h hd, get (processes s) name = Some h →
                   handles s !! h = Some hd → h_killed hd = false)
     ∧ ∀ id name h, ¬ In (id, TForceKill name h) (timers s)).
Proof.
  intros s.
  assert (reachable s) as Hr by (by exists e, fs, evs).
  destruct (reachable_tracked s Hr) as [H1 H2 H3].
  split.
  - intros name h Hp. destruct (H1 name h Hp) as (hd & Hh & Hn).
    exists hd. split; [done|]. split; [done|].
    rewrite <- Hn. by apply (reachable_handle_spawned h hd s).
  - intros Hsd. split; [by apply H2|by apply H3].
Qed.

(** ** A child that exits during shutdown *)

Lemma raceExit_races_map r u :
  races (raceExit r u)
  = map (fun r' =>
           if decide (r_handle r' = r_handle r)
           then {| r_handle := r_handle r'; r_name := r_name r';
                   r_timer := r_timer r'; r_resolved := true |}
           else r') (races u).
Proof. reflexivity. Qed.

Lemma raceExit_resolves r u :
  ∀ r', In r' (races (raceExit r u)) → r_handle r' = r_handle r →
        r_resolved r' = true.
Proof.
  intros r' Hin Heq. rewrite raceExit_races_map in Hin.
  apply in_map_iff in Hin as (r0 & <- & _).
  destruct (decide (r_handle r0 = r_handle r)) as [?|Hne]; [done|].
  by destruct Hne.
Qed.

Lemma raceExit_keeps_resolved h r u :
  (∀ r', In r' (races u) → r_handle r' = h → r_resolved r' = true) →
  ∀ r', In r' (races (raceExit r u)) → r_handle r' = h → r_resolved r' = true.
Proof.
  intros Hu r' Hin Heq. rewrite raceExit_races_map in Hin.
  apply in_map_iff in Hin as (r0 & <- & Hr0).
  destruct (decide (r_handle r0 = r_handle r)); [done|]. by apply Hu.
Qed.

Lemma raceExit_clears tr0 r u :
  (∃ new, trace u = new ++ tr0) →
  since tr0 (ClearTimeout (r_timer r)) (raceExit r u).
Proof.
  intros Hext. unfold raceExit. cbv zeta.
  assert (since tr0 (ClearTimeout (r_timer r)) (clearTimeout (r_timer r) u))
    as Hs by (by eapply since_cons).
  set (u1 := clearTimeout (r_timer r) u) in *. clearbody u1.
  eapply foot_since; [apply resolve_foot|].
  destruct (log_grows INFO (name_text (r_name r) ++ js " process stopped")
              (UPPER (r_name r)) u1) as (new & Ht & _).
  destruct Hs as (new' & Ht' & Hin).
  exists (new ++ new'). split; [by rewrite Ht, Ht', app_assoc|].
  apply in_or_app. by right.
Qed.

Lemma foldl_raceExit_clears tr0 r l :
  In r l →
  ∀ u, (∃ new, trace u = new ++ tr0) →
       since tr0 (ClearTimeout (r_timer r)) (foldl (fun s r => raceExit r s) u l).
Proof.
  induction l as [|r0 l IH]; [done|]. intros [->|Hin] u Hext; simpl.
  - eapply foot_since; [apply foldl_foot; intros; apply raceExit_foot|].
    by apply raceExit_clears.
  - apply IH; [done|]. by eapply foot_extends; [apply raceExit_foot|].
Qed.

Lemma kinds_no_kill ks e new :
  Forall (a_kinds ks e) new → lacks ks KKill = true →
  existsb is_kill new = false.
Proof.
  intros HA Hl. induction HA as [|a new Ha _ IH]; [done|]. simpl.
  rewrite IH, orb_false_r.
  pose proof (a_kinds_lacks _ _ _ _ Hl Ha). by destruct a.
Qed.

(** X6.  While shutdown is in progress, the ['exit'] event of a running
    process settles the promises [shutdown] made for it: the exit is logged
    as graceful, the 10-second timer of each of them is cleared, they are
    resolved, and the process is sent no further signal; and if that leaves
    no promise unresolved, the supervisor exits in this same turn, with the
    code [shutdown] was first called with. *)
Theorem exit_settles_the_promise h hd code sig s :
  reachable s → exited s = None → isShuttingDown s = true →
  handles s !! h = Some hd → h_alive hd = true →
  let s' := step (EvExit h code sig) s in
  stopped s' h
  ∧ (∀ r, In r (races s) → r_handle r = h →
          In (ClearTimeout (r_timer r)) (added s s'))
  ∧ (∀ r, In r (races s') → r_handle r = h → r_resolved r = true)
  ∧ existsb is_kill (added s s') = false
  ∧ (forallb r_resolved (races s') = true →
     ∃ c, first_shutdown (trace s) = Some c ∧ exited s' = Some c).
Proof.
  intros Hr Hex Hsd Hh Ha s'.
  assert (reachable s') as Hr' by (by apply reachable_step).
  pose proof (onExit_graceful h hd code sig s Hh Ha Hsd) as F1.
  assert (s' = settle (onExit h code sig s)) as Es
    by (subst s'; unfold step; by rewrite Hex).
  assert (onExit h code sig s
          = foldl (fun s r => raceExit r s)
              (log INFO (name_text (h_name hd) ++ js " process exited gracefully")
                 (UPPER (h_name hd)) (emit (ExitObserved h) (mark_gone h s)))
              (filter (fun r => r_handle r = h) (races s))) as Ex.
  { unfold onExit. rewrite Hh, Ha. cbv zeta.
    change (isShuttingDown (emit (ExitObserved h) (mark_gone h s)))
      with (isShuttingDown s).
    by rewrite Hsd. }
  assert (foot [Fhandles] (a_kinds [KLog; KExitObserved]) s
            (log INFO (name_text (h_name hd) ++ js " process exited gracefully")
               (UPPER (h_name hd)) (emit (ExitObserved h) (mark_gone h s))))
    as Ft by foot_auto.
  assert (stopped
            (log INFO (name_text (h_name hd) ++ js " process exited gracefully")
               (UPPER (h_name hd)) (emit (ExitObserved h) (mark_gone h s))) h)
    as Hst by (by apply (mark_gone_stopped h hd)).
  assert (races
            (log INFO (name_text (h_name hd) ++ js " process exited gracefully")
               (UPPER (h_name hd)) (emit (ExitObserved h) (mark_gone h s)))
          = races s) as Era by reflexivity.
  set (t := log INFO (name_text (h_name hd) ++ js " process exited gracefully")
              (UPPER (h_name hd)) (emit (ExitObserved h) (mark_gone h s))) in *.
  clearbody t.
  assert (foot [Ftimers; Fraces] (a_kinds [KLog; KClearTimeout]) t
            (onExit h code sig s)) as Fl
    by (rewrite Ex; apply foldl_foot; intros; apply raceExit_foot).
  assert (foot [Fhandles; Ftimers; Fraces; FlogStream; Fexited]
            (a_kinds [KLog; KExitObserved; KClearTimeout; KStreamEnd; KExit])
            s s') as F.
  { rewrite Es.
    eapply foot_trans; [eapply foot_use; [exact F1|reflexivity|side_A]|].
    foot_call. }
  assert (races s' = races (onExit h code sig s)) as Ers
    by (rewrite Es; apply (foot_unchanged _ _ _ _ Fraces (settle_foot _) eq_refl)).
  split; [|split; [|split; [|split]]].
  - rewrite Es. eapply foot_stopped; [apply settle_foot|].
    by eapply foot_stopped; [exact Fl|].
  - intros r Hin Heq. apply since_added. rewrite Es.
    eapply foot_since; [apply settle_foot|]. rewrite Ex.
    apply foldl_raceExit_clears.
    + apply list_elem_of_In, list_elem_of_filter. split; [done|].
      by apply list_elem_of_In.
    + eapply foot_extends; [exact Ft|by exists []].
  - rewrite Ers, Ex.
    destruct (filter (fun r => r_handle r = h) (races s)) as [|r0 l] eqn:Hl.
    + intros r Hin Heq. simpl in Hin. rewrite Era in Hin.
      assert (r ∈ filter (fun r => r_handle r = h) (races s)) as Hmem
        by (apply list_elem_of_filter; split; [done|by apply list_elem_of_In]).
      rewrite Hl in Hmem. by apply not_elem_of_nil in Hmem.
    + assert (r_handle r0 = h) as Hr0.
      { assert (r0 ∈ filter (fun r => r_handle r = h) (races s)) as Hmem
          by (rewrite Hl; left).
        apply list_elem_of_filter in Hmem. by destruct Hmem. }
      simpl. apply foldl_keeps.
      * intros u r Hu. by apply raceExit_keeps_resolved.
      * rewrite <- Hr0. apply raceExit_resolves.
  - destruct (foot_added _ _ _ _ F) as [_ HA].
    by apply (kinds_no_kill [KLog; KExitObserved; KClearTimeout; KStreamEnd; KExit]
                (env s)).
  - intros Hall.
    pose proof (reachable_inv s Hr) as [I1 I2 _ _ _ _].
    pose proof (reachable_inv s' Hr') as [J1 J2 _ J4 _ _].
    pose proof (reachable_settled s' Hr') as Hset. unfold settled in Hset.
    assert (shutdownCode s' = shutdownCode s) as Ec
      by apply (foot_unchanged _ _ _ _ FshutdownCode F eq_refl).
    rewrite Ec in Hset. rewrite Hsd in I2.
    destruct (shutdownCode s) as [c|] eqn:Hc; [|done].
    exists c. split; [by rewrite <- I1|].
    destruct (exited s') as [c'|] eqn:Hex'; [|congruence].
    specialize (J4 c' eq_refl). congruence.
Qed.

Lemma exit_settles_the_promise_witness :
  exited (step graceful_exit (run shutting_down (main env0 fs_ok))) = Some 0.
Proof.
  pose (hd := {| h_name := stagehand; h_alive := true; h_killed := true |}).
  assert (reachable (run shutting_down (main env0 fs_ok))) as H1
    by (by exists env0, fs_ok, shutting_down).
  assert (exited (run shutting_down (main env0 fs_ok)) = None) as H2
    by (vm_compute; reflexivity).
  assert (isShuttingDown (run shutting_down (main env0 fs_ok)) = true) as H3
    by (vm_compute; reflexivity).
  assert (handles (run shutting_down (main env0 fs_ok)) !! 0 = Some hd) as H4
    by (vm_compute; reflexivity).
  assert (forallb r_resolved
            (races (step graceful_exit (run shutting_down (main env0 fs_ok))))
          = true) as H5 by (vm_compute; reflexivity).
  destruct (proj2 (proj2 (proj2 (proj2
              (exit_settles_the_promise 0 hd None (Some (js "SIGTERM")) _
                 H1 H2 H3 H4 eq_refl)))) H5) as (c & Hc & Hexit).
  assert (first_shutdown (trace (run shutting_down (main env0 fs_ok))) = Some 0)
    as H6 by (vm_compute; reflexivity).
  rewrite H6 in Hc. injection Hc as <-. exact Hexit.
Defined.

(** * The environment file *)

Section EnvFileFacts.

Variable inherited : jsstring -> bool.

Lemma load_line_cases env rawLine :
  load_line inherited env rawLine = env
  ∨ ∃ key value,
      parse_line (trim rawLine) = Some (key, value)
      ∧ has_key inherited env key = false
      ∧ load_line inherited env rawLine = <[key := unquote value]> env.
Proof.
  unfold load_line. cbv zeta.
  destruct (trim rawLine) as [|c line] eqn:Ht; [by left|].
  destruct (c =? 35)%N; [by left|].
  destruct (parse_line (c :: line)) as [[key value]|]; [|by left].
  destruct (has_key inherited env key) eqn:Hk; [by left|].
  right. by exists key, value.
Qed.

Lemma has_key_None env key :
  has_key inherited env key = false → env !! key = None.
Proof.
  unfold has_key. intros [_ H]%orb_false_iff.
  apply bool_decide_eq_false in H. by apply eq_None_not_Some.
Qed.

Lemma load_line_keeps env rawLine k v :
  env !! k = Some v → load_line inherited env rawLine !! k = Some v.
Proof.
  intros Hk.
  destruct (load_line_cases env rawLine) as [->|(key & value & _ & Hn & ->)];
    [done|].
  apply has_key_None in Hn.
  rewrite lookup_insert_ne; [done|]. intros ->. congruence.
Qed.

Lemma load_line_grows env rawLine key :
  has_key inherited env key = true →
  has_key inherited (load_line inherited env rawLine) key = true.
Proof.
  unfold has_key. intros [H|H]%orb_true_iff; apply orb_true_iff; [by left|].
  right. apply bool_decide_eq_true in H as [v Hv].
  apply bool_decide_eq_true. exists v. by apply load_line_keeps.
Qed.

Lemma foldl_load_keeps lines env k v :
  env !! k = Some v → foldl (load_line inherited) env lines !! k = Some v.
Proof.
  revert env. induction lines as [|l lines IH]; intros env Hk; [done|].
  simpl. apply IH. by apply load_line_keeps.
Qed.

Lemma foldl_load_grows lines env key :
  has_key inherited env key = true →
  has_key inherited (foldl (load_line inherited) env lines) key = true.
Proof.
  revert env. induction lines as [|l lines IH]; intros env Hk; [done|].
  simpl. apply IH. by apply load_line_grows.
Qed.

Lemma nothing_to_add_load env rawLine :
  nothing_to_add inherited env rawLine → load_line inherited env rawLine = env.
Proof.
  intros Hn.
  destruct (load_line_cases env rawLine) as [->|(key & value & Hp & Hk & _)];
    [done|].
  rewrite (Hn key value Hp) in Hk. done.
Qed.

Lemma load_line_saturates env rawLine :
  nothing_to_add inherited (load_line inherited env rawLine) rawLine.
Proof.
  intros key value Hp.
  destruct (load_line_cases env rawLine) as [He|(key' & value' & Hp' & Hk & He)].
  - rewrite He. unfold load_line in He. cbv zeta in He. rewrite Hp in He.
    destruct (trim rawLine) as [|c line]; [done|].
    destruct (c =? 35)%N eqn:Hc.
    + unfold parse_line in Hp.
      destruct (is_ident_start c) eqn:Hi; [|done].
      apply N.eqb_eq in Hc. subst c. done.
    + destruct (has_key inherited env key) eqn:Hk; [done|].
      apply has_key_None in Hk.
      assert (<[key := unquote value]> env !! key = env !! key) as Hl
        by (by rewrite He).
      rewrite lookup_insert_eq, Hk in Hl. done.
  - rewrite He. assert (key' = key) as -> by congruence.
    unfold has_key. rewrite lookup_insert_eq.
    apply orb_true_iff. right. apply bool_decide_eq_true. by eexists.
Qed.

Lemma nothing_to_add_grows env env' rawLine :
  (∀ key, has_key inherited env key = true →
          has_key inherited env' key = true) →
  nothing_to_add inherited env rawLine → nothing_to_add inherited env' rawLine.
Proof. intros Hg Hn key value Hp. apply Hg. by eapply Hn. Qed.

Lemma foldl_load_saturates lines env :
  Forall (nothing_to_add inherited (foldl (load_line inherited) env lines)) lines.
Proof.
  revert env. induction lines as [|l lines IH]; intros env; [done|].
  simpl. constructor; [|apply IH].
  eapply nothing_to_add_grows; [|apply load_line_saturates].
  intros key. apply foldl_load_grows.
Qed.

Lemma foldl_load_nothing lines env :
  Forall (nothing_to_add inherited env) lines →
  foldl (load_line inherited) env lines = env.
Proof.
  induction 1 as [|l lines Hl _ IH]; [done|].
  simpl. by rewrite (nothing_to_add_load env l Hl).
Qed.

Lemma word_prefix_word s : forallb is_word (word_prefix s).1 = true.
Proof.
  induction s as [|c s IH]; [done|]. simpl.
  destruct (is_word c) eqn:Hc; [|done].
  destruct (word_prefix s) as [w after]. simpl in *. by rewrite Hc.
Qed.

Lemma parse_line_identifier line key value :
  parse_line line = Some (key, value) → is_identifier key = true.
Proof.
  unfold parse_line. destruct line as [|c rest]; [done|].
  destruct (is_ident_start c) eqn:Hc; [|done].
  destruct (word_prefix rest) as [w after] eqn:Hwp.
  destruct (skip_spaces after) as [|e after_e]; [done|].
  destruct (e =? 61)%N; [|done].
  destruct (forallb _ _); [|done].
  intros H. inversion H; subst. unfold is_identifier. rewrite Hc.
  pose proof (word_prefix_word rest) as Hw. by rewrite Hwp in Hw.
Qed.

(** X7.  [loadEnvFile] never changes a variable the environment already
    has, whatever the file holds; without a readable file it changes
    nothing; and a variable it adds is one the environment did not have,
    under a name that is an identifier. *)
Theorem loadEnvFile_keeps_environment content env key :
  loadEnvFile inherited None env = env
  ∧ (∀ value, env !! key = Some value →
              loadEnvFile inherited content env !! key = Some value)
  ∧ (∀ value, env !! key = None →
              loadEnvFile inherited content env !! key = Some value →
              inherited key = false ∧ is_identifier key = true).
Proof.
  split; [done|]. split.
  - intros value Hk. destruct content as [content|]; [|done].
    by apply foldl_load_keeps.
  - destruct content as [content|]; [|simpl; congruence].
    simpl. generalize (split_lines content) as lines.
    intros lines. revert env.
    induction lines as [|l lines IH]; intros env value Hn Hs;
      [simpl in Hs; congruence|].
    simpl in Hs.
    destruct (load_line_cases env l) as [He|(k & v & Hp & Hk & He)].
    + rewrite He in Hs. by eapply IH.
    + rewrite He in Hs. destruct (decide (k = key)) as [->|Hne].
      * split; [|by eapply parse_line_identifier].
        unfold has_key in Hk. by apply orb_false_iff in Hk as [? _].
      * apply (IH (<[k := unquote v]> env) value); [|done].
        by rewrite lookup_insert_ne.
Qed.

(** X8.  Loading the same file a second time changes nothing: after
    [loadEnvFile] every variable the file defines is in the environment. *)
Theorem loadEnvFile_idempotent content env :
  loadEnvFile inherited content (loadEnvFile inherited content env)
  = loadEnvFile inherited content env.
Proof.
  destruct content as [content|]; [|done]. simpl.
  apply foldl_load_nothing, foldl_load_saturates.
Qed.

(** X9.  The first line that defines a variable decides its value: if a
    line of the file, trimmed, is no comment and reads [key = value], and
    the environment does not have [key] when the loop reaches the line,
    then after [loadEnvFile] the variable has that value without its
    quotes, whatever the later lines say. *)
Theorem loadEnvFile_first_definition content env before rawLine after
    c line key value :
  split_lines content = before ++ rawLine :: after →
  trim rawLine = c :: line → c ≠ 35%N →
  parse_line (c :: line) = Some (key, value) →
  has_key inherited (foldl (load_line inherited) env before) key = false →
  loadEnvFile inherited (Some content) env !! key = Some (unquote value).
Proof.
  intros Hsplit Ht Hc Hp Hk. unfold loadEnvFile.
  rewrite Hsplit, foldl_app.
  generalize dependent (foldl (load_line inherited) env before).
  intros env' Hk.
  change (foldl (load_line inherited) (load_line inherited env' rawLine) after
            !! key = Some (unquote value)).
  apply foldl_load_keeps.
  unfold load_line. cbv zeta. rewrite Ht.
  apply N.eqb_neq in Hc. rewrite Hc, Hp, Hk. apply lookup_insert_eq.
Qed.

End EnvFileFacts.

Lemma loadEnvFile_keeps_environment_witness :
  loadEnvFile no_inherited (Some dotenv) some_env !! js "NODE_ENV"
  = Some (js "development").
Proof.
  assert (some_env !! js "NODE_ENV" = Some (js "development")) as H
    by (vm_compute; reflexivity).
  exact (proj1 (proj2 (loadEnvFile_keeps_environment no_inherited (Some dotenv)
                         some_env (js "NODE_ENV"))) (js "development") H).
Defined.

Lemma loadEnvFile_first_definition_witness :
  loadEnvFile no_inherited (Some dotenv) some_env !! js "API_KEY"
  = Some (js "abc").
Proof.
  assert (split_lines dotenv
          = [js "# keys"] ++ js "API_KEY = 'abc'"
            :: [js "NODE_ENV=production"; js "API_KEY=second"; js "not a line"])
    as H1 by (vm_compute; reflexivity).
  assert (trim (js "API_KEY = 'abc'") = 65%N :: js "PI_KEY = 'abc'") as H2
    by (vm_compute; reflexivity).
  assert (65 ≠ 35)%N as H3 by lia.
  assert (parse_line (65%N :: js "PI_KEY = 'abc'")
          = Some (js "API_KEY", js "'abc'")) as H4 by (vm_compute; reflexivity).
  assert (has_key no_inherited
            (foldl (load_line no_inherited) some_env [js "# keys"])
            (js "API_KEY") = false) as H5 by (vm_compute; reflexivity).
  exact (loadEnvFile_first_definition no_inherited dotenv some_env _ _ _ _ _ _ _
           H1 H2 H3 H4 H5).
Defined.
